(** * md2html: link rewriting, image embedding and document assembly

    A shallow embedding of [main.go] together with the parts of the Go
    standard library it calls ([strings] with the parts of [unicode] and
    [unicode/utf8] behind [strings.ToLower], [fmt], [path/filepath],
    [encoding/base64], [regexp], [io/ioutil]).

    - Go strings are byte sequences; they are modelled by [string], whose
      characters ([ascii]) are the 256 byte values.  The regular expression
      engine of Go steps through a string one UTF-8 rune at a time; the
      model steps one byte at a time.  The three patterns of the program
      only name ASCII bytes (as literals or as the excluded member of a
      negated class), and no byte of a multi-byte rune is an ASCII byte, so
      a negated class accepts every byte of such a rune and the text copied
      to the output is the same.  Where a character of several bytes stands
      before a link, the match of Go and its first group hold the whole
      character and those of the model its last byte; what is stated of a
      match and its groups is stated for ASCII bytes.
    - The file system and standard output are a state, [os.World], that the
      functions with effects take and return.
    - The Markdown renderer, [filepath.Dir] and [filepath.Join] are
      variables: the program only passes their results on.
    - [main] takes the values of the flags and the remaining arguments, and
      returns the exit status. *)

From Stdlib Require Import String Ascii List Bool Arith Lia NArith ZArith.
From Stdlib Require Import Btauto.
From coqutil Require Import Z.bitblast.
Import ListNotations.
Open Scope string_scope.

(** ** Package [unicode/utf8] *)

Module utf8.

Local Open Scope Z_scope.

(** The constants of the package. *)
Definition RuneError : Z := 0xFFFD.
Definition MaxRune : Z := 0x10FFFF.
Definition RuneSelf : Z := 0x80.

Definition surrogateMin : Z := 0xD800.
Definition surrogateMax : Z := 0xDFFF.

Definition t2 : Z := 0xC0.
Definition t3 : Z := 0xE0.
Definition t4 : Z := 0xF0.
Definition tx : Z := 0x80.

Definition maskx : Z := 0x3F.
Definition mask2 : Z := 0x1F.
Definition mask3 : Z := 0x0F.
Definition mask4 : Z := 0x07.

Definition rune1Max : Z := 0x7F.
Definition rune2Max : Z := 0x7FF.
Definition rune3Max : Z := 0xFFFF.

Definition locb : Z := 0x80.
Definition hicb : Z := 0xBF.

(** The value of a byte, and the conversion [byte(z)] of an integer. *)
Definition byteVal (c : ascii) : Z := Z.of_N (N_of_ascii c).

Definition toByte (z : Z) : ascii := ascii_of_N (Z.to_N (z mod 256)).

(** The entries of the table [first]: [as] for an ASCII byte, [xx] for a
    byte that begins no character; in the other entries the low three bits
    are the size of the character and the high four bits the index into
    [acceptRanges]. *)
Definition as_ : Z := 0xF0.
Definition xx : Z := 0xF1.

Definition first (s0 : Z) : Z :=
  if s0 <? 0x80 then as_
  else if s0 <? 0xC2 then xx
  else if s0 <? 0xE0 then 0x02
  else if s0 =? 0xE0 then 0x13
  else if s0 <? 0xED then 0x03
  else if s0 =? 0xED then 0x23
  else if s0 <? 0xF0 then 0x03
  else if s0 =? 0xF0 then 0x34
  else if s0 <? 0xF4 then 0x04
  else if s0 =? 0xF4 then 0x44
  else xx.

(** [acceptRanges[i]]: the values the second byte of a character may have. *)
Definition acceptRanges (i : Z) : Z * Z :=
  if i =? 0 then (locb, hicb)
  else if i =? 1 then (0xA0, hicb)
  else if i =? 2 then (locb, 0x9F)
  else if i =? 3 then (0x90, hicb)
  else if i =? 4 then (locb, 0x8F)
  else (0, 0).

(** [utf8.DecodeRuneInString(s)]: the first character of [s] and the number
    of its bytes; a byte that begins no well-formed character is read as
    [RuneError], of width 1.  The loop [for i, c := range s] reads a string
    in the same way.  [mask] is [rune(x) << 31 >> 31] in 32 bits: all ones
    for [xx], whose low bit is set, and zero for [as]. *)
Definition DecodeRuneInString (s : string) : Z * nat :=
  match s with
  | EmptyString => (RuneError, 0%nat)
  | String c0 r0 =>
      let s0 := byteVal c0 in
      let x := first s0 in
      if as_ <=? x then
        let mask := if Z.odd x then (-1) else 0 in
        (Z.lor (Z.ldiff s0 mask) (Z.land RuneError mask), 1%nat)
      else
        let sz := Z.to_nat (Z.land x 7) in
        let accept := acceptRanges (Z.shiftr x 4) in
        if Nat.ltb (String.length s) sz then (RuneError, 1%nat)
        else
          match r0 with
          | EmptyString => (RuneError, 1%nat)
          | String c1 r1 =>
              let s1 := byteVal c1 in
              if (s1 <? fst accept) || (snd accept <? s1) then (RuneError, 1%nat)
              else if Nat.leb sz 2 then
                (Z.lor (Z.shiftl (Z.land s0 mask2) 6) (Z.land s1 maskx), 2%nat)
              else
                match r1 with
                | EmptyString => (RuneError, 1%nat)
                | String c2 r2 =>
                    let s2 := byteVal c2 in
                    if (s2 <? locb) || (hicb <? s2) then (RuneError, 1%nat)
                    else if Nat.leb sz 3 then
                      (Z.lor (Z.lor (Z.shiftl (Z.land s0 mask3) 12)
                                    (Z.shiftl (Z.land s1 maskx) 6))
                             (Z.land s2 maskx), 3%nat)
                    else
                      match r2 with
                      | EmptyString => (RuneError, 1%nat)
                      | String c3 _ =>
                          let s3 := byteVal c3 in
                          if (s3 <? locb) || (hicb <? s3) then (RuneError, 1%nat)
                          else
                            (Z.lor (Z.lor (Z.lor (Z.shiftl (Z.land s0 mask4) 18)
                                                 (Z.shiftl (Z.land s1 maskx) 12))
                                          (Z.shiftl (Z.land s2 maskx) 6))
                                   (Z.land s3 maskx), 4%nat)
                      end
                end
          end
  end.

(** The bytes [utf8.AppendRune] appends for the character [r]: a negative
    value, a surrogate and a value above [MaxRune] are written as
    [RuneError]. *)
Definition AppendRune (r : Z) : string :=
  if (0 <=? r) && (r <=? rune1Max) then String (toByte r) EmptyString
  else if (0 <=? r) && (r <=? rune2Max) then
    String (toByte (Z.lor t2 (Z.shiftr r 6)))
      (String (toByte (Z.lor tx (Z.land r maskx))) EmptyString)
  else
    let r3 := if (r <? 0) || (MaxRune <? r) ||
                 ((surrogateMin <=? r) && (r <=? surrogateMax))
              then Some RuneError
              else if r <=? rune3Max then Some r else None in
    match r3 with
    | Some r =>
        String (toByte (Z.lor t3 (Z.shiftr r 12)))
          (String (toByte (Z.lor tx (Z.land (Z.shiftr r 6) maskx)))
             (String (toByte (Z.lor tx (Z.land r maskx))) EmptyString))
    | None =>
        String (toByte (Z.lor t4 (Z.shiftr r 18)))
          (String (toByte (Z.lor tx (Z.land (Z.shiftr r 12) maskx)))
             (String (toByte (Z.lor tx (Z.land (Z.shiftr r 6) maskx)))
                (String (toByte (Z.lor tx (Z.land r maskx))) EmptyString)))
    end.

End utf8.

(** ** Package [unicode] *)

Module unicode.

Local Open Scope Z_scope.

Definition MaxRune : Z := 0x10FFFF.
Definition MaxASCII : Z := 0x7F.

(** The delta of a range in which upper-case and lower-case letters
    alternate. *)
Definition UpperLower : Z := MaxRune + 1.

(** [unicode.CaseRanges], each range [(Lo, Hi, Delta[LowerCase])] with its
    delta for lower case (Unicode 14.0); the ranges whose delta for lower
    case is zero are left out, [to] returning the character itself for them
    as for a character in no range. *)
Definition CaseRanges : list (Z * Z * Z) :=
  [ (0x0041, 0x005A, 32);
    (0x00C0, 0x00D6, 32); (0x00D8, 0x00DE, 32); (0x0100, 0x012F, UpperLower);
    (0x0130, 0x0130, (-199)); (0x0132, 0x0137, UpperLower);
    (0x0139, 0x0148, UpperLower); (0x014A, 0x0177, UpperLower);
    (0x0178, 0x0178, (-121)); (0x0179, 0x017E, UpperLower);
    (0x0181, 0x0181, 210); (0x0182, 0x0185, UpperLower);
    (0x0186, 0x0186, 206); (0x0187, 0x0188, UpperLower);
    (0x0189, 0x018A, 205); (0x018B, 0x018C, UpperLower); (0x018E, 0x018E, 79);
    (0x018F, 0x018F, 202); (0x0190, 0x0190, 203);
    (0x0191, 0x0192, UpperLower); (0x0193, 0x0193, 205);
    (0x0194, 0x0194, 207); (0x0196, 0x0196, 211); (0x0197, 0x0197, 209);
    (0x0198, 0x0199, UpperLower); (0x019C, 0x019C, 211);
    (0x019D, 0x019D, 213); (0x019F, 0x019F, 214);
    (0x01A0, 0x01A5, UpperLower); (0x01A6, 0x01A6, 218);
    (0x01A7, 0x01A8, UpperLower); (0x01A9, 0x01A9, 218);
    (0x01AC, 0x01AD, UpperLower); (0x01AE, 0x01AE, 218);
    (0x01AF, 0x01B0, UpperLower); (0x01B1, 0x01B2, 217);
    (0x01B3, 0x01B6, UpperLower); (0x01B7, 0x01B7, 219);
    (0x01B8, 0x01B9, UpperLower); (0x01BC, 0x01BD, UpperLower);
    (0x01C4, 0x01C4, 2); (0x01C5, 0x01C6, UpperLower); (0x01C7, 0x01C7, 2);
    (0x01C8, 0x01C9, UpperLower); (0x01CA, 0x01CA, 2);
    (0x01CB, 0x01DC, UpperLower); (0x01DE, 0x01EF, UpperLower);
    (0x01F1, 0x01F1, 2); (0x01F2, 0x01F5, UpperLower);
    (0x01F6, 0x01F6, (-97)); (0x01F7, 0x01F7, (-56));
    (0x01F8, 0x021F, UpperLower); (0x0220, 0x0220, (-130));
    (0x0222, 0x0233, UpperLower); (0x023A, 0x023A, 10795);
    (0x023B, 0x023C, UpperLower); (0x023D, 0x023D, (-163));
    (0x023E, 0x023E, 10792); (0x0241, 0x0242, UpperLower);
    (0x0243, 0x0243, (-195)); (0x0244, 0x0244, 69); (0x0245, 0x0245, 71);
    (0x0246, 0x024F, UpperLower); (0x0370, 0x0373, UpperLower);
    (0x0376, 0x0377, UpperLower); (0x037F, 0x037F, 116); (0x0386, 0x0386, 38);
    (0x0388, 0x038A, 37); (0x038C, 0x038C, 64); (0x038E, 0x038F, 63);
    (0x0391, 0x03A1, 32); (0x03A3, 0x03AB, 32); (0x03CF, 0x03CF, 8);
    (0x03D8, 0x03EF, UpperLower); (0x03F4, 0x03F4, (-60));
    (0x03F7, 0x03F8, UpperLower); (0x03F9, 0x03F9, (-7));
    (0x03FA, 0x03FB, UpperLower); (0x03FD, 0x03FF, (-130));
    (0x0400, 0x040F, 80); (0x0410, 0x042F, 32); (0x0460, 0x0481, UpperLower);
    (0x048A, 0x04BF, UpperLower); (0x04C0, 0x04C0, 15);
    (0x04C1, 0x04CE, UpperLower); (0x04D0, 0x052F, UpperLower);
    (0x0531, 0x0556, 48); (0x10A0, 0x10C5, 7264); (0x10C7, 0x10C7, 7264);
    (0x10CD, 0x10CD, 7264); (0x13A0, 0x13EF, 38864); (0x13F0, 0x13F5, 8);
    (0x1C90, 0x1CBA, (-3008)); (0x1CBD, 0x1CBF, (-3008));
    (0x1E00, 0x1E95, UpperLower); (0x1E9E, 0x1E9E, (-7615));
    (0x1EA0, 0x1EFF, UpperLower); (0x1F08, 0x1F0F, (-8));
    (0x1F18, 0x1F1D, (-8)); (0x1F28, 0x1F2F, (-8)); (0x1F38, 0x1F3F, (-8));
    (0x1F48, 0x1F4D, (-8)); (0x1F59, 0x1F59, (-8)); (0x1F5B, 0x1F5B, (-8));
    (0x1F5D, 0x1F5D, (-8)); (0x1F5F, 0x1F5F, (-8)); (0x1F68, 0x1F6F, (-8));
    (0x1F88, 0x1F8F, (-8)); (0x1F98, 0x1F9F, (-8)); (0x1FA8, 0x1FAF, (-8));
    (0x1FB8, 0x1FB9, (-8)); (0x1FBA, 0x1FBB, (-74)); (0x1FBC, 0x1FBC, (-9));
    (0x1FC8, 0x1FCB, (-86)); (0x1FCC, 0x1FCC, (-9)); (0x1FD8, 0x1FD9, (-8));
    (0x1FDA, 0x1FDB, (-100)); (0x1FE8, 0x1FE9, (-8));
    (0x1FEA, 0x1FEB, (-112)); (0x1FEC, 0x1FEC, (-7));
    (0x1FF8, 0x1FF9, (-128)); (0x1FFA, 0x1FFB, (-126));
    (0x1FFC, 0x1FFC, (-9)); (0x2126, 0x2126, (-7517));
    (0x212A, 0x212A, (-8383)); (0x212B, 0x212B, (-8262));
    (0x2132, 0x2132, 28); (0x2160, 0x216F, 16); (0x2183, 0x2184, UpperLower);
    (0x24B6, 0x24CF, 26); (0x2C00, 0x2C2F, 48); (0x2C60, 0x2C61, UpperLower);
    (0x2C62, 0x2C62, (-10743)); (0x2C63, 0x2C63, (-3814));
    (0x2C64, 0x2C64, (-10727)); (0x2C67, 0x2C6C, UpperLower);
    (0x2C6D, 0x2C6D, (-10780)); (0x2C6E, 0x2C6E, (-10749));
    (0x2C6F, 0x2C6F, (-10783)); (0x2C70, 0x2C70, (-10782));
    (0x2C72, 0x2C73, UpperLower); (0x2C75, 0x2C76, UpperLower);
    (0x2C7E, 0x2C7F, (-10815)); (0x2C80, 0x2CE3, UpperLower);
    (0x2CEB, 0x2CEE, UpperLower); (0x2CF2, 0x2CF3, UpperLower);
    (0xA640, 0xA66D, UpperLower); (0xA680, 0xA69B, UpperLower);
    (0xA722, 0xA72F, UpperLower); (0xA732, 0xA76F, UpperLower);
    (0xA779, 0xA77C, UpperLower); (0xA77D, 0xA77D, (-35332));
    (0xA77E, 0xA787, UpperLower); (0xA78B, 0xA78C, UpperLower);
    (0xA78D, 0xA78D, (-42280)); (0xA790, 0xA793, UpperLower);
    (0xA796, 0xA7A9, UpperLower); (0xA7AA, 0xA7AA, (-42308));
    (0xA7AB, 0xA7AB, (-42319)); (0xA7AC, 0xA7AC, (-42315));
    (0xA7AD, 0xA7AD, (-42305)); (0xA7AE, 0xA7AE, (-42308));
    (0xA7B0, 0xA7B0, (-42258)); (0xA7B1, 0xA7B1, (-42282));
    (0xA7B2, 0xA7B2, (-42261)); (0xA7B3, 0xA7B3, 928);
    (0xA7B4, 0xA7C3, UpperLower); (0xA7C4, 0xA7C4, (-48));
    (0xA7C5, 0xA7C5, (-42307)); (0xA7C6, 0xA7C6, (-35384));
    (0xA7C7, 0xA7CA, UpperLower); (0xA7D0, 0xA7D1, UpperLower);
    (0xA7D6, 0xA7D9, UpperLower); (0xA7F5, 0xA7F6, UpperLower);
    (0xFF21, 0xFF3A, 32); (0x10400, 0x10427, 40); (0x104B0, 0x104D3, 40);
    (0x10570, 0x1057A, 39); (0x1057C, 0x1058A, 39); (0x1058C, 0x10592, 39);
    (0x10594, 0x10595, 39); (0x10C80, 0x10CB2, 64); (0x118A0, 0x118BF, 32);
    (0x16E40, 0x16E5F, 32); (0x1E900, 0x1E921, 34)
  ].

(** [unicode.to(LowerCase, r, caseRange)]; the ranges are disjoint, so the
    binary search of Go and the search from the front find the same range.
    In an [UpperLower] range the letters at an even offset are upper case and
    the next one is their lower case:
    [cr.Lo + ((r - cr.Lo) &^ 1 | LowerCase & 1)]. *)
Fixpoint to (r : Z) (caseRange : list (Z * Z * Z)) : Z :=
  match caseRange with
  | [] => r
  | (lo, hi, delta) :: caseRange' =>
      if (lo <=? r) && (r <=? hi) then
        if MaxRune <? delta then lo + Z.lor (Z.ldiff (r - lo) 1) 1
        else r + delta
      else to r caseRange'
  end.

(** [unicode.ToLower(r)] *)
Definition ToLower (r : Z) : Z :=
  if r <=? MaxASCII then
    if (65 <=? r) && (r <=? 90) then r + 32 else r
  else to r CaseRanges.

End unicode.

(** ** Package [strings] *)

Module strings.

(** [strings.HasPrefix(s, prefix)] *)
Definition HasPrefix (s prefix : string) : bool := String.prefix prefix s.

(** [strings.HasSuffix(s, suffix)]:
    [len(s) >= len(suffix) && s[len(s)-len(suffix):] == suffix] *)
Definition HasSuffix (s suffix : string) : bool :=
  Nat.leb (String.length suffix) (String.length s) &&
  String.eqb
    (substring (String.length s - String.length suffix) (String.length suffix) s)
    suffix.

(** [strings.TrimSuffix(s, suffix)]:
    [if HasSuffix(s, suffix) { return s[:len(s)-len(suffix)] }; return s] *)
Definition TrimSuffix (s suffix : string) : string :=
  if HasSuffix s suffix
  then substring 0 (String.length s - String.length suffix) s
  else s.

(** The scan of [strings.ReplaceAll] for a non-empty [old]: occurrences are
    found left to right and do not overlap.  [skip] counts the bytes of the
    occurrence just replaced that are still to be passed over. *)
Fixpoint replaceScan (old new : string) (skip : nat) (s : string) : string :=
  match s with
  | EmptyString => EmptyString
  | String c s' =>
      match skip with
      | S k => replaceScan old new k s'
      | O =>
          if String.prefix old s
          then new ++ replaceScan old new (String.length old - 1) s'
          else String c (replaceScan old new O s')
      end
  end.

(** With an empty [old], Go inserts [new] before every character and at the
    end of the string. *)
Fixpoint replaceEmpty (new : string) (s : string) : string :=
  match s with
  | EmptyString => new
  | String c s' => new ++ String c (replaceEmpty new s')
  end.

(** [strings.ReplaceAll(s, old, new)] *)
Definition ReplaceAll (s old new : string) : string :=
  if String.eqb old new then s
  else match old with
       | EmptyString => replaceEmpty new s
       | _ => replaceScan old new O s
       end.

(** Lower-casing of one byte: [A]..[Z] become [a]..[z]. *)
Definition lowerByte (c : ascii) : ascii :=
  let n := nat_of_ascii c in
  if Nat.leb 65 n && Nat.leb n 90 then ascii_of_nat (n + 32) else c.

(** [strings.Map(mapping, s)] for a [mapping] that drops no character: the
    characters of [s], read as by [for i, c := range s], each replaced by
    its image; an input that is returned as it is, without a copy, has the
    same bytes.  [skip] counts the bytes of the character just read that
    are still to be passed over. *)
Fixpoint mapFrom (mapping : Z -> Z) (skip : nat) (s : string) : string :=
  match s with
  | EmptyString => EmptyString
  | String _ s' =>
      match skip with
      | S k => mapFrom mapping k s'
      | O =>
          let '(c, width) := utf8.DecodeRuneInString s in
          utf8.AppendRune (mapping c) ++ mapFrom mapping (width - 1) s'
      end
  end.

Definition Map (mapping : Z -> Z) (s : string) : string := mapFrom mapping 0 s.

(** The two tests of the first loop of [strings.ToLower]: every byte is
    below [utf8.RuneSelf], and some byte is an upper-case letter. *)
Fixpoint onlyASCII (s : string) : bool :=
  match s with
  | EmptyString => true
  | String c s' => Nat.ltb (nat_of_ascii c) 128 && onlyASCII s'
  end.

Fixpoint hasUpper (s : string) : bool :=
  match s with
  | EmptyString => false
  | String c s' =>
      (Nat.leb 65 (nat_of_ascii c) && Nat.leb (nat_of_ascii c) 90) || hasUpper s'
  end.

(** The second loop of [strings.ToLower], for a string of ASCII bytes. *)
Fixpoint lowerASCII (s : string) : string :=
  match s with
  | EmptyString => EmptyString
  | String c s' => String (lowerByte c) (lowerASCII s')
  end.

(** [strings.ToLower(s)]: a string of ASCII bytes is returned as it is when
    it has no upper-case letter and with its letters lower-cased otherwise;
    any other string is [Map(unicode.ToLower, s)]. *)
Definition ToLower (s : string) : string :=
  if onlyASCII s then
    if hasUpper s then lowerASCII s else s
  else Map unicode.ToLower s.

End strings.

(** ** Package [fmt] *)

Module fmt.

(** [fmt.Sprintf(format, args...)] for string operands.  The verbs [%s],
    [%v] and [%w] print the next operand, [%%] prints a percent sign.  The
    program uses no other verb and always passes as many operands as the
    format has verbs; operands left over are dropped here. *)
Fixpoint Sprintf (format : string) (args : list string) : string :=
  match format with
  | EmptyString => EmptyString
  | String c rest =>
      if Ascii.eqb c "%" then
        match rest with
        | EmptyString => "%!(NOVERB)"
        | String v rest' =>
            if Ascii.eqb v "%" then String "%" (Sprintf rest' args)
            else if Ascii.eqb v "s" || Ascii.eqb v "v" || Ascii.eqb v "w" then
              match args with
              | a :: args' => a ++ Sprintf rest' args'
              | [] => "%!" ++ String v "(MISSING)" ++ Sprintf rest' []
              end
            else String c (String v (Sprintf rest' args))
        end
      else String c (Sprintf rest args)
  end.

End fmt.

(** ** Package [path/filepath] *)

Module filepath.

(** The loop of [filepath.Ext]:
    [for i := len(path) - 1; i >= 0 && !os.IsPathSeparator(path[i]); i--
       { if path[i] == '.' { return path[i:] } }; return ""].
    The argument [n] is [i + 1]; the path separator is that of Unix. *)
Fixpoint extLoop (path : string) (n : nat) : string :=
  match n with
  | O => EmptyString
  | S i =>
      match String.get i path with
      | Some c =>
          if Ascii.eqb c "/" then EmptyString
          else if Ascii.eqb c "." then substring i (String.length path - i) path
          else extLoop path i
      | None => EmptyString
      end
  end.

(** [filepath.Ext(path)] *)
Definition Ext (path : string) : string := extLoop path (String.length path).

End filepath.

(** ** Package [encoding/base64] *)

Module base64.

(** The alphabet of [base64.StdEncoding] and its padding character. *)
Definition encodeStd : string :=
  "ABCDEFGHIJKLMNOPQRSTUVWXYZabcdefghijklmnopqrstuvwxyz0123456789+/".

Definition StdPadding : ascii := "="%char.

Definition byteZ (c : ascii) : Z := Z.of_N (N_of_ascii c).

Definition zByte (z : Z) : ascii := ascii_of_N (Z.to_N z).

(** [enc.encode[i]] *)
Definition encode (i : Z) : ascii :=
  match String.get (Z.to_nat i) encodeStd with
  | Some c => c
  | None => StdPadding
  end.

(** [base64.StdEncoding.EncodeToString(src)]: every three bytes give four
    characters [enc.encode[val>>18&0x3F]], [enc.encode[val>>12&0x3F]],
    [enc.encode[val>>6&0x3F]], [enc.encode[val&0x3F]] of
    [val = src[0]<<16 | src[1]<<8 | src[2]]; one or two bytes left over give
    two or three characters and padding. *)
Fixpoint EncodeToString (src : string) : string :=
  match src with
  | EmptyString => EmptyString
  | String a EmptyString =>
      let val := Z.shiftl (byteZ a) 16 in
      String (encode (Z.land (Z.shiftr val 18) 63))
        (String (encode (Z.land (Z.shiftr val 12) 63))
           (String StdPadding (String StdPadding EmptyString)))
  | String a (String b EmptyString) =>
      let val := Z.lor (Z.shiftl (byteZ a) 16) (Z.shiftl (byteZ b) 8) in
      String (encode (Z.land (Z.shiftr val 18) 63))
        (String (encode (Z.land (Z.shiftr val 12) 63))
           (String (encode (Z.land (Z.shiftr val 6) 63))
              (String StdPadding EmptyString)))
  | String a (String b (String c rest)) =>
      let val :=
        Z.lor (Z.lor (Z.shiftl (byteZ a) 16) (Z.shiftl (byteZ b) 8)) (byteZ c) in
      String (encode (Z.land (Z.shiftr val 18) 63))
        (String (encode (Z.land (Z.shiftr val 12) 63))
           (String (encode (Z.land (Z.shiftr val 6) 63))
              (String (encode (Z.land val 63)) (EncodeToString rest))))
  end.

(** Position of a character in the alphabet ([enc.decodeMap]). *)
Fixpoint indexFrom (i : Z) (alphabet : string) (c : ascii) : option Z :=
  match alphabet with
  | EmptyString => None
  | String x alphabet' =>
      if Ascii.eqb x c then Some i else indexFrom (i + 1) alphabet' c
  end.

Definition decodeMap (c : ascii) : option Z := indexFrom 0 encodeStd c.

(** Standard base64 decoding (RFC 4648, section 4; standard alphabet, with
    padding): four characters give three bytes; padding is accepted in the
    last group only. *)
Fixpoint DecodeString (s : string) : option string :=
  match s with
  | EmptyString => Some EmptyString
  | String c0 (String c1 (String c2 (String c3 rest))) =>
      match decodeMap c0, decodeMap c1 with
      | Some i0, Some i1 =>
          if Ascii.eqb c3 StdPadding then
            match rest with
            | EmptyString =>
                if Ascii.eqb c2 StdPadding then
                  let val := Z.lor (Z.shiftl i0 18) (Z.shiftl i1 12) in
                  Some (String (zByte (Z.land (Z.shiftr val 16) 255)) EmptyString)
                else
                  match decodeMap c2 with
                  | Some i2 =>
                      let val :=
                        Z.lor (Z.lor (Z.shiftl i0 18) (Z.shiftl i1 12))
                              (Z.shiftl i2 6) in
                      Some (String (zByte (Z.land (Z.shiftr val 16) 255))
                              (String (zByte (Z.land (Z.shiftr val 8) 255))
                                 EmptyString))
                  | None => None
                  end
            | _ => None
            end
          else
            match decodeMap c2, decodeMap c3, DecodeString rest with
            | Some i2, Some i3, Some out =>
                let val :=
                  Z.lor (Z.lor (Z.lor (Z.shiftl i0 18) (Z.shiftl i1 12))
                               (Z.shiftl i2 6)) i3 in
                Some (String (zByte (Z.land (Z.shiftr val 16) 255))
                        (String (zByte (Z.land (Z.shiftr val 8) 255))
                           (String (zByte (Z.land val 255)) out)))
            | _, _, _ => None
            end
      | _, _ => None
      end
  | _ => None
  end.

End base64.

(** ** Package [regexp]

    The operators the three patterns of the program use, with the
    leftmost-first semantics of Go: of the matches that start at the
    leftmost position, the one a backtracking search finds first.
    Repetition is greedy and, as in the patterns, applies to a single
    character or negated single character. *)

Module regexp.

(** A literal byte [c], or the negated class [[^c]]. *)
Inductive CharSet : Type :=
| Lit (c : ascii)
| NotLit (c : ascii).

Definition inSet (cs : CharSet) (a : ascii) : bool :=
  match cs with
  | Lit c => Ascii.eqb a c
  | NotLit c => negb (Ascii.eqb a c)
  end.

Inductive Regexp : Type :=
| Char (cs : CharSet)            (* one character of the set *)
| Star (cs : CharSet)            (* cs*  *)
| Plus (cs : CharSet)            (* cs+  *)
| Concat (r1 r2 : Regexp)        (* r1 r2 *)
| Capture (r : Regexp)           (* ( r ) *)
| BeginLine.                     (* ^ under the flag (?m) *)

Declare Scope regexp_scope.
Delimit Scope regexp_scope with re.
Bind Scope regexp_scope with Regexp.
Infix ";;" := Concat (at level 61, right associativity) : regexp_scope.

(** The part of [s] that was consumed to reach its suffix [rest]. *)
Definition consumed (s rest : string) : string :=
  substring 0 (String.length s - String.length rest) s.

(** [^] under [(?m)]: at the beginning of the text or after a line feed.
    [prev] is the byte before the current position, if any. *)
Definition atLineStart (prev : option ascii) : bool :=
  match prev with
  | None => true
  | Some c => Ascii.eqb c "010"
  end.

(** State of a match in progress: the byte before the position, the text
    from the position on, and the groups closed so far (in the patterns of
    the program groups are not nested, so this is their numbering). *)
Record Thread : Type := mkThread {
  t_prev : option ascii;
  t_rest : string;
  t_caps : list string
}.

(** Greedy repetition: take one more character when possible, and give the
    characters back one by one when what follows does not match. *)
Fixpoint star {R : Type} (cs : CharSet) (k : option ascii -> string -> option R)
    (prev : option ascii) (s : string) : option R :=
  match s with
  | String a s' =>
      if inSet cs a then
        match star cs k (Some a) s' with
        | Some r => Some r
        | None => k prev s
        end
      else k prev s
  | EmptyString => k prev s
  end.

(** Backtracking match of [r] at the start of [s], continuing with [k]. *)
Fixpoint run {R : Type} (r : Regexp) (prev : option ascii) (s : string)
    (caps : list string) (k : Thread -> option R) : option R :=
  match r with
  | Char cs =>
      match s with
      | String a s' => if inSet cs a then k (mkThread (Some a) s' caps) else None
      | EmptyString => None
      end
  | Star cs => star cs (fun p s' => k (mkThread p s' caps)) prev s
  | Plus cs =>
      match s with
      | String a s' =>
          if inSet cs a
          then star cs (fun p s' => k (mkThread p s' caps)) (Some a) s'
          else None
      | EmptyString => None
      end
  | Concat r1 r2 =>
      run r1 prev s caps (fun t => run r2 (t_prev t) (t_rest t) (t_caps t) k)
  | Capture r1 =>
      run r1 prev s caps
        (fun t => k (mkThread (t_prev t) (t_rest t)
                       (t_caps t ++ [consumed s (t_rest t)])))
  | BeginLine => if atLineStart prev then k (mkThread prev s caps) else None
  end.

(** A match: the matched text, the text of its groups, the byte before
    the position after it, and the text after it. *)
Record Match : Type := mkMatch {
  m_text : string;
  m_groups : list string;
  m_prev : option ascii;
  m_rest : string
}.

(** Match of [re] starting exactly at the start of [s]. *)
Definition matchHere (re : Regexp) (prev : option ascii) (s : string)
  : option Match :=
  run re prev s []
    (fun t => Some (mkMatch (consumed s (t_rest t)) (t_caps t)
                      (t_prev t) (t_rest t))).

(** Leftmost match in [s]: the unmatched text before it, and the match. *)
Fixpoint find (re : Regexp) (prev : option ascii) (s : string)
  : option (string * Match) :=
  match matchHere re prev s with
  | Some m => Some (EmptyString, m)
  | None =>
      match s with
      | EmptyString => None
      | String a s' =>
          match find re (Some a) s' with
          | Some (before, m) => Some (String a before, m)
          | None => None
          end
      end
  end.

(** [re.FindStringSubmatch(s)]: the leftmost match and its groups, or [nil]. *)
Definition FindStringSubmatch (re : Regexp) (s : string) : list string :=
  match find re None s with
  | Some (_, m) => m_text m :: m_groups m
  | None => []
  end.

(** The loop of [re.replaceAll], with the state [St] of the replacement
    function threaded through.  [prev] and [s] are the text around
    [searchPos]; [atEnd] holds when [searchPos] is the end of the previous
    match, where an empty match is not replaced again.  After an empty match
    at [searchPos] the search advances one character, which is copied. *)
Fixpoint replaceLoop {St : Type} (fuel : nat) (re : Regexp)
    (repl : string -> St -> string * St)
    (prev : option ascii) (s : string) (atEnd : bool) (st : St)
  : string * St :=
  match fuel with
  | O => (s, st)
  | S fuel' =>
      match find re prev s with
      | None => (s, st)
      | Some (before, m) =>
          match before, m_text m with
          | EmptyString, EmptyString =>
              let '(r, st1) := if atEnd then (EmptyString, st)
                               else repl EmptyString st in
              match s with
              | EmptyString => (r, st1)
              | String c s' =>
                  let '(out, st2) :=
                    replaceLoop fuel' re repl (Some c) s' false st1 in
                  (r ++ String c out, st2)
              end
          | _, _ =>
              let '(r, st1) := repl (m_text m) st in
              let '(out, st2) :=
                replaceLoop fuel' re repl (m_prev m) (m_rest m) true st1 in
              (before ++ r ++ out, st2)
          end
      end
  end.

(** The replacement loop from a position inside a text. *)
Definition replaceFrom {St : Type} (re : Regexp)
    (repl : string -> St -> string * St)
    (prev : option ascii) (s : string) (st : St) : string * St :=
  replaceLoop (S (String.length s)) re repl prev s false st.

(** [re.ReplaceAllStringFunc(src, repl)] for a replacement function with
    effects on a state. *)
Definition ReplaceAllStringFuncM {St : Type} (re : Regexp) (src : string)
    (repl : string -> St -> string * St) (st : St) : string * St :=
  replaceFrom re repl None src st.

(** [re.ReplaceAllStringFunc(src, repl)] for a pure replacement function. *)
Definition ReplaceAllStringFunc (re : Regexp) (src : string)
    (repl : string -> string) : string :=
  fst (ReplaceAllStringFuncM re src (fun m (st : unit) => (repl m, st)) tt).

End regexp.

(** ** The operating system, as far as the program uses it *)

Module os.

(** A Go [error]: [nil], or an error with its message. *)
Definition error : Type := option string.

(** What the program can observe and change: for every path the result of
    reading it (contents, or the message of the error), for every path
    whether it can be written (or the message of the error), and the lines
    printed on standard output, oldest first.  A failed write changes
    nothing. *)
Record World : Type := mkWorld {
  files : string -> string + string;
  unwritable : string -> option string;
  stdout : list string
}.

(** [ioutil.ReadFile(path)] *)
Definition ReadFile (path : string) (w : World) : string * error :=
  match files w path with
  | inl data => (data, None)
  | inr msg => (EmptyString, Some msg)
  end.

(** [ioutil.WriteFile(path, data, 0644)] *)
Definition WriteFile (path data : string) (w : World) : error * World :=
  match unwritable w path with
  | Some msg => (Some msg, w)
  | None =>
      (None,
       mkWorld (fun p => if String.eqb p path then inl data else files w p)
               (unwritable w) (stdout w))
  end.

(** [fmt.Printf(format, args...)] *)
Definition Printf (format : string) (args : list string) (w : World) : World :=
  mkWorld (files w) (unwritable w) (stdout w ++ [fmt.Sprintf format args]).

(** [fmt.Println(line)] *)
Definition Println (line : string) (w : World) : World :=
  mkWorld (files w) (unwritable w) (stdout w ++ [line ++ String "010" EmptyString]).

End os.

(** ** [main.go] *)

Import strings regexp.

(** The double quote. *)
Definition dq : string := String (ascii_of_nat 34) EmptyString.

(** [linkRegex], compiled from the pattern
    [(?m)([^!])\[([^\]]* )\]\(([^)]+)\)]
    (a blank is added here after the star, for the comment syntax). *)
Definition linkRegex : Regexp :=
  (Capture (Char (NotLit "!")) ;; Char (Lit "[") ;;
   Capture (Star (NotLit "]")) ;; Char (Lit "]") ;; Char (Lit "(") ;;
   Capture (Plus (NotLit ")")) ;; Char (Lit ")"))%re.

(** [startLinkRegex], compiled from [(?m)^\[([^\]]* )\]\(([^)]+)\)]. *)
Definition startLinkRegex : Regexp :=
  (BeginLine ;; Char (Lit "[") ;;
   Capture (Star (NotLit "]")) ;; Char (Lit "]") ;; Char (Lit "(") ;;
   Capture (Plus (NotLit ")")) ;; Char (Lit ")"))%re.

(** [imgRegex], compiled from [!\[([^\]]* )\]\(([^)]+)\)]. *)
Definition imgRegex : Regexp :=
  (Char (Lit "!") ;; Char (Lit "[") ;;
   Capture (Star (NotLit "]")) ;; Char (Lit "]") ;; Char (Lit "(") ;;
   Capture (Plus (NotLit ")")) ;; Char (Lit ")"))%re.

(** The test both link callbacks make before anything else: the target is
    an HTTP or HTTPS URL, or an anchor. *)
Definition skipLink (linkURL : string) : bool :=
  HasPrefix linkURL "http://" || HasPrefix linkURL "https://" ||
  HasPrefix linkURL "#".

(** The test of the image callback: the target is already a URL or a data
    URI. *)
Definition skipImage (imgPath : string) : bool :=
  HasPrefix imgPath "http://" || HasPrefix imgPath "https://" ||
  HasPrefix imgPath "data:".

(** The function literal passed to [linkRegex.ReplaceAllStringFunc]. *)
Definition linkFunc (match_ : string) : string :=
  let parts := FindStringSubmatch linkRegex match_ in
  if Nat.ltb (List.length parts) 4 then match_
  else
    let prefix := nth 1 parts EmptyString in
    let linkText := nth 2 parts EmptyString in
    let linkURL := nth 3 parts EmptyString in
    if skipLink linkURL then match_
    else
      let linkURL :=
        if HasSuffix linkURL ".md"
        then TrimSuffix linkURL ".md" ++ ".html"
        else linkURL in
      fmt.Sprintf "%s[%s](%s)" [prefix; linkText; linkURL].

(** The function literal passed to [startLinkRegex.ReplaceAllStringFunc]. *)
Definition startLinkFunc (match_ : string) : string :=
  let parts := FindStringSubmatch startLinkRegex match_ in
  if Nat.ltb (List.length parts) 3 then match_
  else
    let linkText := nth 1 parts EmptyString in
    let linkURL := nth 2 parts EmptyString in
    if skipLink linkURL then match_
    else
      let linkURL :=
        if HasSuffix linkURL ".md"
        then TrimSuffix linkURL ".md" ++ ".html"
        else linkURL in
      fmt.Sprintf "[%s](%s)" [linkText; linkURL].

(** [rewriteMarkdownLinks(mdContent)] *)
Definition rewriteMarkdownLinks (mdContent : string) : string :=
  let result := ReplaceAllStringFunc linkRegex mdContent linkFunc in
  let result := ReplaceAllStringFunc startLinkRegex result startLinkFunc in
  result.

(** The table of [getMimeType]. *)
Definition mimeTypes : list (string * string) :=
  [ (".jpg", "image/jpeg");
    (".jpeg", "image/jpeg");
    (".png", "image/png");
    (".gif", "image/gif");
    (".bmp", "image/bmp");
    (".webp", "image/webp");
    (".svg", "image/svg+xml");
    (".ico", "image/x-icon") ].

(** Lookup in a Go map given by its literal (the keys are distinct). *)
Fixpoint mapLookup (m : list (string * string)) (key : string) : option string :=
  match m with
  | [] => None
  | (k, v) :: m' => if String.eqb k key then Some v else mapLookup m' key
  end.

(** [getMimeType(filename)] *)
Definition getMimeType (filename : string) : string :=
  let ext := ToLower (filepath.Ext filename) in
  match mapLookup mimeTypes ext with
  | Some mime => mime
  | None => "image/png"
  end.

(** Format string of [createHTMLDocument], from the start of the document to the opening of [<title>]. *)
Definition tmplToTitle : string :=
  "<!DOCTYPE html>
<html lang=" ++ dq ++
  "en" ++ dq ++
  ">
<head>
    <meta charset=" ++ dq ++
  "UTF-8" ++ dq ++
  ">
    <meta name=" ++ dq ++
  "viewport" ++ dq ++
  " content=" ++ dq ++
  "width=device-width, initial-scale=1.0" ++ dq ++
  ">
    <title>".

(** Format string of [createHTMLDocument], from the closing of [<title>] to the [family] parameter of the font link. *)
Definition tmplToFontURL : string :=
  "</title>
    <link rel=" ++ dq ++
  "preconnect" ++ dq ++
  " href=" ++ dq ++
  "https://fonts.googleapis.com" ++ dq ++
  ">
    <link rel=" ++ dq ++
  "preconnect" ++ dq ++
  " href=" ++ dq ++
  "https://fonts.gstatic.com" ++ dq ++
  " crossorigin>
    <link href=" ++ dq ++
  "https://fonts.googleapis.com/css2?family=".

(** Format string of [createHTMLDocument], from the weights of the font link to the [font-family] of the body rule. *)
Definition tmplToFontFamily : string :=
  ":wght@300;400;600;700&display=swap" ++ dq ++
  " rel=" ++ dq ++
  "stylesheet" ++ dq ++
  ">
    <style>
        * {
            margin: 0;
            padding: 0;
            box-sizing: border-box;
        }
        
        body {
            font-family: '".

(** Format string of [createHTMLDocument], the rest of the style sheet, up to the opening of [<body>]. *)
Definition tmplToBody : string :=
  "', sans-serif;
            line-height: 1.6;
            color: #333;
            max-width: 800px;
            margin: 0 auto;
            padding: 2rem;
            background-color: #f9f9f9;
        }
        
        h1, h2, h3, h4, h5, h6 {
            margin-top: 1.5rem;
            margin-bottom: 1rem;
            font-weight: 600;
            line-height: 1.3;
        }
        
        h1 { font-size: 2.5rem; border-bottom: 2px solid #e0e0e0; padding-bottom: 0.5rem; }
        h2 { font-size: 2rem; border-bottom: 1px solid #e0e0e0; padding-bottom: 0.3rem; }
        h3 { font-size: 1.5rem; }
        h4 { font-size: 1.25rem; }
        h5 { font-size: 1.1rem; }
        h6 { font-size: 1rem; }
        
        p {
            margin-bottom: 1rem;
        }
        
        a {
            color: #0066cc;
            text-decoration: none;
        }
        
        a:hover {
            text-decoration: underline;
        }
        
        img {
            max-width: 100%%;
            height: auto;
            display: block;
            margin: 1.5rem auto;
            border-radius: 4px;
            box-shadow: 0 2px 8px rgba(0,0,0,0.1);
        }
        
        code {
            background-color: #f4f4f4;
            padding: 0.2rem 0.4rem;
            border-radius: 3px;
            font-family: 'Courier New', monospace;
            font-size: 0.9em;
        }
        
        pre {
            background-color: #f4f4f4;
            padding: 1rem;
            border-radius: 4px;
            overflow-x: auto;
            margin-bottom: 1rem;
        }
        
        pre code {
            background-color: transparent;
            padding: 0;
        }
        
        blockquote {
            border-left: 4px solid #0066cc;
            padding-left: 1rem;
            margin: 1rem 0;
            color: #666;
            font-style: italic;
        }
        
        ul, ol {
            margin-bottom: 1rem;
            padding-left: 2rem;
        }
        
        li {
            margin-bottom: 0.5rem;
        }
        
        table {
            border-collapse: collapse;
            width: 100%%;
            margin-bottom: 1rem;
        }
        
        th, td {
            border: 1px solid #ddd;
            padding: 0.75rem;
            text-align: left;
        }
        
        th {
            background-color: #f4f4f4;
            font-weight: 600;
        }
        
        hr {
            border: none;
            border-top: 2px solid #e0e0e0;
            margin: 2rem 0;
        }
    </style>
</head>
<body>
".

(** Format string of [createHTMLDocument], the closing of [<body>] and of the document. *)
Definition tmplTail : string :=
  "
</body>
</html>".

(** The format string of [createHTMLDocument]. *)
Definition htmlTemplate : string :=
  tmplToTitle ++ "%s" ++ tmplToFontURL ++ "%s" ++ tmplToFontFamily ++ "%s" ++
  tmplToBody ++ "%s" ++ tmplTail.

(** [createHTMLDocument(body, fontFamily, title)] *)
Definition createHTMLDocument (body fontFamily title : string) : string :=
  let fontURL := ReplaceAll fontFamily " " "+" in
  fmt.Sprintf htmlTemplate [title; fontURL; fontFamily; body].

Section Program.

(** The renderer of [github.com/gomarkdown/markdown] with the extensions and
    flags of [convertMarkdownToHTML], and [filepath.Dir] and [filepath.Join],
    are outside the program. *)
Variable render : string -> string.
Variable Dir : string -> string.
Variable Join : string -> string -> string.

(** The function literal passed to [imgRegex.ReplaceAllStringFunc]. *)
Definition imgFunc (baseDir : string) (match_ : string) (w : os.World)
  : string * os.World :=
  let parts := FindStringSubmatch imgRegex match_ in
  if Nat.ltb (List.length parts) 3 then (match_, w)
  else
    let altText := nth 1 parts EmptyString in
    let imgPath := nth 2 parts EmptyString in
    if skipImage imgPath then (match_, w)
    else
      let fullPath := Join baseDir imgPath in
      match os.ReadFile fullPath w with
      | (_, Some err) =>
          (match_,
           os.Printf ("Warning: Could not read image %s: %v" ++ String "010" EmptyString)
             [imgPath; err] w)
      | (imgData, None) =>
          let mimeType := getMimeType imgPath in
          let base64Data := base64.EncodeToString imgData in
          let dataURI := fmt.Sprintf "data:%s;base64,%s" [mimeType; base64Data] in
          (fmt.Sprintf "![%s](%s)" [altText; dataURI], w)
      end.

(** [embedImages(mdContent, baseDir)] *)
Definition embedImages (mdContent baseDir : string) (w : os.World)
  : (string * os.error) * os.World :=
  let '(result, w1) :=
    ReplaceAllStringFuncM imgRegex mdContent (imgFunc baseDir) w in
  ((result, None), w1).

(** [convertMarkdownToHTML(inputFile, outputFile, fontFamily, title)] *)
Definition convertMarkdownToHTML (inputFile outputFile fontFamily title : string)
    (w : os.World) : os.error * os.World :=
  match os.ReadFile inputFile w with
  | (_, Some err) =>
      (Some (fmt.Sprintf "failed to read input file: %w" [err]), w)
  | (mdContent, None) =>
      let inputDir := Dir inputFile in
      let processedContent := rewriteMarkdownLinks mdContent in
      match embedImages processedContent inputDir w with
      | ((_, Some err), w1) =>
          (Some (fmt.Sprintf "failed to process images: %w" [err]), w1)
      | ((processedContent, None), w1) =>
          let htmlBody := render processedContent in
          let fullHTML := createHTMLDocument htmlBody fontFamily title in
          match os.WriteFile outputFile fullHTML w1 with
          | (Some err, w2) =>
              (Some (fmt.Sprintf "failed to write output file: %w" [err]), w2)
          | (None, w2) => (None, w2)
          end
      end
  end.

(** [main()], for the values [fontFamily] and [title] of the flags and the
    remaining arguments [args]; the result is the exit status. *)
Definition main (fontFamily title : string) (args : list string) (w : os.World)
  : Z * os.World :=
  match args with
  | [] =>
      let w := os.Println "Usage: md2html [--font <font-name>] [--title <title>] <input.md>" w in
      let w := os.Println "Example: md2html file.md" w in
      let w := os.Println "Example: md2html --font 'Roboto' file.md" w in
      let w := os.Println "Example: md2html --title 'My Document' file.md" w in
      (1%Z, w)
  | inputFile :: _ =>
      if negb (HasSuffix inputFile ".md") then
        (1%Z, os.Println "Error: Input file must have .md extension" w)
      else
        let outputFile := TrimSuffix inputFile ".md" ++ ".html" in
        match convertMarkdownToHTML inputFile outputFile fontFamily title w with
        | (Some err, w1) =>
            (1%Z, os.Printf ("Error: %v" ++ String "010" EmptyString) [err] w1)
        | (None, w1) =>
            (0%Z, os.Printf ("Successfully converted %s to %s" ++ String "010" EmptyString)
                    [inputFile; outputFile] w1)
        end
  end.

End Program.

(** ** Vocabulary of the statements *)

(** The byte [c] occurs in [s]. *)
Fixpoint occurs (c : ascii) (s : string) : bool :=
  match s with
  | EmptyString => false
  | String a s' => Ascii.eqb a c || occurs c s'
  end.

(** The last byte of [s], or [prev] when [s] is empty. *)
Fixpoint lastOr (prev : option ascii) (s : string) : option ascii :=
  match s with
  | EmptyString => prev
  | String a s' => lastOr (Some a) s'
  end.

(** The text of a link, [[text](target)]. *)
Definition LinkSpan (text target : string) : string :=
  "[" ++ text ++ "](" ++ target ++ ")".

(** The text of an image reference, [![alt](target)]. *)
Definition ImageSpan (alt target : string) : string :=
  String "!" (LinkSpan alt target).

(** A link text or alternative text the patterns accept: no [']']. *)
Definition okText (text : string) : Prop := occurs "]" text = false.

(** A target the patterns accept: at least one byte and no [')']. *)
Definition okTarget (target : string) : Prop :=
  target <> EmptyString /\ occurs ")" target = false.

(** What both link callbacks do with a target. *)
Definition rewriteTarget (linkURL : string) : string :=
  if skipLink linkURL then linkURL
  else if HasSuffix linkURL ".md" then TrimSuffix linkURL ".md" ++ ".html"
  else linkURL.

(** Every space of [s] replaced by a plus sign, all other bytes kept. *)
Fixpoint spacesToPlus (s : string) : string :=
  match s with
  | EmptyString => EmptyString
  | String c s' => String (if Ascii.eqb c " " then "+"%char else c) (spacesToPlus s')
  end.

(** A pure replacement function, as one that leaves the state alone. *)
Definition pureRepl (repl : string -> string) (m : string) (st : unit)
  : string * unit := (repl m, st).

(** The first pass of [rewriteMarkdownLinks]. *)
Definition linkPass (mdContent : string) : string :=
  ReplaceAllStringFunc linkRegex mdContent linkFunc.

(** The second pass of [rewriteMarkdownLinks]. *)
Definition startLinkPass (result : string) : string :=
  ReplaceAllStringFunc startLinkRegex result startLinkFunc.

(** The second pass from a position inside a text, [prev] being the byte
    before the position. *)
Definition startLinkPassFrom (prev : option ascii) (s : string) : string :=
  fst (replaceFrom startLinkRegex (pureRepl startLinkFunc) prev s tt).

(** The part the three patterns share: [\[([^\]]* )\]\(([^)]+)\)]. *)
Definition spanRe : Regexp :=
  (Char (Lit "[") ;; Capture (Star (NotLit "]")) ;; Char (Lit "]") ;;
   Char (Lit "(") ;; Capture (Plus (NotLit ")")) ;; Char (Lit ")"))%re.

(** A pattern that never matches the empty string. *)
Definition nonEmptyRe (re : Regexp) : Prop :=
  forall prev s m, matchHere re prev s = Some m -> m_text m <> EmptyString.

(** A pattern whose matches do not depend on the byte before them. *)
Definition contextFree (re : Regexp) : Prop :=
  forall p1 p2 s, matchHere re p1 s = matchHere re p2 s.

(** The files and what can be written are the same in both worlds. *)
Definition sameFiles (w w' : os.World) : Prop :=
  os.files w' = os.files w /\ os.unwritable w' = os.unwritable w.

(** ** Vocabulary of the further properties *)

(** The line [embedImages] prints for the target [p] when reading its file
    fails with the message [msg]. *)
Definition warningLine (p msg : string) : string :=
  "Warning: Could not read image " ++ p ++ ": " ++ msg ++ String "010" EmptyString.

(** The lines of [lines] are warnings about targets whose file, under
    [baseDir], cannot be read in [w]. *)
Definition warningsOf (Join : string -> string -> string) (baseDir : string)
    (w : os.World) (lines : list string) : Prop :=
  Forall (fun l => exists p msg,
            l = warningLine p msg /\ os.files w (Join baseDir p) = inr msg)
         lines.

(** [sub] occurs in [s] as a substring. *)
Fixpoint contains (sub s : string) : bool :=
  match s with
  | EmptyString => String.prefix sub EmptyString
  | String _ s' => String.prefix sub s || contains sub s'
  end.

(** Every byte of [s] passes the test [P]. *)
Fixpoint allChars (P : ascii -> bool) (s : string) : bool :=
  match s with
  | EmptyString => true
  | String c s' => P c && allChars P s'
  end.

(** A byte of the ASCII range. *)
Definition isASCII (c : ascii) : bool := Nat.ltb (nat_of_ascii c) 128.

(** A byte of the base64 alphabet, or the padding. *)
Definition base64Char (c : ascii) : bool :=
  occurs c base64.encodeStd || Ascii.eqb c base64.StdPadding.

(** What [embedImages] makes of the target [p] of an image reference: a
    target it skips and a target whose file cannot be read are kept, the
    other targets become data URIs. *)
Definition embedTarget (Join : string -> string -> string) (baseDir p : string)
    (w : os.World) : string :=
  if skipImage p then p
  else match os.files w (Join baseDir p) with
       | inl data =>
           "data:" ++ getMimeType p ++ ";base64," ++ base64.EncodeToString data
       | inr _ => p
       end.

(** What [embedImages] prints at an image reference with the target [p]. *)
Definition embedWarning (Join : string -> string -> string) (baseDir p : string)
    (w : os.World) : list string :=
  if skipImage p then []
  else match os.files w (Join baseDir p) with
       | inl _ => []
       | inr msg => [warningLine p msg]
       end.

(** The text made of image references [![alt](target)], each after a
    stretch of text [pre], and of a last stretch [tail]. *)
Fixpoint imagesText (items : list (string * string * string)) (tail : string)
  : string :=
  match items with
  | [] => tail
  | (pre, alt, target) :: items' =>
      pre ++ ImageSpan alt target ++ imagesText items' tail
  end.

(** [s'] is [s] with the targets of some image references replaced by what
    [embedTarget] makes of them. *)
Inductive Embedded (Join : string -> string -> string) (baseDir : string)
    (w : os.World) : string -> string -> Prop :=
| Embedded_nil : Embedded Join baseDir w EmptyString EmptyString
| Embedded_keep (c : ascii) (s s' : string) :
    Embedded Join baseDir w s s' ->
    Embedded Join baseDir w (String c s) (String c s')
| Embedded_image (alt p s s' : string) :
    okText alt -> okTarget p ->
    Embedded Join baseDir w s s' ->
    Embedded Join baseDir w (ImageSpan alt p ++ s)
      (ImageSpan alt (embedTarget Join baseDir p w) ++ s').

(** [s'] is [s] with some occurrences of [.md)] replaced by [.html)]. *)
Inductive MdToHtml : string -> string -> Prop :=
| MdToHtml_nil : MdToHtml EmptyString EmptyString
| MdToHtml_keep (c : ascii) (s s' : string) :
    MdToHtml s s' -> MdToHtml (String c s) (String c s')
| MdToHtml_md (s s' : string) :
    MdToHtml s s' -> MdToHtml (".md)" ++ s) (".html)" ++ s').

(** Every opening bracket of [s] comes directly after an exclamation mark;
    [prev] is the byte before [s]. *)
Fixpoint bracketsFollowBang (prev : option ascii) (s : string) : bool :=
  match s with
  | EmptyString => true
  | String c s' =>
      (negb (Ascii.eqb c "[") ||
       match prev with
       | Some p => Ascii.eqb p "!"
       | None => false
       end) && bracketsFollowBang (Some c) s'
  end.

(** The text made of links [[text](target)], each after a stretch of text
    [pre] and a byte [c], and of a last stretch [tail]. *)
Fixpoint linksText (items : list (string * ascii * string * string))
    (tail : string) : string :=
  match items with
  | [] => tail
  | (pre, c, text, target) :: items' =>
      pre ++ String c (LinkSpan text target) ++ linksText items' tail
  end.

(** A link the patterns accept that has no opening bracket but its own. *)
Definition plainLink (text target : string) : Prop :=
  okText text /\ okTarget target /\
  occurs "[" text = false /\ occurs "[" target = false.

(** A link of [linksText] that stands apart: in the stretch before it every
    opening bracket follows an exclamation mark, and the byte before it is
    neither an exclamation mark nor an opening bracket. *)
Definition separateLink (item : string * ascii * string * string) : Prop :=
  let '(pre, c, text, target) := item in
  bracketsFollowBang None pre = true /\ c <> "!"%char /\ c <> "["%char /\
  plainLink text target.

(** The links of [items] with their targets rewritten. *)
Definition rewriteItems (items : list (string * ascii * string * string))
  : list (string * ascii * string * string) :=
  map (fun '(pre, c, text, target) => (pre, c, text, rewriteTarget target)) items.

(** An image reference of [imagesText] in a text where [![] only begins
    image references. *)
Definition separateImage (item : string * string * string) : Prop :=
  let '(pre, alt, target) := item in
  contains "![" pre = false /\ okText alt /\ okTarget target.

(** ** Vocabulary of the MIME types

    The words of the claim about MIME types, independent of the functions of
    the program. *)

(** The bytes of the capital I with a dot, U+0130, and of the Kelvin sign,
    U+212A, in UTF-8. *)
Definition dottedI : string := String "196" (String "176" EmptyString).

Definition kelvin : string :=
  String "226" (String "132" (String "170" EmptyString)).

(** The upper-case form of an ASCII letter. *)
Definition upperByte (c : ascii) : ascii :=
  let n := nat_of_ascii c in
  if Nat.leb 97 n && Nat.leb n 122 then ascii_of_nat (n - 32) else c.

(** An ASCII byte that is no upper-case letter. *)
Definition plainByte (c : ascii) : bool :=
  let n := nat_of_ascii c in
  Nat.ltb n 128 && negb (Nat.leb 65 n && Nat.leb n 90).

(** The text [e] is the word [name], itself of lower-case letters, up to
    the case of the letters: each letter of [name] stands in [e] as it is
    or as its capital, where the capital I with a dot (U+0130, the bytes
    C4 B0) counts as a capital of [i] and the Kelvin sign (U+212A, the
    bytes E2 84 AA) as a capital of [k]. *)
Fixpoint anyCase (e name : string) : bool :=
  match name with
  | EmptyString =>
      match e with
      | EmptyString => true
      | _ => false
      end
  | String c name' =>
      match e with
      | EmptyString => false
      | String b e1 =>
          ((Ascii.eqb b c || Ascii.eqb b (upperByte c)) && anyCase e1 name') ||
          match e1 with
          | EmptyString => false
          | String b1 e2 =>
              (Ascii.eqb c "i" && Ascii.eqb b "196" && Ascii.eqb b1 "176" &&
               anyCase e2 name') ||
              match e2 with
              | EmptyString => false
              | String b2 e3 =>
                  Ascii.eqb c "k" && Ascii.eqb b "226" && Ascii.eqb b1 "132" &&
                  Ascii.eqb b2 "170" && anyCase e3 name'
              end
          end
      end
  end.

(** No image reference starts inside [pre] when the text [s] follows it:
    the pattern of the embedder matches at no position of [pre], so that
    the scan of the embedder, started before [pre], comes to [s]. *)
Fixpoint noImageStart (pre s : string) : bool :=
  match pre with
  | EmptyString => true
  | String x b =>
      match matchHere imgRegex None (String x b ++ s) with
      | Some _ => false
      | None => noImageStart b s
      end
  end.

(** ** Auxiliary definitions of the proofs about characters *)

Section CharacterChecks.

Local Open Scope Z_scope.

(** The integers from [lo] on, [n] of them. *)
Definition range (lo : Z) (n : nat) : list Z :=
  map (fun i => lo + Z.of_nat i) (seq 0 n).

(** The values the decoder builds from two, three and four bytes. *)
Definition dec2 (s0 s1 : Z) : Z :=
  Z.lor (Z.shiftl (Z.land s0 utf8.mask2) 6) (Z.land s1 utf8.maskx).

Definition dec3 (s0 s1 s2 : Z) : Z :=
  Z.lor (Z.lor (Z.shiftl (Z.land s0 utf8.mask3) 12)
               (Z.shiftl (Z.land s1 utf8.maskx) 6))
        (Z.land s2 utf8.maskx).

Definition dec4 (s0 s1 s2 s3 : Z) : Z :=
  Z.lor (Z.lor (Z.lor (Z.shiftl (Z.land s0 utf8.mask4) 18)
                      (Z.shiftl (Z.land s1 utf8.maskx) 12))
               (Z.shiftl (Z.land s2 utf8.maskx) 6))
        (Z.land s3 utf8.maskx).

(** What is to be checked of the characters of two, three and four bytes,
    for all values of their bytes. *)
Definition check2 (s0 s1 : Z) : bool :=
  (128 <=? dec2 s0 s1) &&
  implb (dec2 s0 s1 =? 0x130) ((s0 =? 0xC4) && (s1 =? 0xB0)) &&
  negb (dec2 s0 s1 =? 0x212A).

Definition check3 (s0 s1 s2 : Z) : bool :=
  implb (implb (s0 =? 0xE0) (0xA0 <=? s1))
    ((128 <=? dec3 s0 s1 s2) &&
     negb (dec3 s0 s1 s2 =? 0x130) &&
     implb (dec3 s0 s1 s2 =? 0x212A)
           ((s0 =? 0xE2) && (s1 =? 0x84) && (s2 =? 0xAA))).

Definition check4 (s0 s1 : Z) : bool :=
  implb (implb (s0 =? 0xF0) (0x90 <=? s1))
    (0x10000 <=? Z.lor (Z.shiftl (Z.land s0 utf8.mask4) 18)
                       (Z.shiftl (Z.land s1 utf8.maskx) 12)).

(** A range of [unicode.CaseRanges] whose lower-case letters lie outside
    ASCII, or one of the two ranges with a single character whose lower
    case is an ASCII letter, or a range inside ASCII. *)
Definition lowerOutsideASCII (cr : Z * Z * Z) : bool :=
  let '(lo, hi, delta) := cr in
  (hi <? 128) ||
  (if unicode.MaxRune <? delta then 128 <=? lo
   else (128 <=? lo + delta) ||
        ((lo =? hi) &&
         (((lo =? 0x130) && (delta =? -199)) ||
          ((lo =? 0x212A) && (delta =? -8383))))).

(** The comparison of an ASCII byte with a lower-case byte, up to case. *)
Definition foldCheck (nb nc : nat) : bool :=
  let b := ascii_of_nat nb in
  let c := ascii_of_nat nc in
  implb (plainByte c)
    (Bool.eqb (Ascii.eqb (lowerByte b) c)
              (Ascii.eqb b c || Ascii.eqb b (upperByte c)) &&
     Nat.ltb (nat_of_ascii (upperByte c)) 128).

End CharacterChecks.

(** ** A sample environment, for the examples

    The directory [docs] holds [logo.png] and [guide.md]; nothing else can
    be read, and everything can be written. *)

Definition sampleJoin (dir name : string) : string := dir ++ "/" ++ name.

Definition sampleDir (path : string) : string := "docs".

Definition sampleRender (md : string) : string := md.

Definition sampleWorld : os.World :=
  os.mkWorld
    (fun path =>
       if String.eqb path "docs/logo.png" then inl "PNGDATA"
       else if String.eqb path "docs/guide.md"
            then inl "See ![Logo](logo.png) and ![Chart](chart.png)."
            else inr "no such file or directory")
    (fun _ => None)
    [].

(** The same files, none of which can be written. *)
Definition sampleLocked : os.World :=
  os.mkWorld (os.files sampleWorld) (fun _ => Some "permission denied") [].

(** A directory with the single file [notes.md], which has no bracket. *)
Definition samplePlain : os.World :=
  os.mkWorld
    (fun path =>
       if String.eqb path "notes.md" then inl "Plain text, no links!"
       else inr "no such file or directory")
    (fun _ => None)
    [].

(** The directory [docs] with the single photograph [Photo.JPG]. *)
Definition sampleGallery : os.World :=
  os.mkWorld
    (fun path =>
       if String.eqb path "docs/Photo.JPG" then inl "JFIF"
       else inr "no such file or directory")
    (fun _ => None)
    [].

(** An empty directory. *)
Definition sampleEmpty : os.World :=
  os.mkWorld (fun _ => inr "no such file or directory") (fun _ => None) [].

(** * Facts about strings *)

Lemma append_nil_r (s : string) : s ++ EmptyString = s.
Proof. induction s as [|a s IH]; simpl; [reflexivity | now rewrite IH]. Qed.

Lemma append_assoc (a b c : string) : (a ++ b) ++ c = a ++ (b ++ c).
Proof. induction a as [|x a IH]; simpl; [reflexivity | now rewrite IH]. Qed.

Lemma length_append (a b : string) :
  String.length (a ++ b) = String.length a + String.length b.
Proof. induction a as [|x a IH]; simpl; [reflexivity | now rewrite IH]. Qed.

Lemma append_inv_head (a b c : string) : a ++ b = a ++ c -> b = c.
Proof.
  induction a as [|x a IH]; simpl; intros H; [exact H | ].
  injection H as H. now apply IH.
Qed.

Lemma substring_0_length (s : string) : substring 0 (String.length s) s = s.
Proof. induction s as [|a s IH]; simpl; [reflexivity | now rewrite IH]. Qed.

Lemma substring_0_app (a b : string) :
  substring 0 (String.length a) (a ++ b) = a.
Proof.
  induction a as [|x a IH]; simpl.
  - now destruct b.
  - now rewrite IH.
Qed.

Lemma substring_skip_app (a b : string) (n : nat) :
  substring (String.length a) n (a ++ b) = substring 0 n b.
Proof. induction a as [|x a IH]; simpl; [reflexivity | exact IH]. Qed.

Lemma consumed_app (a b : string) : consumed (a ++ b) b = a.
Proof.
  unfold consumed. rewrite length_append.
  replace (String.length a + String.length b - String.length b)
    with (String.length a) by lia.
  apply substring_0_app.
Qed.

Lemma consumed_all (s : string) : consumed s EmptyString = s.
Proof.
  rewrite <- (append_nil_r s) at 1. apply consumed_app.
Qed.

Lemma prefix_app (p s : string) : String.prefix p (p ++ s) = true.
Proof.
  induction p as [|x p IH]; simpl; [now destruct s | ].
  destruct (ascii_dec x x) as [_|N]; [exact IH | now elim N].
Qed.

Lemma prefix_inv (p s : string) :
  String.prefix p s = true -> exists r, s = p ++ r.
Proof.
  revert s; induction p as [|x p IH]; intros s H.
  - now exists s.
  - destruct s as [|y s]; simpl in H; [discriminate | ].
    destruct (ascii_dec x y) as [->|_]; [ | discriminate].
    destruct (IH s H) as [r ->]. now exists r.
Qed.

Lemma HasSuffix_app (v suffix : string) : HasSuffix (v ++ suffix) suffix = true.
Proof.
  unfold HasSuffix. rewrite length_append.
  replace (String.length v + String.length suffix - String.length suffix)
    with (String.length v) by lia.
  rewrite substring_skip_app, substring_0_length, String.eqb_refl.
  rewrite andb_true_r. apply Nat.leb_le. lia.
Qed.

Lemma TrimSuffix_app (v suffix : string) : TrimSuffix (v ++ suffix) suffix = v.
Proof.
  unfold TrimSuffix. rewrite HasSuffix_app, length_append.
  replace (String.length v + String.length suffix - String.length suffix)
    with (String.length v) by lia.
  apply substring_0_app.
Qed.

Lemma substring_split (s : string) (n : nat) :
  n <= String.length s ->
  s = substring 0 n s ++ substring n (String.length s - n) s.
Proof.
  revert n; induction s as [|a s IH]; intros n Hn.
  - destruct n; reflexivity.
  - destruct n as [|n]; simpl.
    + now rewrite substring_0_length.
    + simpl in Hn. rewrite <- IH by lia. reflexivity.
Qed.

Lemma HasSuffix_inv (s suffix : string) :
  HasSuffix s suffix = true -> s = TrimSuffix s suffix ++ suffix.
Proof.
  intros H. unfold TrimSuffix. rewrite H.
  unfold HasSuffix in H. apply andb_true_iff in H as [Hl He].
  apply Nat.leb_le in Hl. apply String.eqb_eq in He.
  rewrite (substring_split s (String.length s - String.length suffix)) at 1
    by lia.
  f_equal.
  replace (String.length s - (String.length s - String.length suffix))
    with (String.length suffix) by lia.
  exact He.
Qed.

Lemma occurs_app (c : ascii) (a b : string) :
  occurs c (a ++ b) = occurs c a || occurs c b.
Proof.
  induction a as [|x a IH]; simpl; [reflexivity | ].
  now rewrite IH, orb_assoc.
Qed.

Lemma lastOr_app (prev : option ascii) (a b : string) :
  lastOr prev (a ++ b) = lastOr (lastOr prev a) b.
Proof. revert prev; induction a as [|x a IH]; intros; simpl; auto. Qed.

(** Splitting a string at the first occurrence of a byte is unique. *)
Lemma first_occurrence_unique (c : ascii) (a a' b b' : string) :
  occurs c a = false -> occurs c a' = false ->
  a ++ String c b = a' ++ String c b' -> a = a' /\ b = b'.
Proof.
  revert a'; induction a as [|x a IH]; intros a' Ha Ha' E.
  - destruct a' as [|y a']; simpl in *.
    + injection E as E. now split.
    + injection E as E1 E2. subst y.
      rewrite Ascii.eqb_refl in Ha'. discriminate.
  - destruct a' as [|y a']; simpl in *.
    + injection E as E1 E2. subst x.
      rewrite Ascii.eqb_refl in Ha. discriminate.
    + injection E as E1 E2. subst y.
      apply orb_false_iff in Ha as [_ Ha].
      apply orb_false_iff in Ha' as [_ Ha'].
      destruct (IH a' Ha Ha' E2) as [-> ->]. now split.
Qed.

(** * Facts about the matcher *)

Section Star.

Context {R : Type}.
Variable c : ascii.
Variable k : option ascii -> string -> option R.

(** A repetition that succeeds has consumed some bytes of its class and
    continued from there. *)
Lemma star_elim (prev : option ascii) (s : string) (x : R) :
  star (NotLit c) k prev s = Some x ->
  exists t r, s = t ++ r /\ occurs c t = false /\ k (lastOr prev t) r = Some x.
Proof.
  revert prev; induction s as [|a s IH]; intros prev H; cbn [star] in H.
  - exists EmptyString, EmptyString. auto.
  - destruct (inSet (NotLit c) a) eqn:Ea.
    + destruct (star (NotLit c) k (Some a) s) as [y|] eqn:Es.
      * injection H as <-.
        destruct (IH _ Es) as (t & r & -> & Ht & Hk).
        exists (String a t), r. cbn. cbn in Ea.
        apply negb_true_iff in Ea. rewrite Ea, Ht. auto.
      * exists EmptyString, (String a s). auto.
    + exists EmptyString, (String a s). auto.
Qed.

(** A repetition followed by a byte outside its class, or by the end of
    the text, consumes everything before it. *)
Lemma star_intro (prev : option ascii) (t r : string) (x : R) :
  occurs c t = false ->
  (r = EmptyString \/ exists r', r = String c r') ->
  k (lastOr prev t) r = Some x ->
  star (NotLit c) k prev (t ++ r) = Some x.
Proof.
  revert prev; induction t as [|a t IH]; intros prev Ht Hr Hk; cbn in *.
  - destruct Hr as [-> | [r' ->]]; cbn [star]; [exact Hk | ].
    cbn. rewrite Ascii.eqb_refl. exact Hk.
  - apply orb_false_iff in Ht as [Ea Ht].
    rewrite Ea. cbn. now rewrite (IH (Some a) Ht Hr Hk).
Qed.

End Star.

Lemma LinkSpan_app (t u rest : string) :
  LinkSpan t u ++ rest =
  String "[" (t ++ String "]" (String "(" (u ++ String ")" rest))).
Proof.
  unfold LinkSpan. cbn. f_equal. rewrite append_assoc. f_equal. cbn.
  do 2 f_equal. now rewrite append_assoc.
Qed.

Lemma LinkSpan_eq (t u : string) :
  LinkSpan t u =
  String "[" (t ++ String "]" (String "(" (u ++ String ")" EmptyString))).
Proof. reflexivity. Qed.

Lemma okTarget_head (u : string) :
  okTarget u ->
  exists a u', u = String a u' /\ Ascii.eqb a ")" = false /\
               occurs ")" u' = false.
Proof.
  intros [Hne Hoc]. destruct u as [|a u']; [now elim Hne | ].
  cbn in Hoc. apply orb_false_iff in Hoc as [Ha Hu].
  now exists a, u'.
Qed.

Section SpanRe.

Context {R : Type}.
Variable k : Thread -> option R.

Lemma spanRe_intro (prev : option ascii) (t u rest : string)
    (caps : list string) (x : R) :
  okText t -> okTarget u ->
  k (mkThread (Some ")"%char) rest ((caps ++ [t]) ++ [u])) = Some x ->
  run spanRe prev (LinkSpan t u ++ rest) caps k = Some x.
Proof.
  intros Ht Hu Hk. rewrite LinkSpan_app. unfold spanRe.
  destruct (okTarget_head u Hu) as (a & u' & -> & Ha & Hu').
  cbn [run inSet t_prev t_rest t_caps]. rewrite Ascii.eqb_refl.
  cbn [t_prev t_rest t_caps].
  apply star_intro; [exact Ht | right; eexists; reflexivity | ].
  cbn [t_prev t_rest t_caps]. rewrite consumed_app.
  rewrite !Ascii.eqb_refl. cbn [append]. rewrite Ha. cbn [negb].
  apply star_intro; [exact Hu' | right; eexists; reflexivity | ].
  cbn [t_prev t_rest t_caps]. rewrite Ascii.eqb_refl.
  change (String a (u' ++ String ")" rest))
    with (String a u' ++ String ")" rest).
  rewrite consumed_app. exact Hk.
Qed.

Lemma spanRe_elim (prev : option ascii) (s : string)
    (caps : list string) (x : R) :
  run spanRe prev s caps k = Some x ->
  exists t u rest,
    okText t /\ okTarget u /\ s = LinkSpan t u ++ rest /\
    k (mkThread (Some ")"%char) rest ((caps ++ [t]) ++ [u])) = Some x.
Proof.
  intros H. unfold spanRe in H. cbn [run inSet t_prev t_rest t_caps] in H.
  destruct s as [|a0 s]; [discriminate | ].
  destruct (Ascii.eqb_spec a0 "["); [subst a0 | discriminate].
  cbn [t_prev t_rest t_caps] in H.
  apply star_elim in H as (t & r & -> & Ht & H).
  cbn [t_prev t_rest t_caps] in H. rewrite consumed_app in H.
  destruct r as [|a1 r]; [discriminate | ].
  destruct (Ascii.eqb_spec a1 "]"); [subst a1 | discriminate].
  destruct r as [|a2 r]; [discriminate | ].
  destruct (Ascii.eqb_spec a2 "("); [subst a2 | discriminate].
  destruct r as [|a3 r]; [discriminate | ].
  destruct (Ascii.eqb a3 ")") eqn:E3; [discriminate | ].
  cbn [negb] in H.
  apply star_elim in H as (u' & r' & -> & Hu' & H).
  cbn [t_prev t_rest t_caps] in H.
  destruct r' as [|a4 rest]; [discriminate | ].
  destruct (Ascii.eqb_spec a4 ")"); [subst a4 | discriminate].
  change (String a3 (u' ++ String ")" rest))
    with (String a3 u' ++ String ")" rest) in H.
  rewrite consumed_app in H.
  exists t, (String a3 u'), rest. repeat split.
  - exact Ht.
  - discriminate.
  - cbn. now rewrite E3, Hu'.
  - now rewrite LinkSpan_app.
  - exact H.
Qed.

End SpanRe.

(** ** What a match consumes *)

Lemma star_suffix {R : Type} (cs : CharSet)
    (k : option ascii -> string -> option R)
    (prev : option ascii) (s : string) (x : R) :
  star cs k prev s = Some x ->
  exists p pre r, s = pre ++ r /\ k p r = Some x.
Proof.
  revert prev; induction s as [|a s IH]; intros prev H; cbn [star] in H.
  - now exists prev, EmptyString, EmptyString.
  - destruct (inSet cs a).
    + destruct (star cs k (Some a) s) as [y|] eqn:Es.
      * injection H as <-.
        destruct (IH _ Es) as (p & pre & r & -> & Hk).
        now exists p, (String a pre), r.
      * now exists prev, EmptyString, (String a s).
    + now exists prev, EmptyString, (String a s).
Qed.

(** A successful run hands its continuation a suffix of the text. *)
Lemma run_suffix {R : Type} (r : Regexp) :
  forall (prev : option ascii) (s : string) (caps : list string)
         (k : Thread -> option R) (x : R),
    run r prev s caps k = Some x ->
    exists th pre, s = pre ++ t_rest th /\ k th = Some x.
Proof.
  induction r as [cs|cs|cs|r1 IH1 r2 IH2|r1 IH1| ];
    intros prev s caps k x H; cbn [run] in H.
  - destruct s as [|a s]; [discriminate | ].
    destruct (inSet cs a); [ | discriminate].
    now exists (mkThread (Some a) s caps), (String a EmptyString).
  - apply star_suffix in H as (p & pre & r & -> & Hk).
    now exists (mkThread p r caps), pre.
  - destruct s as [|a s]; [discriminate | ].
    destruct (inSet cs a); [ | discriminate].
    apply star_suffix in H as (p & pre & r & -> & Hk).
    now exists (mkThread p r caps), (String a pre).
  - apply IH1 in H as (th1 & pre1 & -> & H).
    apply IH2 in H as (th2 & pre2 & E & H).
    exists th2, (pre1 ++ pre2). split; [ | exact H].
    now rewrite E, append_assoc.
  - apply IH1 in H as (th1 & pre1 & -> & H).
    eexists _, pre1. split; [ | exact H]. reflexivity.
  - destruct (atLineStart prev); [ | discriminate].
    now exists (mkThread prev s caps), EmptyString.
Qed.

(** A match and the text after it make up the text it was found in. *)
Lemma matchHere_split (re : Regexp) (prev : option ascii) (s : string)
    (m : Match) :
  matchHere re prev s = Some m -> s = m_text m ++ m_rest m.
Proof.
  unfold matchHere. intros H.
  apply run_suffix in H as (th & pre & E & H).
  injection H as <-. cbn. rewrite E at 2. now rewrite consumed_app.
Qed.

Lemma find_here (re : Regexp) (prev : option ascii) (s : string) (m : Match) :
  matchHere re prev s = Some m -> find re prev s = Some (EmptyString, m).
Proof. intros H. destruct s; cbn [find]; now rewrite H. Qed.

Lemma find_skip (re : Regexp) (prev : option ascii) (a : ascii) (s : string) :
  matchHere re prev (String a s) = None ->
  find re prev (String a s) =
  match find re (Some a) s with
  | Some (before, m) => Some (String a before, m)
  | None => None
  end.
Proof. intros H. cbn [find]. now rewrite H. Qed.

(** The leftmost match is a match at the position where it was found. *)
Lemma find_matchHere (re : Regexp) (prev : option ascii) (s before : string)
    (m : Match) :
  find re prev s = Some (before, m) ->
  exists s', s = before ++ s' /\ matchHere re (lastOr prev before) s' = Some m.
Proof.
  revert prev before; induction s as [|a s IH]; intros prev before H;
    cbn [find] in H.
  - destruct (matchHere re prev EmptyString) as [m'|] eqn:E; [ | discriminate].
    injection H as <- <-. now exists EmptyString.
  - destruct (matchHere re prev (String a s)) as [m'|] eqn:E.
    + injection H as <- <-. now exists (String a s).
    + destruct (find re (Some a) s) as [[b m']|] eqn:F; [ | discriminate].
      injection H as <- <-.
      destruct (IH _ _ F) as (s' & -> & Hm). now exists s'.
Qed.

Lemma find_split (re : Regexp) (prev : option ascii) (s before : string)
    (m : Match) :
  find re prev s = Some (before, m) -> s = before ++ m_text m ++ m_rest m.
Proof.
  intros H. apply find_matchHere in H as (s' & -> & H).
  now rewrite (matchHere_split _ _ _ _ H) at 1.
Qed.

(** No match anywhere: nothing is found. *)
Lemma find_nowhere (re : Regexp) (prev : option ascii) (s : string) :
  (forall p b s', s = b ++ s' -> matchHere re p s' = None) ->
  find re prev s = None.
Proof.
  intros H. destruct (find re prev s) as [[b m]|] eqn:F; [ | reflexivity].
  apply find_matchHere in F as (s' & E & Hm).
  now rewrite (H _ _ _ E) in Hm.
Qed.

(** ** The replacement loop *)

Section ReplaceLoop.

Context {St : Type}.
Variable re : Regexp.
Variable repl : string -> St -> string * St.

Lemma replaceLoop_fuel (f1 : nat) :
  forall (f2 : nat) (prev : option ascii) (s : string) (atEnd : bool) (st : St),
    String.length s < f1 -> String.length s < f2 ->
    replaceLoop f1 re repl prev s atEnd st =
    replaceLoop f2 re repl prev s atEnd st.
Proof.
  induction f1 as [|f1 IH]; intros f2 prev s atEnd st H1 H2; [lia | ].
  destruct f2 as [|f2]; [lia | ]. cbn [replaceLoop].
  destruct (find re prev s) as [[before m]|] eqn:F; [ | reflexivity].
  pose proof (find_split _ _ _ _ _ F) as E.
  apply (f_equal String.length) in E. rewrite !length_append in E.
  destruct before as [|b before].
  - destruct (m_text m) as [|c txt] eqn:Et.
    + destruct (if atEnd then _ else _) as [r st1].
      destruct s as [|a s]; [reflexivity | ].
      cbn in H1, H2. now rewrite (IH f2) by lia.
    + destruct (repl _ st) as [r st1]. cbn in E.
      now rewrite (IH f2) by lia.
  - destruct (repl _ st) as [r st1]. cbn in E.
    now rewrite (IH f2) by lia.
Qed.

Hypothesis re_nonempty : nonEmptyRe re.

Lemma find_nonempty (prev : option ascii) (s before : string) (m : Match) :
  find re prev s = Some (before, m) -> exists c txt, m_text m = String c txt.
Proof.
  intros F. apply find_matchHere in F as (s' & _ & Hm).
  apply re_nonempty in Hm. destruct (m_text m) as [|c txt]; [now elim Hm | ].
  now exists c, txt.
Qed.

(** One iteration, for a pattern that never matches the empty string. *)
Lemma replaceLoop_step (fuel : nat) (prev : option ascii) (s : string)
    (atEnd : bool) (st : St) :
  replaceLoop (S fuel) re repl prev s atEnd st =
  match find re prev s with
  | None => (s, st)
  | Some (before, m) =>
      let '(r, st1) := repl (m_text m) st in
      let '(out, st2) :=
        replaceLoop fuel re repl (m_prev m) (m_rest m) true st1 in
      (before ++ r ++ out, st2)
  end.
Proof.
  cbn [replaceLoop].
  destruct (find re prev s) as [[before m]|] eqn:F; [ | reflexivity].
  destruct (find_nonempty _ _ _ _ F) as (c & txt & ->).
  now destruct before.
Qed.

Lemma replaceLoop_atEnd (fuel : nat) (prev : option ascii) (s : string)
    (atEnd : bool) (st : St) :
  replaceLoop fuel re repl prev s atEnd st =
  replaceLoop fuel re repl prev s false st.
Proof.
  destruct fuel as [|fuel]; [reflexivity | ]. now rewrite !replaceLoop_step.
Qed.

Lemma replaceFrom_none (prev : option ascii) (s : string) (st : St) :
  find re prev s = None -> replaceFrom re repl prev s st = (s, st).
Proof. intros F. unfold replaceFrom. cbn [replaceLoop]. now rewrite F. Qed.

Lemma replaceFrom_nil (prev : option ascii) (st : St) :
  replaceFrom re repl prev EmptyString st = (EmptyString, st).
Proof.
  apply replaceFrom_none. cbn [find].
  destruct (matchHere re prev EmptyString) as [m|] eqn:E; [ | reflexivity].
  pose proof (matchHere_split _ _ _ _ E) as Hs.
  apply re_nonempty in E. destruct (m_text m); [now elim E | discriminate].
Qed.

(** The loop continues after a match as a fresh loop would. *)
Lemma replaceLoop_rest (prev : option ascii) (s before : string) (m : Match)
    (st : St) :
  find re prev s = Some (before, m) ->
  replaceLoop (String.length s) re repl (m_prev m) (m_rest m) true st =
  replaceFrom re repl (m_prev m) (m_rest m) st.
Proof.
  intros F. unfold replaceFrom. rewrite replaceLoop_atEnd.
  destruct (find_nonempty _ _ _ _ F) as (c & txt & Et).
  apply find_split in F. apply (f_equal String.length) in F.
  rewrite !length_append, Et in F. cbn in F.
  apply replaceLoop_fuel; lia.
Qed.

(** A match at the current position is replaced, and the loop goes on
    after it. *)
Lemma replaceFrom_match (prev : option ascii) (s : string) (m : Match)
    (st : St) :
  matchHere re prev s = Some m ->
  replaceFrom re repl prev s st =
  let '(r, st1) := repl (m_text m) st in
  let '(out, st2) := replaceFrom re repl (m_prev m) (m_rest m) st1 in
  (r ++ out, st2).
Proof.
  intros H. apply find_here in H. unfold replaceFrom at 1.
  rewrite replaceLoop_step, H.
  destruct (repl (m_text m) st) as [r st1].
  now rewrite (replaceLoop_rest _ _ _ _ _ H).
Qed.

(** A position without a match is copied, and the loop goes on after it. *)
Lemma replaceFrom_skip (prev : option ascii) (a : ascii) (s : string)
    (st : St) :
  matchHere re prev (String a s) = None ->
  replaceFrom re repl prev (String a s) st =
  let '(out, st') := replaceFrom re repl (Some a) s st in
  (String a out, st').
Proof.
  intros H. unfold replaceFrom at 1. rewrite replaceLoop_step.
  pose proof (find_skip _ _ _ _ H) as F. rewrite F.
  unfold replaceFrom at 1. rewrite replaceLoop_step.
  destruct (find re (Some a) s) as [[before m]|] eqn:F'; [ | reflexivity].
  destruct (repl (m_text m) st) as [r st1].
  rewrite (replaceLoop_rest _ _ _ _ _ F).
  change (String.length (String a s)) with (S (String.length s)).
  rewrite (replaceLoop_rest _ _ _ _ _ F').
  now destruct (replaceFrom re repl (m_prev m) (m_rest m) st1).
Qed.

End ReplaceLoop.

Lemma find_context (re : Regexp) :
  contextFree re -> forall s p1 p2, find re p1 s = find re p2 s.
Proof.
  intros C s. induction s as [|a s IH]; intros p1 p2; cbn [find];
    now rewrite (C p1 p2).
Qed.

Lemma replaceFrom_context {St : Type} (re : Regexp)
    (repl : string -> St -> string * St) :
  contextFree re ->
  forall s p1 p2 st, replaceFrom re repl p1 s st = replaceFrom re repl p2 s st.
Proof.
  intros C s p1 p2 st. unfold replaceFrom. cbn [replaceLoop].
  now rewrite (find_context re C s p1 p2).
Qed.

(** ** The three patterns of the program *)

Lemma linkRegex_intro (prev : option ascii) (c : ascii) (t u rest : string) :
  c <> "!"%char -> okText t -> okTarget u ->
  matchHere linkRegex prev (String c (LinkSpan t u ++ rest)) =
  Some (mkMatch (String c (LinkSpan t u)) [String c EmptyString; t; u]
          (Some ")"%char) rest).
Proof.
  intros Hc Ht Hu. unfold matchHere.
  change linkRegex with (Capture (Char (NotLit "!")) ;; spanRe)%re.
  cbn [run inSet t_prev t_rest t_caps].
  destruct (Ascii.eqb_spec c "!"); [contradiction | ]. cbn [negb].
  apply spanRe_intro; [exact Ht | exact Hu | ].
  cbn [t_prev t_rest t_caps app].
  change (String c (LinkSpan t u ++ rest))
    with (String c EmptyString ++ LinkSpan t u ++ rest).
  rewrite consumed_app.
  change (String c EmptyString ++ LinkSpan t u ++ rest)
    with (String c (LinkSpan t u) ++ rest).
  now rewrite consumed_app.
Qed.

Lemma linkRegex_elim (prev : option ascii) (s : string) (m : Match) :
  matchHere linkRegex prev s = Some m ->
  exists c t u rest,
    c <> "!"%char /\ okText t /\ okTarget u /\
    s = String c (LinkSpan t u ++ rest) /\
    m = mkMatch (String c (LinkSpan t u)) [String c EmptyString; t; u]
          (Some ")"%char) rest.
Proof.
  unfold matchHere. intros H.
  change linkRegex with (Capture (Char (NotLit "!")) ;; spanRe)%re in H.
  cbn [run inSet t_prev t_rest t_caps] in H.
  destruct s as [|c s]; [discriminate | ].
  destruct (Ascii.eqb_spec c "!"); [discriminate | ]. cbn [negb] in H.
  apply spanRe_elim in H as (t & u & rest & Ht & Hu & -> & H).
  cbn [t_prev t_rest t_caps app] in H.
  change (String c (LinkSpan t u ++ rest))
    with (String c EmptyString ++ LinkSpan t u ++ rest) in H.
  rewrite consumed_app in H.
  change (String c EmptyString ++ LinkSpan t u ++ rest)
    with (String c (LinkSpan t u) ++ rest) in H.
  rewrite consumed_app in H. injection H as <-.
  now exists c, t, u, rest.
Qed.

Lemma startLinkRegex_intro (prev : option ascii) (t u rest : string) :
  atLineStart prev = true -> okText t -> okTarget u ->
  matchHere startLinkRegex prev (LinkSpan t u ++ rest) =
  Some (mkMatch (LinkSpan t u) [t; u] (Some ")"%char) rest).
Proof.
  intros Hp Ht Hu. unfold matchHere.
  change startLinkRegex with (BeginLine ;; spanRe)%re.
  cbn [run t_prev t_rest t_caps]. rewrite Hp.
  apply spanRe_intro; [exact Ht | exact Hu | ].
  cbn [t_prev t_rest t_caps app]. now rewrite consumed_app.
Qed.

Lemma startLinkRegex_elim (prev : option ascii) (s : string) (m : Match) :
  matchHere startLinkRegex prev s = Some m ->
  exists t u rest,
    atLineStart prev = true /\ okText t /\ okTarget u /\
    s = LinkSpan t u ++ rest /\
    m = mkMatch (LinkSpan t u) [t; u] (Some ")"%char) rest.
Proof.
  unfold matchHere. intros H.
  change startLinkRegex with (BeginLine ;; spanRe)%re in H.
  cbn [run t_prev t_rest t_caps] in H.
  destruct (atLineStart prev) eqn:Hp; [ | discriminate].
  apply spanRe_elim in H as (t & u & rest & Ht & Hu & -> & H).
  cbn [t_prev t_rest t_caps app] in H.
  rewrite consumed_app in H. injection H as <-.
  now exists t, u, rest.
Qed.

Lemma imgRegex_intro (prev : option ascii) (t u rest : string) :
  okText t -> okTarget u ->
  matchHere imgRegex prev (ImageSpan t u ++ rest) =
  Some (mkMatch (ImageSpan t u) [t; u] (Some ")"%char) rest).
Proof.
  intros Ht Hu. unfold matchHere, ImageSpan.
  change imgRegex with (Char (Lit "!") ;; spanRe)%re.
  cbn [run inSet t_prev t_rest t_caps append]. rewrite Ascii.eqb_refl.
  apply spanRe_intro; [exact Ht | exact Hu | ].
  cbn [t_prev t_rest t_caps app].
  change (String "!" (LinkSpan t u ++ rest))
    with (String "!" (LinkSpan t u) ++ rest).
  now rewrite consumed_app.
Qed.

Lemma imgRegex_elim (prev : option ascii) (s : string) (m : Match) :
  matchHere imgRegex prev s = Some m ->
  exists t u rest,
    okText t /\ okTarget u /\ s = ImageSpan t u ++ rest /\
    m = mkMatch (ImageSpan t u) [t; u] (Some ")"%char) rest.
Proof.
  unfold matchHere. intros H.
  change imgRegex with (Char (Lit "!") ;; spanRe)%re in H.
  cbn [run inSet t_prev t_rest t_caps] in H.
  destruct s as [|c s]; [discriminate | ].
  destruct (Ascii.eqb_spec c "!"); [subst c | discriminate].
  apply spanRe_elim in H as (t & u & rest & Ht & Hu & -> & H).
  cbn [t_prev t_rest t_caps app] in H.
  change (String "!" (LinkSpan t u ++ rest))
    with (String "!" (LinkSpan t u) ++ rest) in H.
  rewrite consumed_app in H. injection H as <-.
  now exists t, u, rest.
Qed.

Lemma linkRegex_nonempty : nonEmptyRe linkRegex.
Proof.
  intros prev s m H.
  apply linkRegex_elim in H as (c & t & u & rest & _ & _ & _ & _ & ->).
  discriminate.
Qed.

Lemma startLinkRegex_nonempty : nonEmptyRe startLinkRegex.
Proof.
  intros prev s m H.
  apply startLinkRegex_elim in H as (t & u & rest & _ & _ & _ & _ & ->).
  discriminate.
Qed.

Lemma imgRegex_nonempty : nonEmptyRe imgRegex.
Proof.
  intros prev s m H.
  apply imgRegex_elim in H as (t & u & rest & _ & _ & _ & ->).
  discriminate.
Qed.

Lemma linkRegex_contextFree : contextFree linkRegex.
Proof.
  intros p1 p2 s.
  destruct (matchHere linkRegex p1 s) as [m|] eqn:E1.
  - apply linkRegex_elim in E1 as (c & t & u & rest & Hc & Ht & Hu & -> & ->).
    symmetry. now apply linkRegex_intro.
  - destruct (matchHere linkRegex p2 s) as [m|] eqn:E2; [ | reflexivity].
    apply linkRegex_elim in E2 as (c & t & u & rest & Hc & Ht & Hu & -> & ->).
    now rewrite (linkRegex_intro p1) in E1.
Qed.

Lemma imgRegex_contextFree : contextFree imgRegex.
Proof.
  intros p1 p2 s.
  destruct (matchHere imgRegex p1 s) as [m|] eqn:E1.
  - apply imgRegex_elim in E1 as (t & u & rest & Ht & Hu & -> & ->).
    symmetry. now apply imgRegex_intro.
  - destruct (matchHere imgRegex p2 s) as [m|] eqn:E2; [ | reflexivity].
    apply imgRegex_elim in E2 as (t & u & rest & Ht & Hu & -> & ->).
    now rewrite (imgRegex_intro p1) in E1.
Qed.

(** ** The replacement functions on a link or an image reference *)

Lemma FindStringSubmatch_link (c : ascii) (t u : string) :
  c <> "!"%char -> okText t -> okTarget u ->
  FindStringSubmatch linkRegex (String c (LinkSpan t u)) =
  [String c (LinkSpan t u); String c EmptyString; t; u].
Proof.
  intros Hc Ht Hu. unfold FindStringSubmatch.
  pose proof (linkRegex_intro None c t u EmptyString Hc Ht Hu) as H.
  rewrite append_nil_r in H. now rewrite (find_here _ _ _ _ H).
Qed.

Lemma FindStringSubmatch_startLink (t u : string) :
  okText t -> okTarget u ->
  FindStringSubmatch startLinkRegex (LinkSpan t u) = [LinkSpan t u; t; u].
Proof.
  intros Ht Hu. unfold FindStringSubmatch.
  pose proof (startLinkRegex_intro None t u EmptyString eq_refl Ht Hu) as H.
  rewrite append_nil_r in H. now rewrite (find_here _ _ _ _ H).
Qed.

Lemma FindStringSubmatch_img (t u : string) :
  okText t -> okTarget u ->
  FindStringSubmatch imgRegex (ImageSpan t u) = [ImageSpan t u; t; u].
Proof.
  intros Ht Hu. unfold FindStringSubmatch.
  pose proof (imgRegex_intro None t u EmptyString Ht Hu) as H.
  rewrite append_nil_r in H. now rewrite (find_here _ _ _ _ H).
Qed.

Lemma Sprintf_link (p t u : string) :
  fmt.Sprintf "%s[%s](%s)" [p; t; u] = p ++ LinkSpan t u.
Proof. reflexivity. Qed.

Lemma Sprintf_startLink (t u : string) :
  fmt.Sprintf "[%s](%s)" [t; u] = LinkSpan t u.
Proof. reflexivity. Qed.

Lemma Sprintf_image (t u : string) :
  fmt.Sprintf "![%s](%s)" [t; u] = ImageSpan t u.
Proof. reflexivity. Qed.

Lemma Sprintf_dataURI (mime data : string) :
  fmt.Sprintf "data:%s;base64,%s" [mime; data] =
  "data:" ++ mime ++ ";base64," ++ data.
Proof. cbn. now rewrite append_nil_r. Qed.

Lemma linkFunc_span (c : ascii) (t u : string) :
  c <> "!"%char -> okText t -> okTarget u ->
  linkFunc (String c (LinkSpan t u)) = String c (LinkSpan t (rewriteTarget u)).
Proof.
  intros Hc Ht Hu. unfold linkFunc, rewriteTarget.
  rewrite (FindStringSubmatch_link c t u Hc Ht Hu).
  cbn [List.length Nat.ltb Nat.leb nth].
  destruct (skipLink u); [reflexivity | ].
  now rewrite Sprintf_link.
Qed.

Lemma startLinkFunc_span (t u : string) :
  okText t -> okTarget u ->
  startLinkFunc (LinkSpan t u) = LinkSpan t (rewriteTarget u).
Proof.
  intros Ht Hu. unfold startLinkFunc, rewriteTarget.
  rewrite (FindStringSubmatch_startLink t u Ht Hu).
  cbn [List.length Nat.ltb Nat.leb nth].
  destruct (skipLink u); [reflexivity | ].
  now rewrite Sprintf_startLink.
Qed.

Section ImgFunc.

Variable Join : string -> string -> string.

Lemma imgFunc_span (baseDir t u : string) (w : os.World) :
  okText t -> okTarget u ->
  imgFunc Join baseDir (ImageSpan t u) w =
  if skipImage u then (ImageSpan t u, w)
  else
    match os.files w (Join baseDir u) with
    | inr msg =>
        (ImageSpan t u,
         os.Printf ("Warning: Could not read image %s: %v" ++ String "010" EmptyString)
           [u; msg] w)
    | inl data =>
        (ImageSpan t ("data:" ++ getMimeType u ++ ";base64," ++
                      base64.EncodeToString data), w)
    end.
Proof.
  intros Ht Hu. unfold imgFunc.
  rewrite (FindStringSubmatch_img t u Ht Hu).
  cbn [List.length Nat.ltb Nat.leb nth].
  destruct (skipImage u); [reflexivity | ].
  unfold os.ReadFile. destruct (os.files w (Join baseDir u)) as [data|msg].
  - now rewrite Sprintf_dataURI, Sprintf_image.
  - reflexivity.
Qed.

End ImgFunc.

(** ** The passes on a text that starts with a link or an image reference *)

Lemma pure_match (re : Regexp) (f : string -> string) (prev : option ascii)
    (s : string) (m : Match) :
  nonEmptyRe re -> matchHere re prev s = Some m ->
  fst (replaceFrom re (pureRepl f) prev s tt) =
  f (m_text m) ++ fst (replaceFrom re (pureRepl f) (m_prev m) (m_rest m) tt).
Proof.
  intros N H. rewrite (replaceFrom_match re _ N _ _ _ _ H).
  unfold pureRepl at 1.
  now destruct (replaceFrom re (pureRepl f) (m_prev m) (m_rest m) tt).
Qed.

Lemma pure_skip (re : Regexp) (f : string -> string) (prev : option ascii)
    (a : ascii) (s : string) :
  nonEmptyRe re -> matchHere re prev (String a s) = None ->
  fst (replaceFrom re (pureRepl f) prev (String a s) tt) =
  String a (fst (replaceFrom re (pureRepl f) (Some a) s tt)).
Proof.
  intros N H. rewrite (replaceFrom_skip re _ N _ _ _ _ H).
  now destruct (replaceFrom re (pureRepl f) (Some a) s tt).
Qed.

(** A pass whose replacement function returns every match of the text as
    it is returns the text as it is. *)
Lemma pure_id (re : Regexp) (f : string -> string) :
  nonEmptyRe re ->
  forall (fuel : nat) (prev : option ascii) (s : string) (atEnd : bool),
    (forall b s' p m, s = b ++ s' -> matchHere re p s' = Some m ->
                      f (m_text m) = m_text m) ->
    replaceLoop fuel re (pureRepl f) prev s atEnd tt = (s, tt).
Proof.
  intros N fuel. induction fuel as [|fuel IH]; intros prev s atEnd H;
    [reflexivity | ].
  rewrite (replaceLoop_step re _ N).
  destruct (find re prev s) as [[before m]|] eqn:F; [ | reflexivity].
  apply find_matchHere in F as (s' & -> & Hm).
  pose proof (matchHere_split _ _ _ _ Hm) as Es.
  unfold pureRepl at 1. rewrite (H before s' _ m eq_refl Hm).
  rewrite IH.
  - now rewrite <- Es.
  - intros b s'' p m' E Hm'. apply (H (before ++ m_text m ++ b) s'' p m').
    + now rewrite Es, E, !append_assoc.
    + exact Hm'.
Qed.

Lemma linkPass_step (c : ascii) (t u rest : string) :
  c <> "!"%char -> okText t -> okTarget u ->
  linkPass (String c (LinkSpan t u) ++ rest) =
  String c (LinkSpan t (rewriteTarget u)) ++ linkPass rest.
Proof.
  intros Hc Ht Hu. unfold linkPass, ReplaceAllStringFunc, ReplaceAllStringFuncM.
  change (fun (m : string) (st : unit) => (linkFunc m, st))
    with (pureRepl linkFunc).
  cbn [append].
  rewrite (pure_match _ _ _ _ _ linkRegex_nonempty
             (linkRegex_intro None c t u rest Hc Ht Hu)).
  cbn [m_text m_prev m_rest].
  rewrite (linkFunc_span c t u Hc Ht Hu).
  now rewrite (replaceFrom_context _ _ linkRegex_contextFree rest
                 (Some ")"%char) None).
Qed.

Lemma linkPass_skip (a : ascii) (s : string) :
  matchHere linkRegex None (String a s) = None ->
  linkPass (String a s) = String a (linkPass s).
Proof.
  intros H. unfold linkPass, ReplaceAllStringFunc, ReplaceAllStringFuncM.
  change (fun (m : string) (st : unit) => (linkFunc m, st))
    with (pureRepl linkFunc).
  rewrite (pure_skip _ _ _ _ _ linkRegex_nonempty H).
  now rewrite (replaceFrom_context _ _ linkRegex_contextFree s (Some a) None).
Qed.

Lemma startLinkPass_from (s : string) :
  startLinkPass s = startLinkPassFrom None s.
Proof. reflexivity. Qed.

Lemma startLinkPassFrom_step (prev : option ascii) (t u rest : string) :
  atLineStart prev = true -> okText t -> okTarget u ->
  startLinkPassFrom prev (LinkSpan t u ++ rest) =
  LinkSpan t (rewriteTarget u) ++ startLinkPassFrom (Some ")"%char) rest.
Proof.
  intros Hp Ht Hu. unfold startLinkPassFrom.
  rewrite (pure_match _ _ _ _ _ startLinkRegex_nonempty
             (startLinkRegex_intro prev t u rest Hp Ht Hu)).
  cbn [m_text m_prev m_rest].
  now rewrite (startLinkFunc_span t u Ht Hu).
Qed.

Lemma startLinkPassFrom_nil (prev : option ascii) :
  startLinkPassFrom prev EmptyString = EmptyString.
Proof.
  unfold startLinkPassFrom.
  now rewrite (replaceFrom_nil _ _ startLinkRegex_nonempty).
Qed.

Lemma linkPass_nil : linkPass EmptyString = EmptyString.
Proof. reflexivity. Qed.

Section EmbedStep.

Variable Join : string -> string -> string.

Lemma embedImages_step (baseDir t u rest : string) (w : os.World) :
  okText t -> okTarget u ->
  embedImages Join (ImageSpan t u ++ rest) baseDir w =
  let '(r, w1) := imgFunc Join baseDir (ImageSpan t u) w in
  let '((out, err), w2) := embedImages Join rest baseDir w1 in
  ((r ++ out, err), w2).
Proof.
  intros Ht Hu. unfold embedImages, ReplaceAllStringFuncM.
  rewrite (replaceFrom_match _ _ imgRegex_nonempty _ _ _ _
             (imgRegex_intro None t u rest Ht Hu)).
  cbn [m_text m_prev m_rest].
  destruct (imgFunc Join baseDir (ImageSpan t u) w) as [r w1].
  rewrite (replaceFrom_context _ _ imgRegex_contextFree rest
             (Some ")"%char) None).
  now destruct (replaceFrom imgRegex (imgFunc Join baseDir) None rest w1).
Qed.

End EmbedStep.

(** ** Where a match can lie inside a single link *)

Lemma append_inv_tail (a b c : string) : a ++ c = b ++ c -> a = b.
Proof.
  revert b; induction a as [|x a IH]; intros b E.
  - destruct b as [|y b]; [reflexivity | ].
    apply (f_equal String.length) in E. cbn in E. rewrite length_append in E. lia.
  - destruct b as [|y b].
    + apply (f_equal String.length) in E. cbn in E. rewrite length_append in E. lia.
    + cbn in E. injection E as -> E. now rewrite (IH b E).
Qed.

(** When the text before the first occurrence of [c] is cut earlier or
    later, the cut falls inside [a] or after the occurrence. *)
Lemma split_at_first (c : ascii) (a b : string) :
  occurs c a = false ->
  forall p q, a ++ String c b = p ++ q ->
    (occurs c p = false /\ exists y, a = p ++ y /\ q = y ++ String c b) \/
    (exists y, p = a ++ String c y /\ b = y ++ q).
Proof.
  induction a as [|x a IH]; intros Ha p q E.
  - destruct p as [|y p].
    + left. split; [reflexivity | ]. now exists EmptyString.
    + right. cbn in E. injection E as <- E. now exists p.
  - cbn in Ha. apply orb_false_iff in Ha as [Hx Ha].
    destruct p as [|y p].
    + left. split; [reflexivity | ]. exists (String x a). now split.
    + cbn in E. injection E as <- E.
      destruct (IH Ha p q E) as [[Hp (y & -> & ->)] | (y & -> & ->)].
      * left. split; [cbn; now rewrite Hx, Hp | ]. now exists y.
      * right. now exists y.
Qed.

(** A link alone in a text: a match of [linkRegex] in it ends with the
    text, and its target is the target of the link or the last part of
    that target. *)
Lemma match_in_link (t u before t' u' rest : string) (c : ascii) :
  okText t -> okTarget u -> okText t' -> okTarget u' ->
  LinkSpan t u = before ++ String c (LinkSpan t' u' ++ rest) ->
  rest = EmptyString /\
  ((u' = u /\ String "[" t = before ++ String c (String "[" t')) \/
   (exists q, u = q ++ String "[" (t' ++ String "]" (String "(" u')) /\
              before ++ String c EmptyString =
              String "[" (t ++ String "]" (String "(" q)))).
Proof.
  intros Ht [_ Hu] Ht' [_ Hu'] E.
  rewrite LinkSpan_eq, LinkSpan_app in E.
  assert (Hbt : occurs "]" (String "[" t) = false) by exact Ht.
  assert (Hbt' : occurs "]" (String "[" t') = false) by exact Ht'.
  assert (E0 : String "[" t ++ String "]" (String "(" (u ++ String ")" EmptyString)) =
          (before ++ String c (String "[" t')) ++
          String "]" (String "(" (u' ++ String ")" rest))).
  { rewrite append_assoc. exact E. }
  clear E.
  destruct (split_at_first "]" _ _ Hbt _ _ E0)
    as [[Hp (y & E1 & E2)] | (y & E1 & E2)].
  - destruct y as [|y0 y].
    + cbn in E2. injection E2 as E2.
      destruct (first_occurrence_unique ")" u' u rest EmptyString Hu' Hu E2)
        as [-> ->].
      split; [reflexivity | ]. left. split; [reflexivity | ].
      now rewrite append_nil_r in E1.
    + cbn in E2. injection E2 as <- E2.
      rewrite E1, occurs_app in Hbt. cbn in Hbt.
      now rewrite orb_true_r in Hbt.
  - assert (E1' : String "[" t ++ String "]" y =
                  (before ++ String c EmptyString) ++ String "[" t').
    { rewrite append_assoc. exact (eq_sym E1). }
    destruct (split_at_first "]" _ _ Hbt _ _ E1')
      as [[Hp (w & E3 & E4)] | (w & E3 & E4)].
    + rewrite E4, occurs_app in Hbt'. cbn in Hbt'.
      now rewrite orb_true_r in Hbt'.
    + subst y. destruct w as [|w0 q]; [discriminate | ].
      cbn in E2. injection E2 as Ew E2. subst w0.
      assert (E5 : u ++ String ")" EmptyString =
                   (q ++ String "[" (t' ++ String "]" (String "(" u'))) ++
                   String ")" rest).
      { rewrite E2, !append_assoc. cbn. do 2 f_equal. now rewrite append_assoc. }
      destruct (split_at_first ")" _ _ Hu _ _ E5)
        as [[Hq (z & E6 & E7)] | (z & E6 & E7)].
      * destruct z as [|z0 z].
        -- cbn in E7. injection E7 as ->. split; [reflexivity | ].
           right. exists q. rewrite append_nil_r in E6. now split.
        -- cbn in E7. injection E7 as <- E7.
           rewrite E6, occurs_app in Hu. cbn in Hu.
           now rewrite orb_true_r in Hu.
      * destruct z; discriminate.
Qed.

(** A byte that occurs once: the text splits around it in one way. *)
Lemma unique_occurrence (c : ascii) (p b q r : string) :
  occurs c p = false -> occurs c b = false ->
  p ++ String c b = q ++ String c r -> q = p /\ r = b.
Proof.
  intros Hp Hb E.
  destruct (split_at_first c _ _ Hp _ _ E)
    as [[Hq (y & E1 & E2)] | (y & E1 & E2)].
  - destruct y as [|y0 y].
    + cbn in E2. injection E2 as ->. now rewrite append_nil_r in E1.
    + cbn in E2. injection E2 as <- E2.
      rewrite E1, occurs_app in Hp. cbn in Hp.
      rewrite Ascii.eqb_refl in Hp. now rewrite orb_true_r in Hp.
  - rewrite E2, occurs_app in Hb. cbn in Hb.
    rewrite Ascii.eqb_refl in Hb. now rewrite orb_true_r in Hb.
Qed.

(** A link with an empty target, in a text without another [']']: no part
    of the text is a link with a target. *)
Lemma empty_target_unmatched (pre t post y t' u' rest : string) :
  occurs "]" pre = false -> okText t -> occurs "]" post = false ->
  okTarget u' ->
  pre ++ LinkSpan t EmptyString ++ post = y ++ LinkSpan t' u' ++ rest ->
  False.
Proof.
  intros Hpre Ht Hpost [Hne Hu'] E.
  rewrite !LinkSpan_app in E. cbn [append] in E.
  assert (E' : (pre ++ String "[" t) ++ String "]" (String "(" (String ")" post)) =
               (y ++ String "[" t') ++
               String "]" (String "(" (u' ++ String ")" rest))).
  { rewrite !append_assoc. exact E. }
  apply unique_occurrence in E' as [_ E'].
  - injection E' as E'.
    destruct (first_occurrence_unique ")" u' EmptyString rest post Hu' eq_refl E')
      as [-> _].
    now elim Hne.
  - rewrite occurs_app. cbn. now rewrite Hpre, Ht.
  - cbn. exact Hpost.
Qed.

(** A link alone in a text, with no [']'] in its target: a link inside the
    text has the same target and ends with the text. *)
Lemma match_in_plain_link (t u b t' u' rest : string) :
  okText t -> okTarget u -> occurs "]" u = false -> okTarget u' ->
  LinkSpan t u = b ++ LinkSpan t' u' ++ rest ->
  u' = u /\ rest = EmptyString.
Proof.
  intros Ht [_ Hu] Hb [_ Hu'] E.
  rewrite LinkSpan_eq, LinkSpan_app in E.
  assert (E' : String "[" t ++ String "]" (String "(" (u ++ String ")" EmptyString)) =
               (b ++ String "[" t') ++
               String "]" (String "(" (u' ++ String ")" rest))).
  { rewrite append_assoc. exact E. }
  apply unique_occurrence in E' as [_ E'].
  - injection E' as E'.
    destruct (first_occurrence_unique ")" u' u rest EmptyString Hu' Hu E')
      as [-> ->].
    now split.
  - exact Ht.
  - cbn. rewrite occurs_app. cbn. now rewrite Hb.
Qed.

(** ** Targets *)

Lemma rewriteTarget_skip (u : string) :
  skipLink u = true -> rewriteTarget u = u.
Proof. intros H. unfold rewriteTarget. now rewrite H. Qed.

Lemma rewriteTarget_md (v : string) :
  skipLink (v ++ ".md") = false -> rewriteTarget (v ++ ".md") = v ++ ".html".
Proof.
  intros H. unfold rewriteTarget. now rewrite H, HasSuffix_app, TrimSuffix_app.
Qed.

Lemma HasSuffix_last (s suffix : string) (a : ascii) :
  HasSuffix s suffix = true ->
  lastOr None suffix = Some a -> lastOr None s = Some a.
Proof.
  intros H L. apply HasSuffix_inv in H. rewrite H, lastOr_app.
  destruct suffix as [|x suffix]; [discriminate | exact L].
Qed.

Lemma HasSuffix_html_md (v : string) : HasSuffix (v ++ ".html") ".md" = false.
Proof.
  destruct (HasSuffix (v ++ ".html") ".md") eqn:H; [ | reflexivity].
  apply (HasSuffix_last _ _ "d"%char) in H; [ | reflexivity].
  rewrite lastOr_app in H. discriminate.
Qed.

Lemma rewriteTarget_html (v : string) :
  rewriteTarget (v ++ ".html") = v ++ ".html".
Proof.
  unfold rewriteTarget. rewrite HasSuffix_html_md.
  now destruct (skipLink (v ++ ".html")).
Qed.

(** A target is rewritten exactly when it passes the test of the callback
    and ends with [.md]. *)
Lemma rewriteTarget_changes (u : string) :
  rewriteTarget u <> u <-> skipLink u = false /\ HasSuffix u ".md" = true.
Proof.
  unfold rewriteTarget. destruct (skipLink u).
  - split; [intros H; now elim H | intros [H _]; discriminate].
  - destruct (HasSuffix u ".md") eqn:Hs.
    + split; [now split | ]. intros _ E.
      apply HasSuffix_inv in Hs. rewrite Hs in E at 2.
      apply append_inv_head in E. discriminate.
    + split; [intros H; now elim H | intros [_ H]; discriminate].
Qed.

Lemma rewriteTarget_ok (u : string) : okTarget u -> okTarget (rewriteTarget u).
Proof.
  intros [Hne Hu]. unfold rewriteTarget.
  destruct (skipLink u); [now split | ].
  destruct (HasSuffix u ".md") eqn:Hs; [ | now split].
  apply HasSuffix_inv in Hs. rewrite Hs, occurs_app in Hu.
  apply orb_false_iff in Hu as [Hu _].
  split.
  - destruct (TrimSuffix u ".md"); discriminate.
  - rewrite occurs_app, Hu. reflexivity.
Qed.

Lemma LinkSpan_inj (t u1 u2 : string) : LinkSpan t u1 = LinkSpan t u2 -> u1 = u2.
Proof.
  unfold LinkSpan. intros E.
  apply append_inv_head in E. apply append_inv_head in E.
  apply append_inv_head in E. now apply append_inv_tail in E.
Qed.

(** ** The passes on a link alone in a text *)

Lemma startLinkPass_sole (t u : string) :
  okText t -> okTarget u ->
  startLinkPass (LinkSpan t u) = LinkSpan t (rewriteTarget u).
Proof.
  intros Ht Hu. rewrite startLinkPass_from.
  rewrite <- (append_nil_r (LinkSpan t u)).
  rewrite (startLinkPassFrom_step None t u EmptyString eq_refl Ht Hu).
  now rewrite startLinkPassFrom_nil, !append_nil_r.
Qed.

(** The first pass on a link alone in a text: the link comes out with its
    target as it was, or rewritten, or rewritten from an inner link on. *)
Lemma linkPass_sole (t u : string) :
  okText t -> okTarget u ->
  exists u1,
    linkPass (LinkSpan t u) = LinkSpan t u1 /\ okTarget u1 /\
    (u1 = u \/ u1 = rewriteTarget u \/
     exists q t' u',
       u = q ++ String "[" (t' ++ String "]" (String "(" u')) /\
       u1 = q ++ String "[" (t' ++ String "]" (String "(" (rewriteTarget u')))).
Proof.
  intros Ht Hu. unfold linkPass, ReplaceAllStringFunc, ReplaceAllStringFuncM.
  change (fun (m : string) (st : unit) => (linkFunc m, st))
    with (pureRepl linkFunc).
  unfold replaceFrom. rewrite (replaceLoop_step _ _ linkRegex_nonempty).
  destruct (find linkRegex None (LinkSpan t u)) as [[before m]|] eqn:F.
  - unfold pureRepl at 1. cbn beta iota.
    rewrite (replaceLoop_rest _ _ linkRegex_nonempty _ _ _ _ _ F).
    destruct (find_matchHere _ _ _ _ _ F) as (s' & E & Hm).
    apply linkRegex_elim in Hm
      as (c & t' & u' & rest & Hc & Ht' & Hu' & -> & ->).
    destruct (match_in_link _ _ _ _ _ _ _ Ht Hu Ht' Hu' E) as [-> Hcase].
    cbn [m_text m_prev m_rest].
    rewrite (linkFunc_span c t' u' Hc Ht' Hu').
    rewrite (replaceFrom_nil _ _ linkRegex_nonempty). cbn [fst].
    rewrite append_nil_r.
    destruct Hcase as [[-> Eb] | (q & Eu & Eb)].
    + exists (rewriteTarget u). split; [ | split; [now apply rewriteTarget_ok | auto]].
      rewrite !LinkSpan_eq.
      change (String "[" (t ++ String "]" (String "(" (rewriteTarget u ++ ")"))))
        with (String "[" t ++ String "]" (String "(" (rewriteTarget u ++ ")"))).
      rewrite Eb, append_assoc. reflexivity.
    + exists (q ++ String "[" (t' ++ String "]" (String "(" (rewriteTarget u')))).
      split; [ | split].
      * rewrite !LinkSpan_eq.
        change (before ++ String c (String "[" (t' ++ String "]" (String "(" (rewriteTarget u' ++ ")")))))
          with (before ++ String c EmptyString ++ (String "[" (t' ++ String "]" (String "(" (rewriteTarget u' ++ ")"))))).
        rewrite <- append_assoc, Eb. cbn. f_equal. rewrite !append_assoc. cbn.
        do 3 f_equal. rewrite !append_assoc. reflexivity.
      * destruct Hu as [_ Hu]. rewrite Eu in Hu.
        rewrite occurs_app in Hu. cbn in Hu. rewrite occurs_app in Hu. cbn in Hu.
        apply orb_false_iff in Hu as [Hq Hu].
        apply orb_false_iff in Hu as [Ht'' _].
        destruct (rewriteTarget_ok u' Hu') as [_ Hr].
        split; [destruct q; discriminate | ].
        rewrite occurs_app. cbn. rewrite occurs_app. cbn.
        now rewrite Hq, Ht'', Hr.
      * right. right. now exists q, t', u'.
  - exists u. cbn [fst]. auto.
Qed.

Lemma rewriteMarkdownLinks_sole_md (t v : string) :
  okText t -> occurs ")" v = false -> skipLink (v ++ ".md") = false ->
  rewriteMarkdownLinks (LinkSpan t (v ++ ".md")) = LinkSpan t (v ++ ".html").
Proof.
  intros Ht Hv Hs.
  assert (Hu : okTarget (v ++ ".md")).
  { split; [destruct v; discriminate | ]. rewrite occurs_app, Hv. reflexivity. }
  change (rewriteMarkdownLinks (LinkSpan t (v ++ ".md")))
    with (startLinkPass (linkPass (LinkSpan t (v ++ ".md")))).
  destruct (linkPass_sole t _ Ht Hu) as (u1 & -> & Hu1 & Hcase).
  rewrite (startLinkPass_sole t u1 Ht Hu1). f_equal.
  destruct Hcase as [-> | [-> | (q & t' & u' & Eu & ->)]].
  - now apply rewriteTarget_md.
  - rewrite (rewriteTarget_md v Hs). apply rewriteTarget_html.
  - destruct (rewriteTarget_changes u') as [_ Hch].
    unfold rewriteTarget at 2.
    destruct (skipLink u') eqn:Hk.
    + rewrite <- Eu. now apply rewriteTarget_md.
    + destruct (HasSuffix u' ".md") eqn:Hsuf.
      * apply HasSuffix_inv in Hsuf. set (w := TrimSuffix u' ".md") in *.
        rewrite Hsuf in Eu.
        assert (Ev : v = q ++ String "[" (t' ++ String "]" (String "(" w))).
        { apply (append_inv_tail _ _ ".md"). rewrite Eu.
          rewrite !append_assoc. cbn. do 2 f_equal. rewrite !append_assoc.
          reflexivity. }
        assert (E2 : q ++ String "[" (t' ++ String "]" (String "(" (w ++ ".html")))
                     = v ++ ".html").
        { rewrite Ev. rewrite !append_assoc. cbn. do 2 f_equal.
          rewrite !append_assoc. reflexivity. }
        rewrite E2. apply rewriteTarget_html.
      * rewrite <- Eu. now apply rewriteTarget_md.
Qed.

(** * Facts about [encoding/base64] *)

Import base64.

(** Equations between shifts, masks and disjunctions, bit by bit. *)
Ltac bits :=
  Z.bitblast;
  repeat (progress (Z.rewrite_bitwise; Z.destruct_ltbs; try (exfalso; lia)));
  repeat (rewrite Z.testbit_mod_pow2 by lia);
  repeat match goal with
         | |- context [Z.ltb ?a ?b] => destruct (Z.ltb_spec a b)
         end;
  try (exfalso; lia);
  repeat match goal with
         | |- context [Z.testbit ?a ?i] =>
             rewrite (Z.testbit_neg_r a i) by lia
         end;
  try btauto.

Lemma byteZ_range (a : ascii) : (0 <= byteZ a < 256)%Z.
Proof.
  unfold byteZ. pose proof (N_ascii_bounded a). lia.
Qed.

Lemma zByte_byteZ (a : ascii) : zByte (byteZ a) = a.
Proof. unfold zByte, byteZ. now rewrite N2Z.id, ascii_N_embedding. Qed.

Lemma sextet_range (v k : Z) : (0 <= Z.land (Z.shiftr v k) 63 < 64)%Z.
Proof.
  change 63%Z with (Z.ones 6). rewrite Z.land_ones by lia.
  apply Z.mod_pos_bound. reflexivity.
Qed.

Lemma decodeMap_encode (i : Z) :
  (0 <= i < 64)%Z ->
  decodeMap (encode i) = Some i /\ Ascii.eqb (encode i) StdPadding = false.
Proof.
  intros H.
  assert (A : forallb (fun n : nat =>
                match decodeMap (encode (Z.of_nat n)) with
                | Some j => Z.eqb j (Z.of_nat n)
                | None => false
                end && negb (Ascii.eqb (encode (Z.of_nat n)) StdPadding))
              (seq 0 64) = true) by (vm_compute; reflexivity).
  rewrite forallb_forall in A.
  specialize (A (Z.to_nat i)). rewrite Z2Nat.id in A by lia.
  assert (I : In (Z.to_nat i) (seq 0 64)) by (apply in_seq; lia).
  apply A in I. apply andb_true_iff in I as [I1 I2].
  destruct (decodeMap (encode i)) as [j|]; [ | discriminate].
  apply Z.eqb_eq in I1. subst j. apply negb_true_iff in I2. now split.
Qed.

Lemma recombine (v : Z) :
  (0 <= v < 2 ^ 24)%Z ->
  Z.lor (Z.lor (Z.lor (Z.shiftl (Z.land (Z.shiftr v 18) 63) 18)
                      (Z.shiftl (Z.land (Z.shiftr v 12) 63) 12))
               (Z.shiftl (Z.land (Z.shiftr v 6) 63) 6))
        (Z.land v 63) = v.
Proof.
  intros Hv. rewrite <- (Z.mod_small v (2 ^ 24)) by lia.
  change 63%Z with (Z.ones 6). bits.
Qed.

Lemma pack_range (x y z : Z) :
  (0 <= x < 256)%Z -> (0 <= y < 256)%Z -> (0 <= z < 256)%Z ->
  (0 <= Z.lor (Z.lor (Z.shiftl x 16) (Z.shiftl y 8)) z < 2 ^ 24)%Z.
Proof.
  intros Hx Hy Hz.
  assert (E : Z.lor (Z.lor (Z.shiftl x 16) (Z.shiftl y 8)) z =
              ((Z.lor (Z.lor (Z.shiftl x 16) (Z.shiftl y 8)) z) mod 2 ^ 24)%Z).
  { rewrite <- (Z.mod_small x (2 ^ 8)) by lia.
    rewrite <- (Z.mod_small y (2 ^ 8)) by lia.
    rewrite <- (Z.mod_small z (2 ^ 8)) by lia.
    bits. }
  rewrite E. apply Z.mod_pos_bound. reflexivity.
Qed.

Lemma unpack (x y z : Z) :
  (0 <= x < 256)%Z -> (0 <= y < 256)%Z -> (0 <= z < 256)%Z ->
  let val := Z.lor (Z.lor (Z.shiftl x 16) (Z.shiftl y 8)) z in
  Z.land (Z.shiftr val 16) 255 = x /\
  Z.land (Z.shiftr val 8) 255 = y /\
  Z.land val 255 = z.
Proof.
  intros Hx Hy Hz val. subst val.
  rewrite <- (Z.mod_small x (2 ^ 8)) by lia.
  rewrite <- (Z.mod_small y (2 ^ 8)) by lia.
  rewrite <- (Z.mod_small z (2 ^ 8)) by lia.
  change 255%Z with (Z.ones 8).
  repeat split; bits.
Qed.


Lemma group1 (x : Z) :
  (0 <= x < 256)%Z ->
  let val := Z.shiftl x 16 in
  Z.land (Z.shiftr (Z.lor (Z.shiftl (Z.land (Z.shiftr val 18) 63) 18)
                          (Z.shiftl (Z.land (Z.shiftr val 12) 63) 12)) 16) 255
  = x.
Proof.
  intros Hx val. subst val.
  rewrite <- (Z.mod_small x (2 ^ 8)) by lia.
  change 63%Z with (Z.ones 6). change 255%Z with (Z.ones 8).
  bits.
Qed.


Lemma high2 (v : Z) :
  (0 <= v < 2 ^ 24)%Z ->
  Z.shiftr (Z.lor (Z.shiftl (Z.land (Z.shiftr v 18) 63) 18)
                  (Z.shiftl (Z.land (Z.shiftr v 12) 63) 12)) 16
  = Z.shiftr v 16.
Proof.
  intros Hv. rewrite <- (Z.mod_small v (2 ^ 24)) by lia.
  change 63%Z with (Z.ones 6). bits.
Qed.

Lemma high3 (v : Z) (k : Z) :
  (0 <= v < 2 ^ 24)%Z -> (k = 8 \/ k = 16)%Z ->
  Z.shiftr (Z.lor (Z.lor (Z.shiftl (Z.land (Z.shiftr v 18) 63) 18)
                         (Z.shiftl (Z.land (Z.shiftr v 12) 63) 12))
                  (Z.shiftl (Z.land (Z.shiftr v 6) 63) 6)) k
  = Z.shiftr v k.
Proof.
  intros Hv Hk. rewrite <- (Z.mod_small v (2 ^ 24)) by lia.
  change 63%Z with (Z.ones 6). destruct Hk as [-> | ->]; bits.
Qed.

Lemma unpack1 (x : Z) :
  (0 <= x < 256)%Z -> Z.land (Z.shiftr (Z.shiftl x 16) 16) 255 = x.
Proof.
  intros Hx. rewrite <- (Z.mod_small x (2 ^ 8)) by lia.
  change 255%Z with (Z.ones 8). bits.
Qed.

Lemma unpack2 (x y : Z) :
  (0 <= x < 256)%Z -> (0 <= y < 256)%Z ->
  let val := Z.lor (Z.shiftl x 16) (Z.shiftl y 8) in
  Z.land (Z.shiftr val 16) 255 = x /\ Z.land (Z.shiftr val 8) 255 = y.
Proof.
  intros Hx Hy val. subst val.
  rewrite <- (Z.mod_small x (2 ^ 8)) by lia.
  rewrite <- (Z.mod_small y (2 ^ 8)) by lia.
  change 255%Z with (Z.ones 8). split; bits.
Qed.

Lemma pack_range2 (x y : Z) :
  (0 <= x < 256)%Z -> (0 <= y < 256)%Z ->
  (0 <= Z.lor (Z.shiftl x 16) (Z.shiftl y 8) < 2 ^ 24)%Z.
Proof.
  intros Hx Hy. rewrite <- (Z.lor_0_r (Z.lor _ _)). apply pack_range; lia.
Qed.

Lemma pack_range1 (x : Z) :
  (0 <= x < 256)%Z -> (0 <= Z.shiftl x 16 < 2 ^ 24)%Z.
Proof.
  intros Hx.
  replace (Z.shiftl x 16) with (Z.lor (Z.shiftl x 16) (Z.shiftl 0 8))
    by (now rewrite Z.shiftl_0_l, Z.lor_0_r).
  apply pack_range2; lia.
Qed.

Lemma string_ind3 (P : string -> Prop) :
  P EmptyString ->
  (forall a, P (String a EmptyString)) ->
  (forall a b, P (String a (String b EmptyString))) ->
  (forall a b c s, P s -> P (String a (String b (String c s)))) ->
  forall s, P s.
Proof.
  intros H0 H1 H2 H3 s.
  assert (A : P s /\ (forall a, P (String a s)) /\
              (forall a b, P (String a (String b s)))).
  { induction s as [|x s (IH0 & IH1 & IH2)].
    - auto.
    - repeat split; auto. }
  apply A.
Qed.

(** Decoding what [EncodeToString] produced gives the bytes back. *)
Lemma DecodeString_EncodeToString (data : string) :
  DecodeString (EncodeToString data) = Some data.
Proof.
  induction data as [|a|a b|a b c s IH] using string_ind3.
  - reflexivity.
  - pose proof (byteZ_range a) as Ha.
    cbn [EncodeToString]. cbv zeta.
    set (val := Z.shiftl (byteZ a) 16).
    assert (Hv : (0 <= val < 2 ^ 24)%Z) by (apply pack_range1; lia).
    cbn [DecodeString].
    destruct (decodeMap_encode _ (sextet_range val 18)) as [-> _].
    destruct (decodeMap_encode _ (sextet_range val 12)) as [-> _].
    rewrite Ascii.eqb_refl. cbv zeta.
    rewrite (high2 val Hv). unfold val.
    now rewrite (unpack1 _ Ha), zByte_byteZ.
  - pose proof (byteZ_range a) as Ha. pose proof (byteZ_range b) as Hb.
    cbn [EncodeToString]. cbv zeta.
    set (val := Z.lor (Z.shiftl (byteZ a) 16) (Z.shiftl (byteZ b) 8)).
    assert (Hv : (0 <= val < 2 ^ 24)%Z) by (apply pack_range2; lia).
    cbn [DecodeString].
    destruct (decodeMap_encode _ (sextet_range val 18)) as [-> _].
    destruct (decodeMap_encode _ (sextet_range val 12)) as [-> _].
    destruct (decodeMap_encode _ (sextet_range val 6)) as [-> ->].
    rewrite Ascii.eqb_refl. cbv zeta.
    rewrite !(high3 val _ Hv) by auto. unfold val.
    destruct (unpack2 _ _ Ha Hb) as [-> ->].
    now rewrite !zByte_byteZ.
  - pose proof (byteZ_range a) as Ha. pose proof (byteZ_range b) as Hb.
    pose proof (byteZ_range c) as Hc.
    cbn [EncodeToString]. cbv zeta.
    set (val := Z.lor (Z.lor (Z.shiftl (byteZ a) 16) (Z.shiftl (byteZ b) 8))
                      (byteZ c)).
    assert (Hv : (0 <= val < 2 ^ 24)%Z) by (apply pack_range; lia).
    cbn [DecodeString].
    destruct (decodeMap_encode _ (sextet_range val 18)) as [-> _].
    destruct (decodeMap_encode _ (sextet_range val 12)) as [-> _].
    destruct (decodeMap_encode _ (sextet_range val 6)) as [-> _].
    destruct (decodeMap_encode _ (sextet_range val 0)) as [E3 E3'].
    rewrite Z.shiftr_0_r in E3, E3'. rewrite E3, E3', IH. cbv zeta.
    rewrite (recombine val Hv). unfold val.
    destruct (unpack _ _ _ Ha Hb Hc) as (-> & -> & ->).
    now rewrite !zByte_byteZ.
Qed.

(** * Facts about the document assembler *)

Lemma ReplaceAll_spaces (s : string) : ReplaceAll s " " "+" = spacesToPlus s.
Proof.
  unfold ReplaceAll. cbn [String.eqb Ascii.eqb Bool.eqb].
  induction s as [|c s IH]; [reflexivity | ].
  cbn [replaceScan spacesToPlus String.prefix String.length Nat.sub].
  destruct (ascii_dec " " c) as [<-|N].
  - cbn. rewrite IH. now destruct s.
  - destruct (Ascii.eqb_spec c " "); [now elim N | ]. now rewrite IH.
Qed.

Lemma createHTMLDocument_parts (body fontFamily title : string) :
  createHTMLDocument body fontFamily title =
  tmplToTitle ++ title ++ tmplToFontURL ++ ReplaceAll fontFamily " " "+" ++
  tmplToFontFamily ++ fontFamily ++ fmt.Sprintf tmplToBody [] ++ body ++
  tmplTail.
Proof.
  unfold createHTMLDocument, htmlTemplate.
  generalize (ReplaceAll fontFamily " " "+"). intros fontURL.
  vm_compute. reflexivity.
Qed.

(** ** Texts without a match *)

Lemma linkPass_none (s : string) :
  find linkRegex None s = None -> linkPass s = s.
Proof.
  intros F. unfold linkPass, ReplaceAllStringFunc, ReplaceAllStringFuncM.
  now rewrite (replaceFrom_none _ _ _ _ _ F).
Qed.

Lemma startLinkPass_none (s : string) :
  find startLinkRegex None s = None -> startLinkPass s = s.
Proof.
  intros F. unfold startLinkPass, ReplaceAllStringFunc, ReplaceAllStringFuncM.
  now rewrite (replaceFrom_none _ _ _ _ _ F).
Qed.

Lemma embedImages_none (Join : string -> string -> string)
    (s baseDir : string) (w : os.World) :
  find imgRegex None s = None -> embedImages Join s baseDir w = ((s, None), w).
Proof.
  intros F. unfold embedImages, ReplaceAllStringFuncM.
  now rewrite (replaceFrom_none _ _ _ _ _ F).
Qed.

(** A link with an empty target, in a text without another [']']: none of
    the three patterns matches anywhere in the text. *)
Lemma empty_target_find (pre t post : string) (prev : option ascii) :
  occurs "]" pre = false -> okText t -> occurs "]" post = false ->
  let s := pre ++ LinkSpan t EmptyString ++ post in
  find linkRegex prev s = None /\ find startLinkRegex prev s = None /\
  find imgRegex prev s = None.
Proof.
  intros Hpre Ht Hpost s. repeat split; apply find_nowhere; intros p b s' E.
  - destruct (matchHere linkRegex p s') as [m|] eqn:Hm; [ | reflexivity].
    apply linkRegex_elim in Hm as (c & t' & u' & rest & _ & _ & Hu' & -> & _).
    exfalso.
    apply (empty_target_unmatched pre t post (b ++ String c EmptyString)
             t' u' rest Hpre Ht Hpost Hu').
    fold s. rewrite E, append_assoc. reflexivity.
  - destruct (matchHere startLinkRegex p s') as [m|] eqn:Hm; [ | reflexivity].
    apply startLinkRegex_elim in Hm as (t' & u' & rest & _ & _ & Hu' & -> & _).
    exfalso.
    exact (empty_target_unmatched pre t post b t' u' rest Hpre Ht Hpost Hu' E).
  - destruct (matchHere imgRegex p s') as [m|] eqn:Hm; [ | reflexivity].
    apply imgRegex_elim in Hm as (t' & u' & rest & _ & Hu' & -> & _).
    exfalso.
    apply (empty_target_unmatched pre t post (b ++ String "!" EmptyString)
             t' u' rest Hpre Ht Hpost Hu').
    fold s. rewrite E, append_assoc. reflexivity.
Qed.

(** At a link with an empty target the shared part of the patterns does
    not match, whatever follows. *)
Lemma empty_target_span (t rest t' u' rest' : string) :
  okText t -> okText t' -> okTarget u' ->
  LinkSpan t EmptyString ++ rest = LinkSpan t' u' ++ rest' -> False.
Proof.
  intros Ht Ht' [Hne Hu'] E. rewrite !LinkSpan_app in E.
  injection E as E. cbn [append] in E.
  destruct (first_occurrence_unique "]" _ _ _ _ Ht Ht' E) as [_ E'].
  injection E' as E'.
  destruct (first_occurrence_unique ")" EmptyString u' _ _ eq_refl Hu' E')
    as [<- _].
  now elim Hne.
Qed.

Lemma empty_target_matchHere (t rest : string) (prev : option ascii)
    (c : ascii) :
  okText t ->
  matchHere linkRegex prev (String c (LinkSpan t EmptyString ++ rest)) = None /\
  matchHere startLinkRegex prev (LinkSpan t EmptyString ++ rest) = None /\
  matchHere imgRegex prev (ImageSpan t EmptyString ++ rest) = None.
Proof.
  intros Ht. repeat split.
  - destruct (matchHere linkRegex prev _) as [m|] eqn:Hm; [ | reflexivity].
    apply linkRegex_elim in Hm as (c' & t' & u' & rest' & _ & Ht' & Hu' & E & _).
    assert (E' : LinkSpan t EmptyString ++ rest = LinkSpan t' u' ++ rest')
      by congruence.
    now destruct (empty_target_span _ _ _ _ _ Ht Ht' Hu' E').
  - destruct (matchHere startLinkRegex prev _) as [m|] eqn:Hm; [ | reflexivity].
    apply startLinkRegex_elim in Hm
      as (t' & u' & rest' & _ & Ht' & Hu' & E & _).
    now destruct (empty_target_span _ _ _ _ _ Ht Ht' Hu' E).
  - destruct (matchHere imgRegex prev _) as [m|] eqn:Hm; [ | reflexivity].
    apply imgRegex_elim in Hm as (t' & u' & rest' & Ht' & Hu' & E & _).
    unfold ImageSpan in E. cbn [append] in E.
    assert (E' : LinkSpan t EmptyString ++ rest = LinkSpan t' u' ++ rest')
      by congruence.
    now destruct (empty_target_span _ _ _ _ _ Ht Ht' Hu' E').
Qed.

(** ** A link whose target is left alone, alone in a text *)

Lemma startLinkPass_plain_skip (c : ascii) (t u : string) :
  okText t -> okTarget u -> occurs "]" u = false -> skipLink u = true ->
  startLinkPass (String c (LinkSpan t u)) = String c (LinkSpan t u).
Proof.
  intros Ht Hu Hb Hs.
  unfold startLinkPass, ReplaceAllStringFunc, ReplaceAllStringFuncM, replaceFrom.
  change (fun (m : string) (st : unit) => (startLinkFunc m, st))
    with (pureRepl startLinkFunc).
  rewrite (pure_id _ _ startLinkRegex_nonempty); [reflexivity | ].
  intros b s' p m E Hm.
  apply startLinkRegex_elim in Hm as (t' & u' & rest & _ & Ht' & Hu' & -> & ->).
  cbn [m_text]. rewrite (startLinkFunc_span t' u' Ht' Hu').
  assert (Eu : u' = u).
  { destruct b as [|b0 b].
    - cbn [append] in E. rewrite LinkSpan_app in E. injection E as -> E.
      rewrite LinkSpan_eq in E.
      change (String "[" (t ++ String "]" (String "(" (u ++ ")"))))
        with (String "[" t ++ String "]" (String "(" (u ++ ")"))) in E.
      destruct Hu as [_ Hu]. destruct Hu' as [_ Hu'].
      apply unique_occurrence in E as [_ E].
      + injection E as E.
        now destruct (first_occurrence_unique ")" u' u rest EmptyString Hu' Hu E).
      + exact Ht.
      + cbn. rewrite occurs_app. cbn. now rewrite Hb.
    - cbn [append] in E. injection E as _ E.
      now destruct (match_in_plain_link _ _ _ _ _ _ Ht Hu Hb Hu' E). }
  subst u'. now rewrite (rewriteTarget_skip u Hs).
Qed.

Lemma rewriteMarkdownLinks_plain_skip (t u : string) :
  okText t -> okTarget u -> occurs "]" u = false -> skipLink u = true ->
  rewriteMarkdownLinks (LinkSpan t u) = LinkSpan t u /\
  forall c, c <> "!"%char ->
    rewriteMarkdownLinks (String c (LinkSpan t u)) = String c (LinkSpan t u).
Proof.
  intros Ht Hu Hb Hs. split.
  - change (rewriteMarkdownLinks (LinkSpan t u))
      with (startLinkPass (linkPass (LinkSpan t u))).
    destruct (linkPass_sole t u Ht Hu) as (u1 & -> & Hu1 & Hcase).
    rewrite (startLinkPass_sole t u1 Ht Hu1).
    destruct Hcase as [-> | [-> | (q & t' & u' & Eu & _)]].
    + now rewrite rewriteTarget_skip.
    + now rewrite !(rewriteTarget_skip u Hs).
    + rewrite Eu, occurs_app in Hb. cbn in Hb. rewrite occurs_app in Hb.
      cbn in Hb. now rewrite !orb_true_r in Hb.
  - intros c Hc.
    change (rewriteMarkdownLinks (String c (LinkSpan t u)))
      with (startLinkPass (linkPass (String c (LinkSpan t u)))).
    rewrite <- (append_nil_r (String c (LinkSpan t u))) at 1.
    rewrite (linkPass_step c t u EmptyString Hc Ht Hu), linkPass_nil.
    rewrite append_nil_r, (rewriteTarget_skip u Hs).
    now apply startLinkPass_plain_skip.
Qed.

(** * Facts about the driver *)

(** What the replacement function preserves, the loop preserves. *)
Lemma replaceLoop_invariant {St : Type} (P : St -> Prop) (re : Regexp)
    (repl : string -> St -> string * St) :
  (forall m st, P st -> P (snd (repl m st))) ->
  forall fuel prev s atEnd st,
    P st -> P (snd (replaceLoop fuel re repl prev s atEnd st)).
Proof.
  intros H fuel. induction fuel as [|fuel IH]; intros prev s atEnd st Hst;
    [exact Hst | ].
  cbn [replaceLoop].
  destruct (find re prev s) as [[before m]|]; [ | exact Hst].
  destruct before as [|b before].
  - destruct (m_text m) as [|c txt].
    + assert (H1 : P (snd (if atEnd then (EmptyString, st)
                           else repl EmptyString st))).
      { destruct atEnd; [exact Hst | now apply H]. }
      destruct (if atEnd then _ else _) as [r st1]. cbn [snd] in H1.
      destruct s as [|a s]; [exact H1 | ].
      specialize (IH (Some a) s false st1 H1).
      now destruct (replaceLoop fuel re repl (Some a) s false st1).
    + specialize (H (String c txt) st Hst).
      destruct (repl (String c txt) st) as [r st1]. cbn [snd] in H.
      specialize (IH (m_prev m) (m_rest m) true st1 H).
      now destruct (replaceLoop fuel re repl (m_prev m) (m_rest m) true st1).
  - specialize (H (m_text m) st Hst).
    destruct (repl (m_text m) st) as [r st1]. cbn [snd] in H.
    specialize (IH (m_prev m) (m_rest m) true st1 H).
    now destruct (replaceLoop fuel re repl (m_prev m) (m_rest m) true st1).
Qed.

Section Driver.

Variable render : string -> string.
Variable Dir : string -> string.
Variable Join : string -> string -> string.

Lemma imgFunc_sameFiles (baseDir m : string) (w0 w : os.World) :
  sameFiles w0 w -> sameFiles w0 (snd (imgFunc Join baseDir m w)).
Proof.
  intros H. unfold imgFunc.
  destruct (Nat.ltb _ 3); [exact H | ].
  destruct (skipImage _); [exact H | ].
  unfold os.ReadFile. destruct (os.files w _); exact H.
Qed.

Lemma embedImages_sameFiles (md baseDir : string) (w : os.World) :
  sameFiles w (snd (embedImages Join md baseDir w)).
Proof.
  unfold embedImages, ReplaceAllStringFuncM, replaceFrom.
  pose proof (replaceLoop_invariant (sameFiles w) imgRegex (imgFunc Join baseDir)
                (fun m st => imgFunc_sameFiles baseDir m w st)
                (S (String.length md)) None md false w (conj eq_refl eq_refl))
    as H.
  now destruct (replaceLoop _ _ _ _ _ _ _).
Qed.

Lemma embedImages_nil (md baseDir : string) (w : os.World) :
  snd (fst (embedImages Join md baseDir w)) = None.
Proof.
  unfold embedImages. now destruct (ReplaceAllStringFuncM _ _ _ _).
Qed.

(** The run of [convertMarkdownToHTML] on an input that can be read. *)
Lemma convertMarkdownToHTML_read (inputFile outputFile fontFamily title md : string)
    (w : os.World) :
  os.files w inputFile = inl md ->
  let '((processed, _), w1) :=
    embedImages Join (rewriteMarkdownLinks md) (Dir inputFile) w in
  convertMarkdownToHTML render Dir Join inputFile outputFile fontFamily title w =
  match os.WriteFile outputFile
          (createHTMLDocument (render processed) fontFamily title) w1 with
  | (Some err, w2) =>
      (Some (fmt.Sprintf "failed to write output file: %w" [err]), w2)
  | (None, w2) => (None, w2)
  end.
Proof.
  intros Hr. unfold convertMarkdownToHTML, os.ReadFile. rewrite Hr.
  pose proof (embedImages_nil (rewriteMarkdownLinks md) (Dir inputFile) w) as He.
  destruct (embedImages Join _ _ w) as [[processed err] w1].
  cbn [fst snd] in He. now subst err.
Qed.

End Driver.

(** * Texts the scan passes over *)

(** A stretch of text in which no match starts is copied, and the loop goes
    on after it. *)
Lemma replaceFrom_skip_many {St : Type} (re : Regexp)
    (repl : string -> St -> string * St) :
  nonEmptyRe re ->
  forall (s1 s2 : string) (prev : option ascii) (st : St),
    (forall a x b, s1 = a ++ String x b ->
                   matchHere re (lastOr prev a) (String x b ++ s2) = None) ->
    replaceFrom re repl prev (s1 ++ s2) st =
    let '(out, st') := replaceFrom re repl (lastOr prev s1) s2 st in
    (s1 ++ out, st').
Proof.
  intros N s1. induction s1 as [|x s1 IH]; intros s2 prev st H.
  - cbn [append lastOr]. now destruct (replaceFrom re repl prev s2 st).
  - cbn [append lastOr].
    rewrite (replaceFrom_skip re repl N prev x (s1 ++ s2) st
               (H EmptyString x s1 eq_refl)).
    rewrite IH.
    + now destruct (replaceFrom re repl (lastOr (Some x) s1) s2 st).
    + intros a y b E. apply (H (String x a) y b). now rewrite E.
Qed.

Lemma pure_skip_many (re : Regexp) (f : string -> string) :
  nonEmptyRe re ->
  forall (s1 s2 : string) (prev : option ascii),
    (forall a x b, s1 = a ++ String x b ->
                   matchHere re (lastOr prev a) (String x b ++ s2) = None) ->
    fst (replaceFrom re (pureRepl f) prev (s1 ++ s2) tt) =
    s1 ++ fst (replaceFrom re (pureRepl f) (lastOr prev s1) s2 tt).
Proof.
  intros N s1 s2 prev H.
  rewrite (replaceFrom_skip_many re _ N s1 s2 prev tt H).
  now destruct (replaceFrom re (pureRepl f) (lastOr prev s1) s2 tt).
Qed.

(** No link starts at a byte that is not followed by an opening bracket. *)
Lemma linkRegex_needs_bracket (prev : option ascii) (x : ascii) (s : string) :
  (forall r, s <> String "[" r) -> matchHere linkRegex prev (String x s) = None.
Proof.
  intros H. destruct (matchHere linkRegex prev (String x s)) as [m|] eqn:Hm;
    [ | reflexivity].
  apply linkRegex_elim in Hm as (c & t & u & rest & _ & _ & _ & E & _).
  rewrite LinkSpan_app in E. injection E as _ E. now elim (H _ E).
Qed.

Lemma startLinkRegex_needs_bracket (prev : option ascii) (x : ascii)
    (s : string) :
  x <> "["%char -> matchHere startLinkRegex prev (String x s) = None.
Proof.
  intros H.
  destruct (matchHere startLinkRegex prev (String x s)) as [m|] eqn:Hm;
    [ | reflexivity].
  apply startLinkRegex_elim in Hm as (t & u & rest & _ & _ & _ & E & _).
  rewrite LinkSpan_app in E. injection E as E _. now elim H.
Qed.

Lemma startLinkRegex_needs_line_start (prev : option ascii) (s : string) :
  atLineStart prev = false -> matchHere startLinkRegex prev s = None.
Proof.
  intros H. destruct (matchHere startLinkRegex prev s) as [m|] eqn:Hm;
    [ | reflexivity].
  apply startLinkRegex_elim in Hm as (t & u & rest & Hp & _). congruence.
Qed.

Lemma imgRegex_needs_bang (prev : option ascii) (x : ascii) (s : string) :
  x <> "!"%char -> matchHere imgRegex prev (String x s) = None.
Proof.
  intros H. destruct (matchHere imgRegex prev (String x s)) as [m|] eqn:Hm;
    [ | reflexivity].
  apply imgRegex_elim in Hm as (t & u & rest & _ & _ & E & _).
  unfold ImageSpan in E. cbn [append] in E. injection E as E _. now elim H.
Qed.

Lemma occurs_false_head (c x : ascii) (s : string) :
  occurs c (String x s) = false -> x <> c.
Proof.
  cbn. intros H. apply orb_false_iff in H as [H _].
  now destruct (Ascii.eqb_spec x c).
Qed.

Lemma occurs_suffix (c : ascii) (a b : string) :
  occurs c (a ++ b) = false -> occurs c b = false.
Proof. rewrite occurs_app. intros H. now apply orb_false_iff in H. Qed.

(** The first pass copies a text in which no byte is followed by an opening
    bracket. *)
Lemma linkPass_skip_many (s1 s2 : string) :
  (forall a x b, s1 = a ++ String x b -> forall r, b ++ s2 <> String "[" r) ->
  linkPass (s1 ++ s2) = s1 ++ linkPass s2.
Proof.
  intros H. unfold linkPass, ReplaceAllStringFunc, ReplaceAllStringFuncM.
  change (fun (m : string) (st : unit) => (linkFunc m, st))
    with (pureRepl linkFunc).
  rewrite (pure_skip_many _ _ linkRegex_nonempty s1 s2 None).
  - now rewrite (replaceFrom_context _ _ linkRegex_contextFree s2
                   (lastOr None s1) None).
  - intros a x b E. cbn [append]. apply linkRegex_needs_bracket.
    now apply (H a x b).
Qed.

Lemma linkPass_skip_plain (s1 s2 : string) :
  occurs "[" s1 = false -> (forall r, s2 <> String "[" r) ->
  linkPass (s1 ++ s2) = s1 ++ linkPass s2.
Proof.
  intros H1 H2. apply linkPass_skip_many. intros a x b E r Er.
  rewrite E in H1. apply occurs_suffix in H1. cbn in H1.
  apply orb_false_iff in H1 as [_ H1].
  destruct b as [|y b]; cbn [append] in Er.
  - now elim (H2 r).
  - injection Er as -> _. cbn in H1. discriminate.
Qed.

(** The second pass copies a text without an opening bracket. *)
Lemma startLinkPassFrom_skip_plain (prev : option ascii) (s1 s2 : string) :
  occurs "[" s1 = false ->
  startLinkPassFrom prev (s1 ++ s2) =
  s1 ++ startLinkPassFrom (lastOr prev s1) s2.
Proof.
  intros H. unfold startLinkPassFrom.
  apply (pure_skip_many _ _ startLinkRegex_nonempty).
  intros a x b E. cbn [append]. apply startLinkRegex_needs_bracket.
  rewrite E in H. apply occurs_suffix in H. now apply occurs_false_head in H.
Qed.

Section EmbedSkip.

Variable Join : string -> string -> string.

(** The embedder copies a text without an exclamation mark. *)
Lemma embedImages_skip_plain (s1 s2 baseDir : string) (w : os.World) :
  occurs "!" s1 = false ->
  embedImages Join (s1 ++ s2) baseDir w =
  let '((out, err), w') := embedImages Join s2 baseDir w in
  ((s1 ++ out, err), w').
Proof.
  intros H. unfold embedImages, ReplaceAllStringFuncM.
  rewrite (replaceFrom_skip_many _ _ imgRegex_nonempty s1 s2 None).
  - rewrite (replaceFrom_context _ _ imgRegex_contextFree s2
               (lastOr None s1) None).
    now destruct (replaceFrom imgRegex (imgFunc Join baseDir) None s2 w).
  - intros a x b E. cbn [append]. apply imgRegex_needs_bang.
    rewrite E in H. apply occurs_suffix in H. now apply occurs_false_head in H.
Qed.

End EmbedSkip.

(** * The link rewriter on a link inside a text *)

Lemma rewriteTarget_idem (u : string) :
  rewriteTarget (rewriteTarget u) = rewriteTarget u.
Proof.
  destruct (skipLink u) eqn:Hs.
  - now rewrite !(rewriteTarget_skip u Hs).
  - destruct (HasSuffix u ".md") eqn:Hm.
    + assert (E : rewriteTarget u = TrimSuffix u ".md" ++ ".html")
        by (unfold rewriteTarget; now rewrite Hs, Hm).
      rewrite E. apply rewriteTarget_html.
    + assert (E : rewriteTarget u = u)
        by (unfold rewriteTarget; now rewrite Hs, Hm).
      now rewrite !E.
Qed.

Lemma rewriteTarget_plain (u : string) :
  occurs "[" u = false -> occurs "[" (rewriteTarget u) = false.
Proof.
  intros H. unfold rewriteTarget. destruct (skipLink u); [exact H | ].
  destruct (HasSuffix u ".md") eqn:Hm; [ | exact H].
  apply HasSuffix_inv in Hm. rewrite Hm, occurs_app in H.
  apply orb_false_iff in H as [H _]. rewrite occurs_app, H. reflexivity.
Qed.

Lemma startLinkPassFrom_skip (prev : option ascii) (x : ascii) (s : string) :
  matchHere startLinkRegex prev (String x s) = None ->
  startLinkPassFrom prev (String x s) = String x (startLinkPassFrom (Some x) s).
Proof.
  intros H. unfold startLinkPassFrom.
  now apply (pure_skip _ _ _ _ _ startLinkRegex_nonempty).
Qed.

(** The first pass keeps the first byte of a text. *)
Lemma linkPass_head (c : ascii) (s : string) :
  exists s', linkPass (String c s) = String c s'.
Proof.
  destruct (matchHere linkRegex None (String c s)) as [m|] eqn:Hm.
  - apply linkRegex_elim in Hm as (c' & t & u & rest & Hc & Ht & Hu & E & _).
    assert (Ec : c' = c) by congruence.
    assert (Es : s = LinkSpan t u ++ rest) by congruence.
    subst c' s.
    change (String c (LinkSpan t u ++ rest))
      with (String c (LinkSpan t u) ++ rest).
    rewrite (linkPass_step c t u rest Hc Ht Hu). cbn [append]. eauto.
  - rewrite (linkPass_skip c s Hm). eauto.
Qed.

(** The second pass from just before a link that the first pass has dealt
    with: at the start of a line the link is matched again and comes out the
    same; elsewhere nothing in it is matched when it has no other opening
    bracket. *)
Lemma startLinkPassFrom_done (c : ascii) (t u rest : string) :
  okText t -> okTarget u -> occurs "[" t = false -> occurs "[" u = false ->
  startLinkPassFrom (Some c) (LinkSpan t (rewriteTarget u) ++ rest) =
  LinkSpan t (rewriteTarget u) ++ startLinkPassFrom (Some ")"%char) rest.
Proof.
  intros Ht Hu Hbt Hbu.
  pose proof (rewriteTarget_ok u Hu) as Hu1.
  pose proof (rewriteTarget_plain u Hbu) as Hbu1.
  destruct (atLineStart (Some c)) eqn:Hl.
  - rewrite (startLinkPassFrom_step (Some c) t _ rest Hl Ht Hu1).
    now rewrite rewriteTarget_idem.
  - rewrite LinkSpan_app.
    rewrite (startLinkPassFrom_skip _ _ _
               (startLinkRegex_needs_line_start _ _ Hl)).
    f_equal.
    assert (E : t ++ String "]" (String "(" (rewriteTarget u ++ String ")" rest))
                = (t ++ String "]" (String "(" (rewriteTarget u ++ ")"))) ++ rest).
    { rewrite !append_assoc. cbn. do 3 f_equal. now rewrite append_assoc. }
    rewrite E, startLinkPassFrom_skip_plain.
    + rewrite !lastOr_app. cbn [lastOr]. rewrite lastOr_app. reflexivity.
    + rewrite occurs_app. cbn. rewrite occurs_app. cbn.
      now rewrite Hbt, Hbu1.
Qed.

(** The link rewriter on a text whose first opening bracket is that of a
    link, after a byte that is neither [!] nor a bracket, when the link has
    no other opening bracket: the text before the link is kept, the link
    comes out with its target rewritten, and both passes go on after it. *)
Lemma rewriteMarkdownLinks_first_link (pre : string) (c : ascii)
    (t u rest : string) :
  occurs "[" pre = false -> c <> "!"%char -> c <> "["%char ->
  okText t -> okTarget u -> occurs "[" t = false -> occurs "[" u = false ->
  rewriteMarkdownLinks (pre ++ String c (LinkSpan t u) ++ rest) =
  pre ++ String c (LinkSpan t (rewriteTarget u)) ++
  startLinkPassFrom (Some ")"%char) (linkPass rest).
Proof.
  intros Hpre Hc Hb Ht Hu Hbt Hbu.
  change (rewriteMarkdownLinks (pre ++ String c (LinkSpan t u) ++ rest))
    with (startLinkPass (linkPass (pre ++ String c (LinkSpan t u) ++ rest))).
  rewrite linkPass_skip_plain; [ | exact Hpre | ].
  - rewrite (linkPass_step c t u rest Hc Ht Hu).
    rewrite startLinkPass_from.
    assert (E : pre ++ String c (LinkSpan t (rewriteTarget u)) ++ linkPass rest
                = (pre ++ String c EmptyString) ++
                  (LinkSpan t (rewriteTarget u) ++ linkPass rest)).
    { now rewrite append_assoc. }
    rewrite E, startLinkPassFrom_skip_plain.
    + rewrite lastOr_app. cbn [lastOr].
      rewrite (startLinkPassFrom_done c t u (linkPass rest) Ht Hu Hbt Hbu).
      now rewrite append_assoc.
    + rewrite occurs_app, Hpre. cbn.
      destruct (Ascii.eqb_spec c "["); [contradiction | reflexivity].
  - intros r E. cbn [append] in E. injection E as E _. contradiction.
Qed.

(** The link rewriter on a text that begins with a link without another
    opening bracket: the link comes out with its target rewritten, whatever
    follows it. *)
Lemma rewriteMarkdownLinks_head_link (t u rest : string) :
  okText t -> okTarget u -> occurs "[" t = false -> occurs "[" u = false ->
  exists rest',
    rewriteMarkdownLinks (LinkSpan t u ++ rest) =
    LinkSpan t (rewriteTarget u) ++ rest'.
Proof.
  intros Ht Hu Hbt Hbu.
  change (rewriteMarkdownLinks (LinkSpan t u ++ rest))
    with (startLinkPass (linkPass (LinkSpan t u ++ rest))).
  assert (E : LinkSpan t u ++ rest =
              String "[" (t ++ String "]" (String "(" u)) ++ String ")" rest).
  { rewrite LinkSpan_app. cbn. f_equal. rewrite !append_assoc. cbn.
    do 3 f_equal. }
  rewrite E, linkPass_skip_many.
  - destruct (linkPass_head ")" rest) as [x ->].
    assert (E' : String "[" (t ++ String "]" (String "(" u)) ++ String ")" x
                 = LinkSpan t u ++ x).
    { rewrite LinkSpan_app. cbn. f_equal. rewrite !append_assoc. cbn.
      do 3 f_equal. }
    rewrite E', startLinkPass_from.
    rewrite (startLinkPassFrom_step None t u x eq_refl Ht Hu). eauto.
  - intros a y b Eb r Er.
    assert (Hb : occurs "[" b = false).
    { destruct a as [|a0 a]; cbn [append] in Eb.
      - injection Eb as _ <-. rewrite occurs_app. cbn.
        now rewrite Hbt, Hbu.
      - injection Eb as _ Eb.
        assert (Hall : occurs "[" (t ++ String "]" (String "(" u)) = false).
        { rewrite occurs_app. cbn. now rewrite Hbt, Hbu. }
        rewrite Eb in Hall. apply occurs_suffix in Hall. cbn in Hall.
        now apply orb_false_iff in Hall. }
    destruct b as [|b0 b]; cbn [append] in Er.
    + discriminate.
    + injection Er as -> _. cbn in Hb. discriminate.
Qed.

(** * The scan over a link or image reference with an empty target *)

Lemma linkPass_skip_none (s1 s2 : string) :
  (forall a x b p, s1 = a ++ String x b ->
                   matchHere linkRegex p (String x b ++ s2) = None) ->
  linkPass (s1 ++ s2) = s1 ++ linkPass s2.
Proof.
  intros H. unfold linkPass, ReplaceAllStringFunc, ReplaceAllStringFuncM.
  change (fun (m : string) (st : unit) => (linkFunc m, st))
    with (pureRepl linkFunc).
  rewrite (pure_skip_many _ _ linkRegex_nonempty s1 s2 None).
  - now rewrite (replaceFrom_context _ _ linkRegex_contextFree s2
                   (lastOr None s1) None).
  - intros a x b E. now apply (H a x b).
Qed.

Lemma startLinkPassFrom_skip_none (prev : option ascii) (s1 s2 : string) :
  (forall a x b p, s1 = a ++ String x b ->
                   matchHere startLinkRegex p (String x b ++ s2) = None) ->
  startLinkPassFrom prev (s1 ++ s2) =
  s1 ++ startLinkPassFrom (lastOr prev s1) s2.
Proof.
  intros H. unfold startLinkPassFrom.
  apply (pure_skip_many _ _ startLinkRegex_nonempty).
  intros a x b E. now apply (H a x b).
Qed.

Lemma embedImages_skip_none (Join : string -> string -> string)
    (s1 s2 baseDir : string) (w : os.World) :
  (forall a x b p, s1 = a ++ String x b ->
                   matchHere imgRegex p (String x b ++ s2) = None) ->
  embedImages Join (s1 ++ s2) baseDir w =
  let '((out, err), w') := embedImages Join s2 baseDir w in
  ((s1 ++ out, err), w').
Proof.
  intros H. unfold embedImages, ReplaceAllStringFuncM.
  rewrite (replaceFrom_skip_many _ _ imgRegex_nonempty s1 s2 None).
  - rewrite (replaceFrom_context _ _ imgRegex_contextFree s2
               (lastOr None s1) None).
    now destruct (replaceFrom imgRegex (imgFunc Join baseDir) None s2 w).
  - intros a x b E. now apply (H a x b).
Qed.

(** After the closing bracket of a link with an empty target no target
    follows. *)
Lemma no_target_after (t2 post y u' rest' : string) :
  okText t2 -> okText y -> okTarget u' ->
  t2 ++ String "]" (String "(" (String ")" post)) =
  y ++ String "]" (String "(" (u' ++ String ")" rest')) ->
  False.
Proof.
  intros Ht2 Hy [Hne Hu'] E.
  destruct (first_occurrence_unique "]" _ _ _ _ Ht2 Hy E) as [_ E'].
  injection E' as E'.
  destruct (first_occurrence_unique ")" EmptyString u' _ _ eq_refl Hu' E')
    as [<- _].
  now elim Hne.
Qed.

Lemma okText_tail (x : ascii) (s : string) : okText (String x s) -> okText s.
Proof.
  unfold okText. cbn. intros H. now apply orb_false_iff in H.
Qed.

Lemma inside_empty_link (t2 post : string) (p : option ascii) :
  okText t2 ->
  matchHere linkRegex p (t2 ++ String "]" (String "(" (String ")" post))) = None.
Proof.
  intros Ht2.
  destruct (matchHere linkRegex p _) as [m|] eqn:Hm; [ | reflexivity].
  apply linkRegex_elim in Hm as (c & t' & u' & rest' & _ & Ht' & Hu' & E & _).
  exfalso. rewrite LinkSpan_app in E. destruct t2 as [|x t3].
  - cbn [append] in E. discriminate.
  - cbn [append] in E. injection E as _ E.
    apply (no_target_after t3 post (String "[" t') u' rest');
      [now apply okText_tail in Ht2 | exact Ht' | exact Hu' | exact E].
Qed.

Lemma inside_empty_startLink (t2 post : string) (p : option ascii) :
  okText t2 ->
  matchHere startLinkRegex p (t2 ++ String "]" (String "(" (String ")" post)))
  = None.
Proof.
  intros Ht2.
  destruct (matchHere startLinkRegex p _) as [m|] eqn:Hm; [ | reflexivity].
  apply startLinkRegex_elim in Hm as (t' & u' & rest' & _ & Ht' & Hu' & E & _).
  exfalso. rewrite LinkSpan_app in E.
  apply (no_target_after t2 post (String "[" t') u' rest');
    [exact Ht2 | exact Ht' | exact Hu' | exact E].
Qed.

Lemma inside_empty_img (t2 post : string) (p : option ascii) :
  okText t2 ->
  matchHere imgRegex p (t2 ++ String "]" (String "(" (String ")" post))) = None.
Proof.
  intros Ht2.
  destruct (matchHere imgRegex p _) as [m|] eqn:Hm; [ | reflexivity].
  apply imgRegex_elim in Hm as (t' & u' & rest' & Ht' & Hu' & E & _).
  exfalso. unfold ImageSpan in E. cbn [append] in E. rewrite LinkSpan_app in E.
  apply (no_target_after t2 post (String "!" (String "[" t')) u' rest');
    [exact Ht2 | exact Ht' | exact Hu' | exact E].
Qed.

Lemma emptyTail_app (t post : string) :
  LinkSpan t EmptyString ++ post =
  String "[" t ++ String "]" (String "(" (String ")" post)).
Proof. now rewrite LinkSpan_app. Qed.

Lemma okText_suffix (a b : string) : okText (a ++ b) -> okText b.
Proof. unfold okText. apply occurs_suffix. Qed.

(** The first pass from the byte before a link with an empty target: the
    byte and the link are copied, whatever follows. *)
Lemma linkPass_empty_target (c : ascii) (t post : string) :
  okText t ->
  exists post',
    linkPass (String c (LinkSpan t EmptyString ++ post)) =
    String c (LinkSpan t EmptyString ++ post').
Proof.
  intros Ht.
  destruct (linkPass_head ")" post) as [post' Hp]. exists post'.
  rewrite (linkPass_skip c _
             (proj1 (empty_target_matchHere t post None c Ht))).
  f_equal. rewrite !emptyTail_app.
  rewrite linkPass_skip_none.
  - f_equal.
    rewrite (linkPass_skip "]" _ (inside_empty_link EmptyString post None eq_refl)).
    f_equal.
    rewrite (linkPass_skip "(" _
               (linkRegex_needs_bracket None "(" (String ")" post)
                  ltac:(intros r; discriminate))).
    now rewrite Hp.
  - intros a x b p E. apply inside_empty_link.
    apply (okText_suffix a). rewrite <- E. exact Ht.
Qed.

(** The first pass at a link with an empty target: the link is copied,
    whatever follows. *)
Lemma linkPass_empty_target_head (t post : string) :
  okText t ->
  exists post',
    linkPass (LinkSpan t EmptyString ++ post) = LinkSpan t EmptyString ++ post'.
Proof.
  intros Ht.
  destruct (linkPass_head ")" post) as [post' Hp]. exists post'.
  rewrite !emptyTail_app. rewrite linkPass_skip_none.
  - f_equal.
    rewrite (linkPass_skip "]" _ (inside_empty_link EmptyString post None eq_refl)).
    f_equal.
    rewrite (linkPass_skip "(" _
               (linkRegex_needs_bracket None "(" (String ")" post)
                  ltac:(intros r; discriminate))).
    now rewrite Hp.
  - intros a x b p E. apply inside_empty_link.
    apply (okText_suffix a). rewrite <- E. exact Ht.
Qed.

(** The second pass at a link with an empty target: the link is copied and
    the pass goes on after it. *)
Lemma startLinkPassFrom_empty_target (prev : option ascii) (t post : string) :
  okText t ->
  startLinkPassFrom prev (LinkSpan t EmptyString ++ post) =
  LinkSpan t EmptyString ++ startLinkPassFrom (Some ")"%char) post.
Proof.
  intros Ht. rewrite !emptyTail_app.
  rewrite startLinkPassFrom_skip_none.
  - f_equal.
    rewrite (startLinkPassFrom_skip _ "]" _
               (startLinkRegex_needs_bracket _ "]" _ ltac:(discriminate))).
    rewrite (startLinkPassFrom_skip _ "(" _
               (startLinkRegex_needs_bracket _ "(" _ ltac:(discriminate))).
    rewrite (startLinkPassFrom_skip _ ")" _
               (startLinkRegex_needs_bracket _ ")" _ ltac:(discriminate))).
    reflexivity.
  - intros a x b p E. apply inside_empty_startLink.
    apply (okText_suffix a). rewrite <- E. exact Ht.
Qed.

(** The embedder at a link or an image reference with an empty target,
    [y] being the text up to its closing bracket: the text is copied,
    nothing is printed, and the embedder goes on after it. *)
Lemma embedImages_empty_tail (Join : string -> string -> string)
    (y post baseDir : string) (w : os.World) :
  okText y ->
  embedImages Join (y ++ String "]" (String "(" (String ")" post))) baseDir w =
  let '((out, err), w') := embedImages Join post baseDir w in
  ((y ++ String "]" (String "(" (String ")" out)), err), w').
Proof.
  intros Hy. rewrite embedImages_skip_none.
  - assert (Hs : forall (x : ascii) (s : string), x <> "!"%char ->
               embedImages Join (String x s) baseDir w =
               let '((out, err), w') := embedImages Join s baseDir w in
               ((String x out, err), w')).
    { intros x s Hx.
      apply (embedImages_skip_plain Join (String x EmptyString) s baseDir w).
      cbn. destruct (Ascii.eqb_spec x "!"); [contradiction | reflexivity]. }
    rewrite (Hs "]"%char) by discriminate.
    rewrite (Hs "("%char) by discriminate.
    rewrite (Hs ")"%char) by discriminate.
    now destruct (embedImages Join post baseDir w) as [[out err] w'].
  - intros a x b p Eb. apply inside_empty_img.
    apply (okText_suffix a). rewrite <- Eb. exact Hy.
Qed.

Lemma embedImages_empty_target (Join : string -> string -> string)
    (t post baseDir : string) (w : os.World) :
  okText t ->
  embedImages Join (ImageSpan t EmptyString ++ post) baseDir w =
    (let '((out, err), w') := embedImages Join post baseDir w in
     ((ImageSpan t EmptyString ++ out, err), w')) /\
  embedImages Join (LinkSpan t EmptyString ++ post) baseDir w =
    (let '((out, err), w') := embedImages Join post baseDir w in
     ((LinkSpan t EmptyString ++ out, err), w')).
Proof.
  intros Ht. split.
  - assert (E : forall r, ImageSpan t EmptyString ++ r =
                  String "!" (String "[" t) ++
                  String "]" (String "(" (String ")" r))).
    { intros r. unfold ImageSpan. cbn [append]. now rewrite emptyTail_app. }
    rewrite E, (embedImages_empty_tail Join (String "!" (String "[" t)) post
                  baseDir w Ht).
    destruct (embedImages Join post baseDir w) as [[out err] w'].
    now rewrite E.
  - rewrite emptyTail_app,
      (embedImages_empty_tail Join (String "[" t) post baseDir w Ht).
    destruct (embedImages Join post baseDir w) as [[out err] w'].
    now rewrite emptyTail_app.
Qed.

(** * The first link, the first image reference of a text *)


Lemma startLinkPassFrom_first (prev : option ascii) (pre t u rest : string) :
  occurs "[" pre = false -> atLineStart (lastOr prev pre) = true ->
  okText t -> okTarget u ->
  startLinkPassFrom prev (pre ++ LinkSpan t u ++ rest) =
  pre ++ LinkSpan t (rewriteTarget u) ++ startLinkPassFrom (Some ")"%char) rest.
Proof.
  intros Hpre Hl Ht Hu. rewrite (startLinkPassFrom_skip_plain _ _ _ Hpre).
  now rewrite (startLinkPassFrom_step _ t u rest Hl Ht Hu).
Qed.


(** * Tests of the targets *)

Lemma skipLink_true (u : string) :
  HasPrefix u "http://" = true \/ HasPrefix u "https://" = true \/
  HasPrefix u "#" = true ->
  skipLink u = true.
Proof.
  unfold skipLink. intros [H | [H | H]]; rewrite H;
    rewrite ?orb_true_r; reflexivity.
Qed.

Lemma skipLink_false (u : string) :
  skipLink u = false <->
  HasPrefix u "http://" = false /\ HasPrefix u "https://" = false /\
  HasPrefix u "#" = false.
Proof.
  unfold skipLink. rewrite !orb_false_iff. tauto.
Qed.

Lemma skipImage_true (u : string) :
  HasPrefix u "http://" = true \/ HasPrefix u "https://" = true \/
  HasPrefix u "data:" = true ->
  skipImage u = true.
Proof.
  unfold skipImage. intros [H | [H | H]]; rewrite H;
    rewrite ?orb_true_r; reflexivity.
Qed.

Lemma skipImage_false (u : string) :
  skipImage u = false <->
  HasPrefix u "http://" = false /\ HasPrefix u "https://" = false /\
  HasPrefix u "data:" = false.
Proof.
  unfold skipImage. rewrite !orb_false_iff. tauto.
Qed.

Lemma okTarget_md (v : string) : occurs ")" v = false -> okTarget (v ++ ".md").
Proof.
  intros Hv. split; [destruct v; discriminate | ].
  rewrite occurs_app, Hv. reflexivity.
Qed.

(** * Lower-casing, character by character *)

(** ** Characters and their encoding *)

Section Utf8Facts.

Import utf8.
Local Open Scope Z_scope.

Lemma byteVal_range (c : ascii) : 0 <= byteVal c < 256.
Proof.
  unfold byteVal. pose proof (N_ascii_bounded c) as H.
  split; [apply N2Z.is_nonneg | ].
  change 256 with (Z.of_N 256). now apply N2Z.inj_lt.
Qed.

Lemma toByte_byteVal (c : ascii) : toByte (byteVal c) = c.
Proof.
  unfold toByte. rewrite Z.mod_small by apply byteVal_range.
  unfold byteVal. rewrite N2Z.id. apply ascii_N_embedding.
Qed.

Lemma byteVal_toByte (z : Z) : 0 <= z < 256 -> byteVal (toByte z) = z.
Proof.
  intros H. unfold toByte, byteVal. rewrite Z.mod_small by exact H.
  rewrite N_ascii_embedding.
  - apply Z2N.id. lia.
  - change 256%N with (Z.to_N 256). apply Z2N.inj_lt; lia.
Qed.

Lemma byteVal_inj (a b : ascii) : byteVal a = byteVal b -> a = b.
Proof.
  intros H. rewrite <- (toByte_byteVal a), <- (toByte_byteVal b). now rewrite H.
Qed.

Lemma byteVal_nat (c : ascii) : byteVal c = Z.of_nat (nat_of_ascii c).
Proof. unfold byteVal, nat_of_ascii. now rewrite N_nat_Z. Qed.

Lemma In_range (lo : Z) (n : nat) (z : Z) :
  lo <= z < lo + Z.of_nat n -> In z (range lo n).
Proof.
  intros H. unfold range. apply in_map_iff.
  exists (Z.to_nat (z - lo)). split; [lia | ].
  apply in_seq. lia.
Qed.

Lemma lor_lower (a b : Z) : 0 <= a -> 0 <= b -> a <= Z.lor a b.
Proof.
  intros Ha Hb.
  assert (E : Z.lor a b = a + Z.ldiff b a).
  { rewrite Z.add_nocarry_lxor by (Z.bitblast; try btauto).
    Z.bitblast; try btauto. }
  rewrite E. assert (0 <= Z.ldiff b a) by (apply Z.ldiff_nonneg; lia). lia.
Qed.

End Utf8Facts.

Section Utf8Decode.

Import utf8.
Local Open Scope Z_scope.

Lemma forall_range (P : Z -> bool) (lo : Z) (n : nat) :
  forallb P (range lo n) = true ->
  forall z, lo <= z < lo + Z.of_nat n -> P z = true.
Proof.
  intros H z Hz. rewrite forallb_forall in H. apply H. now apply In_range.
Qed.

Lemma AppendRune_ascii (r : Z) :
  0 <= r < 128 -> AppendRune r = String (toByte r) EmptyString.
Proof.
  intros H. unfold AppendRune, rune1Max.
  destruct (Z.leb_spec 0 r); [ | lia].
  destruct (Z.leb_spec r 0x7F); [reflexivity | lia].
Qed.

Lemma lead_byte (k : Z) (n : nat) (y : Z) :
  forallb (fun y => (128 <=? Z.lor k y) && (Z.lor k y <? 256)) (range 0 n) = true ->
  0 <= y < Z.of_nat n ->
  128 <= byteVal (toByte (Z.lor k y)).
Proof.
  intros H Hy.
  pose proof (forall_range _ 0 n H y ltac:(lia)) as E. cbv beta in E.
  apply andb_true_iff in E as [E1 E2].
  apply Z.leb_le in E1. apply Z.ltb_lt in E2.
  rewrite byteVal_toByte; lia.
Qed.

(** A character outside ASCII is written with a first byte outside ASCII. *)
Lemma AppendRune_high (r : Z) :
  r < 0 \/ 128 <= r ->
  exists b t, AppendRune r = String b t /\ 128 <= byteVal b.
Proof.
  intros H. unfold AppendRune, rune1Max, rune2Max, rune3Max, MaxRune,
    surrogateMin, surrogateMax, RuneError, t2, t3, t4.
  destruct ((0 <=? r) && (r <=? 0x7F)) eqn:E1.
  { apply andb_true_iff in E1 as [A B]. apply Z.leb_le in A, B. lia. }
  destruct ((0 <=? r) && (r <=? 0x7FF)) eqn:E2.
  { apply andb_true_iff in E2 as [A B]. apply Z.leb_le in A, B.
    eexists _, _. split; [reflexivity | ].
    apply (lead_byte 0xC0 32); [vm_compute; reflexivity | ].
    rewrite Z.shiftr_div_pow2 by lia. change (2 ^ 6) with 64.
    split; [apply Z.div_pos; lia | apply Z.div_lt_upper_bound; lia]. }
  destruct ((r <? 0) || (0x10FFFF <? r) || ((0xD800 <=? r) && (r <=? 0xDFFF)))
    eqn:E3.
  { eexists _, _. split; [reflexivity | ]. vm_compute. discriminate. }
  apply orb_false_iff in E3 as [E3 _]. apply orb_false_iff in E3 as [A B].
  apply Z.ltb_ge in A, B.
  destruct (Z.leb_spec r 0xFFFF).
  - eexists _, _. split; [reflexivity | ].
    apply (lead_byte 0xE0 16); [vm_compute; reflexivity | ].
    rewrite Z.shiftr_div_pow2 by lia. change (2 ^ 12) with 4096.
    split; [apply Z.div_pos; lia | apply Z.div_lt_upper_bound; lia].
  - eexists _, _. split; [reflexivity | ].
    apply (lead_byte 0xF0 8); [vm_compute; reflexivity | ].
    rewrite Z.shiftr_div_pow2 by lia. change (2 ^ 18) with 262144.
    split; [apply Z.div_pos; lia | apply Z.div_lt_upper_bound; lia].
Qed.

Lemma AppendRune_cons (r : Z) : exists b t, AppendRune r = String b t.
Proof.
  destruct (Z.lt_ge_cases r 0) as [H|H].
  - destruct (AppendRune_high r (or_introl H)) as (b & t & E & _). now exists b, t.
  - destruct (Z.lt_ge_cases r 128) as [H1|H1].
    + rewrite AppendRune_ascii by lia. now eexists _, _.
    + destruct (AppendRune_high r (or_intror H1)) as (b & t & E & _).
      now exists b, t.
Qed.

Lemma Decode_ascii (c0 : ascii) (t : string) :
  byteVal c0 < 128 -> DecodeRuneInString (String c0 t) = (byteVal c0, 1%nat).
Proof.
  intros H. unfold DecodeRuneInString, first.
  destruct (Z.ltb_spec (byteVal c0) 0x80); [ | lia].
  change (as_ <=? as_) with true. cbv iota.
  change (Z.odd as_) with false. cbv iota zeta.
  now rewrite Z.ldiff_0_r, Z.land_0_r, Z.lor_0_r.
Qed.

(** The classes of the first bytes outside ASCII. *)
Lemma first_high (s0 : Z) :
  128 <= s0 < 256 ->
  first s0 = xx \/
  (0xC2 <= s0 <= 0xDF /\ first s0 = 0x02) \/
  (s0 = 0xE0 /\ first s0 = 0x13) \/
  ((0xE1 <= s0 <= 0xEC \/ 0xEE <= s0 <= 0xEF) /\ first s0 = 0x03) \/
  (s0 = 0xED /\ first s0 = 0x23) \/
  (s0 = 0xF0 /\ first s0 = 0x34) \/
  (0xF1 <= s0 <= 0xF3 /\ first s0 = 0x04) \/
  (s0 = 0xF4 /\ first s0 = 0x44).
Proof.
  intros H. unfold first.
  repeat match goal with
         | |- context [if ?a <? ?b then _ else _] => destruct (Z.ltb_spec a b)
         | |- context [if ?a =? ?b then _ else _] => destruct (Z.eqb_spec a b)
         end; try lia; tauto.
Qed.

End Utf8Decode.

Section Utf8Characters.

Import utf8.
Local Open Scope Z_scope.

Lemma check2_all :
  forallb (fun s0 => forallb (fun s1 => check2 s0 s1) (range 0x80 64))
    (range 0xC2 30) = true.
Proof. vm_compute. reflexivity. Qed.

Lemma check3_all :
  forallb (fun s0 => forallb (fun s1 => forallb (fun s2 => check3 s0 s1 s2)
    (range 0x80 64)) (range 0x80 64)) (range 0xE0 16) = true.
Proof. vm_compute. reflexivity. Qed.

Lemma check4_all :
  forallb (fun s0 => forallb (fun s1 => check4 s0 s1) (range 0x80 64))
    (range 0xF0 5) = true.
Proof. vm_compute. reflexivity. Qed.

(** Two bytes encode a character from 128 on, which is the capital I with
    a dot, U+0130, for the bytes C4 B0 only, and never the Kelvin sign. *)
Lemma dec2_values (s0 s1 : Z) :
  0xC2 <= s0 <= 0xDF -> 0x80 <= s1 <= 0xBF ->
  128 <= dec2 s0 s1 /\
  (dec2 s0 s1 = 0x130 -> s0 = 0xC4 /\ s1 = 0xB0) /\
  dec2 s0 s1 <> 0x212A.
Proof.
  intros H0 H1.
  pose proof (forall_range _ _ _ check2_all s0 ltac:(lia)) as B. cbv beta in B.
  pose proof (forall_range _ _ _ B s1 ltac:(lia)) as C. cbv beta in C.
  unfold check2 in C.
  apply andb_true_iff in C as [C C3]. apply andb_true_iff in C as [C1 C2].
  apply Z.leb_le in C1. split; [exact C1 | ]. split.
  - intros E. apply Z.eqb_eq in E. rewrite E in C2. cbn [implb] in C2.
    apply andb_true_iff in C2 as [X Y]. now apply Z.eqb_eq in X, Y.
  - intros E. apply Z.eqb_eq in E. now rewrite E in C3.
Qed.

(** Three bytes encode a character from 128 on, which is the Kelvin sign,
    U+212A, for the bytes E2 84 AA only, and never U+0130. *)
Lemma dec3_values (s0 s1 s2 : Z) :
  0xE0 <= s0 <= 0xEF -> 0x80 <= s1 <= 0xBF -> (s0 = 0xE0 -> 0xA0 <= s1) ->
  0x80 <= s2 <= 0xBF ->
  128 <= dec3 s0 s1 s2 /\
  dec3 s0 s1 s2 <> 0x130 /\
  (dec3 s0 s1 s2 = 0x212A -> s0 = 0xE2 /\ s1 = 0x84 /\ s2 = 0xAA).
Proof.
  intros H0 H1 H1' H2.
  pose proof (forall_range _ _ _ check3_all s0 ltac:(lia)) as B. cbv beta in B.
  pose proof (forall_range _ _ _ B s1 ltac:(lia)) as C. cbv beta in C.
  pose proof (forall_range _ _ _ C s2 ltac:(lia)) as D. cbv beta in D.
  unfold check3 in D.
  assert (G : implb (s0 =? 0xE0) (0xA0 <=? s1) = true).
  { destruct (Z.eqb_spec s0 0xE0) as [E|E]; [ | reflexivity].
    cbn [implb]. apply Z.leb_le. now apply H1'. }
  rewrite G in D. cbn [implb] in D.
  apply andb_true_iff in D as [D D3]. apply andb_true_iff in D as [D1 D2].
  apply Z.leb_le in D1. split; [exact D1 | ]. split.
  - intros E. apply Z.eqb_eq in E. now rewrite E in D2.
  - intros E. apply Z.eqb_eq in E. rewrite E in D3. cbn [implb] in D3.
    apply andb_true_iff in D3 as [X Y']. apply andb_true_iff in X as [X Y].
    now apply Z.eqb_eq in X, Y, Y'.
Qed.

(** Four bytes encode a character from U+10000 on. *)
Lemma dec4_values (s0 s1 s2 s3 : Z) :
  0xF0 <= s0 <= 0xF4 -> 0x80 <= s1 <= 0xBF -> (s0 = 0xF0 -> 0x90 <= s1) ->
  0x10000 <= dec4 s0 s1 s2 s3.
Proof.
  intros H0 H1 H1'.
  pose proof (forall_range _ _ _ check4_all s0 ltac:(lia)) as B. cbv beta in B.
  pose proof (forall_range _ _ _ B s1 ltac:(lia)) as C. cbv beta in C.
  unfold check4 in C.
  assert (G : implb (s0 =? 0xF0) (0x90 <=? s1) = true).
  { destruct (Z.eqb_spec s0 0xF0) as [E|E]; [ | reflexivity].
    cbn [implb]. apply Z.leb_le. now apply H1'. }
  rewrite G in C. cbn [implb] in C. apply Z.leb_le in C.
  unfold dec4.
  set (ab := Z.lor (Z.shiftl (Z.land s0 mask4) 18)
                   (Z.shiftl (Z.land s1 maskx) 12)) in *.
  assert (N2 : 0 <= Z.shiftl (Z.land s2 maskx) 6).
  { apply Z.shiftl_nonneg, Z.land_nonneg. right. unfold maskx. lia. }
  assert (N3 : 0 <= Z.land s3 maskx).
  { apply Z.land_nonneg. right. unfold maskx. lia. }
  pose proof (lor_lower ab _ ltac:(lia) N2) as L1.
  pose proof (lor_lower (Z.lor ab (Z.shiftl (Z.land s2 maskx) 6)) _
                ltac:(lia) N3) as L2.
  lia.
Qed.

Ltac decode_class x sz lo hi :=
  change (as_ <=? x) with false;
  change (Z.to_nat (Z.land x 7)) with sz;
  change (acceptRanges (Z.shiftr x 4)) with (lo, hi);
  cbv beta iota zeta;
  cbn [fst snd Nat.leb Nat.ltb String.length].

Ltac decode_test :=
  match goal with
  | |- context [(?a <? ?b) || (?c <? ?d)] =>
      destruct (Z.ltb_spec a b);
      [cbn [orb] | destruct (Z.ltb_spec c d); cbn [orb]]
  end.

Ltac decode_error :=
  exists RuneError, 1%nat; split; [reflexivity | ];
  split; [unfold RuneError; lia | ]; split; discriminate.

Ltac decode_three B :=
  let V1 := fresh "Va" in let V2 := fresh "Vb" in let V3 := fresh "Vc" in
  let V := fresh "Vr" in let X := fresh "X" in let Y := fresh "Y" in
  let Z' := fresh "Y" in
  match goal with
  | |- context [String ?c0 (String ?c1 (String ?c2 ?t2))] =>
      fold (dec3 (byteVal c0) (byteVal c1) (byteVal c2));
      destruct (dec3_values (byteVal c0) (byteVal c1) (byteVal c2)
                  ltac:(lia) ltac:(lia) ltac:(lia) ltac:(lia))
        as (V1 & V2 & V3);
      eexists _, _; split; [reflexivity | ]; split; [exact V1 | ]; split;
      [ intros V; now elim V2
      | intros V; destruct (V3 V) as (X & Y & Z'); exists t2;
        split; [ | reflexivity];
        cbn [kelvin append];
        rewrite <- (toByte_byteVal c0), <- (toByte_byteVal c1),
          <- (toByte_byteVal c2), X, Y, Z'; reflexivity ]
  end.

Ltac decode_four B :=
  match goal with
  | |- context [String ?c0 (String ?c1 (String ?c2 (String ?c3 ?t3)))] =>
      fold (dec4 (byteVal c0) (byteVal c1) (byteVal c2) (byteVal c3));
      pose proof (dec4_values (byteVal c0) (byteVal c1) (byteVal c2)
                    (byteVal c3) ltac:(lia) ltac:(lia) ltac:(lia));
      let V := fresh "Vr" in
      eexists _, _; split; [reflexivity | ]; split; [lia | ]; split;
      intros V; exfalso; lia
  end.

(** What the decoder reads where a byte outside ASCII stands: a character
    from 128 on, U+0130 where the bytes C4 B0 stand and nowhere else, and
    U+212A where the bytes E2 84 AA stand and nowhere else. *)
Lemma Decode_high (c0 : ascii) (t : string) :
  128 <= byteVal c0 ->
  exists r w,
    DecodeRuneInString (String c0 t) = (r, w) /\ 128 <= r /\
    (r = 0x130 -> exists t', String c0 t = dottedI ++ t' /\ w = 2%nat) /\
    (r = 0x212A -> exists t', String c0 t = kelvin ++ t' /\ w = 3%nat).
Proof.
  intros H. pose proof (byteVal_range c0) as R0.
  unfold DecodeRuneInString.
  destruct (first_high (byteVal c0) ltac:(lia))
    as [E | [[B E] | [[B E] | [[B E] | [[B E] | [[B E] | [[B E] | [B E]]]]]]]];
    rewrite E.
  - change (as_ <=? xx) with true. cbv iota.
    change (Z.odd xx) with true. cbv iota zeta.
    rewrite Z.ldiff_m1_r, Z.land_m1_r, Z.lor_0_l. decode_error.
  - decode_class 0x02 2%nat 0x80 0xBF.
    destruct t as [|c1 t1]; [decode_error | ].
    cbn [Nat.leb String.length].
    decode_test; [decode_error | decode_error | ].
    fold (dec2 (byteVal c0) (byteVal c1)).
    destruct (dec2_values (byteVal c0) (byteVal c1) B ltac:(lia))
      as (V1 & V2 & V3).
    eexists _, _. split; [reflexivity | ]. split; [exact V1 | ]. split.
    + intros V. destruct (V2 V) as [X Y]. exists t1. split; [ | reflexivity].
      cbn [dottedI append].
      rewrite <- (toByte_byteVal c0), <- (toByte_byteVal c1), X, Y.
      reflexivity.
    + intros V. now elim V3.
  - decode_class 0x13 3%nat 0xA0 0xBF.
    destruct t as [|c1 [|c2 t2]]; try decode_error.
    cbn [Nat.leb String.length].
    decode_test; [decode_error | decode_error | ].
    decode_test; [decode_error | decode_error | ].
    unfold locb, hicb in *. decode_three B.
  - decode_class 0x03 3%nat 0x80 0xBF.
    destruct t as [|c1 [|c2 t2]]; try decode_error.
    cbn [Nat.leb String.length].
    decode_test; [decode_error | decode_error | ].
    decode_test; [decode_error | decode_error | ].
    unfold locb, hicb in *. decode_three B.
  - decode_class 0x23 3%nat 0x80 0x9F.
    destruct t as [|c1 [|c2 t2]]; try decode_error.
    cbn [Nat.leb String.length].
    decode_test; [decode_error | decode_error | ].
    decode_test; [decode_error | decode_error | ].
    unfold locb, hicb in *. decode_three B.
  - decode_class 0x34 4%nat 0x90 0xBF.
    destruct t as [|c1 [|c2 [|c3 t3]]]; try decode_error.
    cbn [Nat.leb String.length].
    decode_test; [decode_error | decode_error | ].
    decode_test; [decode_error | decode_error | ].
    decode_test; [decode_error | decode_error | ].
    unfold locb, hicb in *. decode_four B.
  - decode_class 0x04 4%nat 0x80 0xBF.
    destruct t as [|c1 [|c2 [|c3 t3]]]; try decode_error.
    cbn [Nat.leb String.length].
    decode_test; [decode_error | decode_error | ].
    decode_test; [decode_error | decode_error | ].
    decode_test; [decode_error | decode_error | ].
    unfold locb, hicb in *. decode_four B.
  - decode_class 0x44 4%nat 0x80 0x8F.
    destruct t as [|c1 [|c2 [|c3 t3]]]; try decode_error.
    cbn [Nat.leb String.length].
    decode_test; [decode_error | decode_error | ].
    decode_test; [decode_error | decode_error | ].
    decode_test; [decode_error | decode_error | ].
    unfold locb, hicb in *. decode_four B.
Qed.

Lemma Decode_dottedI (t : string) :
  DecodeRuneInString (dottedI ++ t) = (0x130, 2%nat).
Proof. reflexivity. Qed.

Lemma Decode_kelvin (t : string) :
  DecodeRuneInString (kelvin ++ t) = (0x212A, 3%nat).
Proof. reflexivity. Qed.

End Utf8Characters.

Section UnicodeLower.

Local Open Scope Z_scope.

Lemma CaseRanges_lower :
  forallb lowerOutsideASCII unicode.CaseRanges = true.
Proof. vm_compute. reflexivity. Qed.

Lemma to_high (r : Z) (l : list (Z * Z * Z)) :
  forallb lowerOutsideASCII l = true -> 128 <= r ->
  128 <= unicode.to r l \/
  (r = 0x130 /\ unicode.to r l = 0x69) \/
  (r = 0x212A /\ unicode.to r l = 0x6B).
Proof.
  intros Hl Hr. induction l as [|[[lo hi] delta] l IH]; cbn [unicode.to].
  - now left.
  - cbn [forallb] in Hl. apply andb_true_iff in Hl as [H Hl].
    destruct ((lo <=? r) && (r <=? hi)) eqn:E; [ | now apply IH].
    apply andb_true_iff in E as [E1 E2]. apply Z.leb_le in E1, E2.
    unfold lowerOutsideASCII in H.
    destruct (Z.ltb_spec hi 128) as [L0|L0]; [lia | ]. cbn [orb] in H.
    destruct (unicode.MaxRune <? delta).
    + apply Z.leb_le in H. left.
      assert (0 <= Z.lor (Z.ldiff (r - lo) 1) 1).
      { apply Z.lor_nonneg. split; [ | lia]. apply Z.ldiff_nonneg. lia. }
      lia.
    + destruct (Z.leb_spec 128 (lo + delta)) as [L|L]; [left; lia | ].
      cbn [orb] in H. apply andb_true_iff in H as [H1 H2].
      apply Z.eqb_eq in H1. apply orb_true_iff in H2 as [H2|H2];
        apply andb_true_iff in H2 as [A B]; apply Z.eqb_eq in A, B; right.
      * left. lia.
      * right. lia.
Qed.

(** The lower case of a character outside ASCII is outside ASCII, but for
    U+0130, whose lower case is [i], and U+212A, whose lower case is [k]. *)
Lemma ToLower_high (r : Z) :
  128 <= r ->
  128 <= unicode.ToLower r \/
  (r = 0x130 /\ unicode.ToLower r = 0x69) \/
  (r = 0x212A /\ unicode.ToLower r = 0x6B).
Proof.
  intros H. unfold unicode.ToLower, unicode.MaxASCII.
  destruct (Z.leb_spec r 0x7F); [lia | ].
  apply to_high; [exact CaseRanges_lower | exact H].
Qed.

Lemma ToLower_ascii (c : ascii) :
  utf8.byteVal c < 128 ->
  utf8.toByte (unicode.ToLower (utf8.byteVal c)) = strings.lowerByte c /\
  0 <= unicode.ToLower (utf8.byteVal c) < 128.
Proof.
  intros H.
  destruct c as [[] [] [] [] [] [] [] []];
    try (exfalso; cbv in H; discriminate H);
    (split; [reflexivity | cbv; split; congruence]).
Qed.

End UnicodeLower.

Section MapFacts.

Local Open Scope Z_scope.

Variable mapping : Z -> Z.

Lemma Map_ascii (c : ascii) (s : string) :
  utf8.byteVal c < 128 ->
  Map mapping (String c s) =
  (utf8.AppendRune (mapping (utf8.byteVal c)) ++ Map mapping s)%string.
Proof.
  intros H. unfold Map. cbn [mapFrom].
  now rewrite (Decode_ascii c s H).
Qed.

Lemma Map_dottedI (s : string) :
  Map mapping (dottedI ++ s) =
  (utf8.AppendRune (mapping 0x130) ++ Map mapping s)%string.
Proof. reflexivity. Qed.

Lemma Map_kelvin (s : string) :
  Map mapping (kelvin ++ s) =
  (utf8.AppendRune (mapping 0x212A) ++ Map mapping s)%string.
Proof. reflexivity. Qed.

End MapFacts.

Section LowerFacts.

Local Open Scope Z_scope.

Lemma lowerASCII_id (s : string) : hasUpper s = false -> lowerASCII s = s.
Proof.
  induction s as [|c s IH]; cbn [hasUpper lowerASCII]; [reflexivity | ].
  intros H. apply orb_false_iff in H as [H1 H2].
  unfold lowerByte. rewrite H1. now rewrite IH.
Qed.

Lemma nat_lt_byteVal (c : ascii) :
  Nat.ltb (nat_of_ascii c) 128 = true -> utf8.byteVal c < 128.
Proof. intros H. apply Nat.ltb_lt in H. rewrite byteVal_nat. lia. Qed.

Lemma byteVal_nat_ge (c : ascii) :
  Nat.ltb (nat_of_ascii c) 128 = false -> 128 <= utf8.byteVal c.
Proof. intros H. apply Nat.ltb_ge in H. rewrite byteVal_nat. lia. Qed.

Lemma Map_lower_ascii (c : ascii) (s : string) :
  utf8.byteVal c < 128 ->
  Map unicode.ToLower (String c s) = String (lowerByte c) (Map unicode.ToLower s).
Proof.
  intros H. rewrite (Map_ascii _ c s H).
  destruct (ToLower_ascii c H) as [E R].
  now rewrite (AppendRune_ascii _ R), E.
Qed.

End LowerFacts.

Lemma foldCheck_all :
  forallb (fun nb => forallb (foldCheck nb) (seq 0 128)) (seq 0 128) = true.
Proof. vm_compute. reflexivity. Qed.

Lemma plainByte_lt (c : ascii) :
  plainByte c = true -> (nat_of_ascii c < 128)%nat.
Proof.
  unfold plainByte. intros H. apply andb_true_iff in H as [H _].
  now apply Nat.ltb_lt in H.
Qed.

Lemma lowerByte_fold (b c : ascii) :
  (nat_of_ascii b < 128)%nat -> plainByte c = true ->
  Ascii.eqb (lowerByte b) c = Ascii.eqb b c || Ascii.eqb b (upperByte c).
Proof.
  intros Hb Hc. pose proof (plainByte_lt c Hc) as Hc'.
  pose proof foldCheck_all as A. rewrite forallb_forall in A.
  specialize (A (nat_of_ascii b) ltac:(apply in_seq; lia)).
  rewrite forallb_forall in A.
  specialize (A (nat_of_ascii c) ltac:(apply in_seq; lia)).
  unfold foldCheck in A. rewrite !ascii_nat_embedding, Hc in A.
  cbn [implb] in A. apply andb_true_iff in A as [A _].
  now apply Bool.eqb_prop in A.
Qed.

Lemma upperByte_lt (c : ascii) :
  plainByte c = true -> (nat_of_ascii (upperByte c) < 128)%nat.
Proof.
  intros Hc. pose proof (plainByte_lt c Hc) as Hc'.
  pose proof foldCheck_all as A. rewrite forallb_forall in A.
  specialize (A 0%nat ltac:(apply in_seq; lia)).
  rewrite forallb_forall in A.
  specialize (A (nat_of_ascii c) ltac:(apply in_seq; lia)).
  unfold foldCheck in A. rewrite !ascii_nat_embedding, Hc in A.
  cbn [implb] in A. apply andb_true_iff in A as [_ A].
  now apply Nat.ltb_lt in A.
Qed.

Section AnyCase.

Local Open Scope Z_scope.

Lemma byteVal_lt_nat (c : ascii) :
  (nat_of_ascii c < 128)%nat <-> utf8.byteVal c < 128.
Proof. rewrite byteVal_nat. lia. Qed.

(** A byte outside ASCII is no ASCII letter in either case. *)
Lemma high_byte_no_letter (b c : ascii) :
  128 <= utf8.byteVal b -> plainByte c = true ->
  Ascii.eqb b c || Ascii.eqb b (upperByte c) = false.
Proof.
  intros Hb Hc. pose proof (plainByte_lt c Hc) as H1.
  pose proof (upperByte_lt c Hc) as H2.
  apply byteVal_lt_nat in H1, H2.
  apply orb_false_iff. split; apply Ascii.eqb_neq; intros ->; lia.
Qed.

Lemma high_byte_head (b : ascii) (t : string) (c : ascii) (name : string) :
  128 <= utf8.byteVal b -> plainByte c = true ->
  String b t <> String c name.
Proof.
  intros Hb Hc E. injection E as -> _.
  apply plainByte_lt, byteVal_lt_nat in Hc. lia.
Qed.

(** Lower-casing by the tables of Unicode gives the word [name] exactly
    for the texts that are [name] up to case. *)
Lemma Map_anyCase (name : string) :
  allChars plainByte name = true ->
  forall e, Map unicode.ToLower e = name <-> anyCase e name = true.
Proof.
  induction name as [|c name IH]; intros Hn e.
  - destruct e as [|b e]; [now split | ].
    cbn [anyCase]. split; [ | discriminate].
    intros E. unfold Map in E. cbn [mapFrom] in E.
    destruct (utf8.DecodeRuneInString (String b e)) as [r w].
    destruct (AppendRune_cons (unicode.ToLower r)) as (x & t & Ex).
    rewrite Ex in E. discriminate.
  - cbn [allChars] in Hn. apply andb_true_iff in Hn as [Hc Hn].
    specialize (IH Hn).
    destruct e as [|b e]; [split; discriminate | ].
    destruct (Nat.ltb (nat_of_ascii b) 128) eqn:Hb.
    + (* an ASCII byte *)
      pose proof (nat_lt_byteVal b Hb) as Hb'. apply Nat.ltb_lt in Hb.
      rewrite (Map_lower_ascii b e Hb'). cbn [anyCase].
      assert (S1 : match e with
                   | EmptyString => false
                   | String b1 e2 =>
                       (Ascii.eqb c "i" && Ascii.eqb b "196" &&
                        Ascii.eqb b1 "176" && anyCase e2 name) ||
                       match e2 with
                       | EmptyString => false
                       | String b2 e3 =>
                           Ascii.eqb c "k" && Ascii.eqb b "226" &&
                           Ascii.eqb b1 "132" && Ascii.eqb b2 "170" &&
                           anyCase e3 name
                       end
                   end = false).
      { assert (N1 : Ascii.eqb b "196" = false)
          by (apply Ascii.eqb_neq; intros ->; cbv in Hb; lia).
        assert (N2 : Ascii.eqb b "226" = false)
          by (apply Ascii.eqb_neq; intros ->; cbv in Hb; lia).
        rewrite N1, N2. destruct e as [|b1 [|b2 e3]]; [reflexivity | | ];
          now rewrite ?andb_false_r, ?andb_false_l. }
      rewrite S1, orb_false_r, <- (lowerByte_fold b c Hb Hc).
      rewrite andb_true_iff, <- IH. split.
      * intros E. injection E as E1 E2. split; [ | exact E2].
        rewrite E1. apply Ascii.eqb_refl.
      * intros [E1 E2]. apply Ascii.eqb_eq in E1. now rewrite E1, E2.
    + (* a byte outside ASCII *)
      pose proof (byteVal_nat_ge b Hb) as Hb'.
      destruct (Decode_high b e Hb') as (r & w & D & Hr & D1 & D2).
      cbn [anyCase]. rewrite (high_byte_no_letter b c Hb' Hc). cbn [andb orb].
      destruct (ToLower_high r Hr) as [L | [[-> L] | [-> L]]].
      * (* the lower case is outside ASCII *)
        split.
        -- intros E. exfalso. unfold Map in E. cbn [mapFrom] in E.
           rewrite D in E.
           destruct (AppendRune_high (unicode.ToLower r) (or_intror L))
             as (x & t & Ex & Hx).
           rewrite Ex in E. cbn [append] in E.
           now apply (high_byte_head x _ c name Hx Hc) in E.
        -- intros A. exfalso.
           destruct e as [|b1 e2]; [discriminate | ].
           apply orb_true_iff in A as [A|A].
           ++ apply andb_true_iff in A as [A _].
              apply andb_true_iff in A as [A A3].
              apply andb_true_iff in A as [_ A2].
              apply Ascii.eqb_eq in A2, A3. subst b b1.
              change (String "196" (String "176" e2)) with (dottedI ++ e2)%string in D.
              rewrite Decode_dottedI in D. injection D as <- _.
              cbv in L. now apply L.
           ++ destruct e2 as [|b2 e3]; [discriminate | ].
              apply andb_true_iff in A as [A _].
              apply andb_true_iff in A as [A A4].
              apply andb_true_iff in A as [A A3].
              apply andb_true_iff in A as [_ A2].
              apply Ascii.eqb_eq in A2, A3, A4. subst b b1 b2.
              change (String "226" (String "132" (String "170" e3)))
                with (kelvin ++ e3)%string in D.
              rewrite Decode_kelvin in D. injection D as <- _.
              cbv in L. now apply L.
      * (* the capital I with a dot *)
        destruct (D1 eq_refl) as (t' & E & _).
        cbn [dottedI append] in E. injection E as -> ->.
        change (String "196" (String "176" t')) with (dottedI ++ t')%string.
        rewrite Map_dottedI, L.
        change (utf8.AppendRune 105) with "i"%string. cbn [append].
        change (Ascii.eqb "196" "196") with true.
        change (Ascii.eqb "176" "176") with true.
        change (Ascii.eqb "196" "226") with false.
        rewrite !andb_true_r, andb_false_r.
        assert (S2 : match t' with
                     | EmptyString => false
                     | String _ _ => false
                     end = false) by (now destruct t').
        cbn [andb]. rewrite S2, orb_false_r.
        rewrite andb_true_iff, <- IH. split.
        -- intros E'. injection E' as E1 E2. split; [ | exact E2].
           rewrite <- E1. reflexivity.
        -- intros [E1 E2]. apply Ascii.eqb_eq in E1. now rewrite E1, E2.
      * (* the Kelvin sign *)
        destruct (D2 eq_refl) as (t' & E & _).
        cbn [kelvin append] in E. injection E as -> ->.
        change (String "226" (String "132" (String "170" t')))
          with (kelvin ++ t')%string.
        rewrite Map_kelvin, L.
        change (utf8.AppendRune 107) with "k"%string. cbn [append].
        change (Ascii.eqb "226" "226") with true.
        change (Ascii.eqb "132" "132") with true.
        change (Ascii.eqb "170" "170") with true.
        change (Ascii.eqb "226" "196") with false.
        rewrite !andb_true_r, !andb_false_r. cbn [andb orb].
        rewrite andb_true_iff, <- IH. split.
        -- intros E'. injection E' as E1 E2. split; [ | exact E2].
           rewrite <- E1. reflexivity.
        -- intros [E1 E2]. apply Ascii.eqb_eq in E1. now rewrite E1, E2.
Qed.

End AnyCase.

Section ToLowerFacts.

Local Open Scope Z_scope.

Lemma Map_lowerASCII (s : string) :
  onlyASCII s = true -> Map unicode.ToLower s = lowerASCII s.
Proof.
  induction s as [|c s IH]; cbn [onlyASCII lowerASCII]; [reflexivity | ].
  intros H. apply andb_true_iff in H as [H1 H2].
  rewrite (Map_lower_ascii c s (nat_lt_byteVal c H1)). now rewrite IH.
Qed.

(** The two branches of [strings.ToLower] agree: it lower-cases character
    by character. *)
Lemma ToLower_Map (s : string) : ToLower s = Map unicode.ToLower s.
Proof.
  unfold ToLower. destruct (onlyASCII s) eqn:H; [ | reflexivity].
  rewrite (Map_lowerASCII s H).
  destruct (hasUpper s) eqn:U; [reflexivity | ].
  symmetry. now apply lowerASCII_id.
Qed.

Lemma ToLower_dot (e : string) :
  ToLower (String "." e) = String "." (ToLower e).
Proof.
  rewrite !ToLower_Map. now rewrite (Map_lower_ascii "." e).
Qed.

(** On a text of ASCII bytes [strings.ToLower] lower-cases byte by byte. *)
Lemma ToLower_onlyASCII (s : string) :
  onlyASCII s = true -> ToLower s = lowerASCII s.
Proof. intros H. rewrite ToLower_Map. now apply Map_lowerASCII. Qed.

Lemma ToLower_anyCase (name e : string) :
  allChars plainByte name = true ->
  String.eqb name (ToLower e) = anyCase e name.
Proof.
  intros Hn. rewrite ToLower_Map.
  pose proof (Map_anyCase name Hn e) as H.
  destruct (String.eqb_spec name (Map unicode.ToLower e)) as [E|E];
    destruct (anyCase e name); try reflexivity.
  - symmetry. now apply H.
  - elim E. symmetry. now apply H.
Qed.

End ToLowerFacts.

(** * The extension of a file name *)

Lemma get_app_r (p e : string) (k : nat) :
  String.get (String.length p + k) (p ++ e) = String.get k e.
Proof. induction p as [|a p IH]; cbn; [reflexivity | exact IH]. Qed.

Lemma get_occurs (c : ascii) (e : string) (k : nat) (a : ascii) :
  occurs c e = false -> String.get k e = Some a -> Ascii.eqb a c = false.
Proof.
  revert k. induction e as [|x e IH]; intros k H G; [destruct k; discriminate | ].
  cbn in H. apply orb_false_iff in H as [H1 H2].
  destruct k; cbn in G.
  - injection G as <-. exact H1.
  - now apply (IH k).
Qed.

Lemma get_below (e : string) (k : nat) :
  k < String.length e -> exists a, String.get k e = Some a.
Proof.
  revert k. induction e as [|x e IH]; intros k H; cbn in H; [lia | ].
  destruct k; cbn; [now exists x | apply IH; lia].
Qed.

(** The loop of [filepath.Ext] passes over a tail without dot and slash. *)
Lemma extLoop_tail (p e : string) (k : nat) :
  occurs "." e = false -> occurs "/" e = false -> k <= String.length e ->
  filepath.extLoop (p ++ e) (String.length p + k) =
  filepath.extLoop (p ++ e) (String.length p).
Proof.
  intros Hd Hs. induction k as [|k IH]; intros Hk.
  - now rewrite Nat.add_0_r.
  - rewrite Nat.add_succ_r. cbn [filepath.extLoop].
    rewrite get_app_r.
    destruct (get_below e k ltac:(lia)) as [a Ha]. rewrite Ha.
    rewrite (get_occurs _ _ _ _ Hs Ha), (get_occurs _ _ _ _ Hd Ha).
    apply IH. lia.
Qed.

Lemma substring_drop (p e : string) :
  substring (String.length p) (String.length (p ++ e) - String.length p) (p ++ e)
  = e.
Proof.
  rewrite length_append, Nat.add_comm, Nat.add_sub.
  rewrite substring_skip_app. apply substring_0_length.
Qed.

(** The extension is the text from the last dot on. *)
Lemma Ext_dot (base e : string) :
  occurs "." e = false -> occurs "/" e = false ->
  filepath.Ext (base ++ String "." e) = String "." e.
Proof.
  intros Hd Hs. unfold filepath.Ext.
  replace (base ++ String "." e) with ((base ++ ".") ++ e)
    by (rewrite append_assoc; reflexivity).
  rewrite length_append.
  rewrite (extLoop_tail _ e (String.length e) Hd Hs (le_n _)).
  rewrite length_append. cbn [String.length]. rewrite Nat.add_1_r.
  cbn [filepath.extLoop].
  rewrite append_assoc. cbn [append].
  replace (String.length base) with (String.length base + 0) at 1 by lia.
  rewrite get_app_r. cbn [String.get Ascii.eqb].
  change (Ascii.eqb "." "/") with false. change (Ascii.eqb "." ".") with true.
  cbv iota.
  apply substring_drop.
Qed.

(** A last path element without a dot has no extension. *)
Lemma Ext_none (name : string) :
  occurs "." name = false ->
  filepath.Ext name = EmptyString /\
  forall dir, filepath.Ext (dir ++ String "/" name) = EmptyString.
Proof.
  intros Hd. split.
  - unfold filepath.Ext.
    assert (H : forall k, k <= String.length name ->
                  filepath.extLoop name k = EmptyString).
    { induction k as [|k IH]; intros Hk; [reflexivity | ].
      cbn [filepath.extLoop].
      destruct (get_below name k ltac:(lia)) as [a Ha]. rewrite Ha.
      rewrite (get_occurs _ _ _ _ Hd Ha).
      destruct (Ascii.eqb a "/"); [reflexivity | apply IH; lia]. }
    apply H, le_n.
  - intros dir. unfold filepath.Ext.
    replace (dir ++ String "/" name) with ((dir ++ "/") ++ name)
      by (rewrite append_assoc; reflexivity).
    assert (H : forall k, k <= String.length name ->
                  filepath.extLoop ((dir ++ "/") ++ name)
                    (String.length (dir ++ "/") + k) = EmptyString).
    { induction k as [|k IH]; intros Hk.
      - rewrite Nat.add_0_r, length_append. cbn [String.length].
        rewrite Nat.add_1_r. cbn [filepath.extLoop].
        rewrite append_assoc. cbn [append].
        replace (String.length dir) with (String.length dir + 0) at 1 by lia.
        rewrite get_app_r. reflexivity.
      - rewrite Nat.add_succ_r. cbn [filepath.extLoop]. rewrite get_app_r.
        destruct (get_below name k ltac:(lia)) as [a Ha]. rewrite Ha.
        rewrite (get_occurs _ _ _ _ Hd Ha).
        destruct (Ascii.eqb a "/"); [reflexivity | apply IH; lia]. }
    rewrite length_append. apply H, le_n.
Qed.

Lemma getMimeType_dot (base e : string) :
  occurs "." e = false -> occurs "/" e = false ->
  getMimeType (base ++ String "." e) =
  match mapLookup mimeTypes (String "." (ToLower e)) with
  | Some mime => mime
  | None => "image/png"
  end.
Proof.
  intros Hd Hs. unfold getMimeType.
  now rewrite (Ext_dot base e Hd Hs), ToLower_dot.
Qed.

Lemma eqb_after_dot (k x : string) :
  String.eqb (String "." k) (String "." x) = String.eqb k x.
Proof. reflexivity. Qed.

(** The MIME type of a target whose extension is a name of the table up
    to case. *)
Lemma getMimeType_named (base e name mime : string) :
  occurs "." e = false -> occurs "/" e = false ->
  allChars plainByte name = true -> anyCase e name = true ->
  mapLookup mimeTypes (String "." name) = Some mime ->
  getMimeType (base ++ String "." e) = mime.
Proof.
  intros Hd Hs Hn Ha Hm. rewrite (getMimeType_dot base e Hd Hs).
  rewrite <- (ToLower_anyCase name e Hn) in Ha. apply String.eqb_eq in Ha.
  now rewrite <- Ha, Hm.
Qed.

(** The MIME type of a target whose extension is no name of the table. *)
Lemma getMimeType_unnamed (base e : string) :
  occurs "." e = false -> occurs "/" e = false ->
  (forall name,
     In name ["jpg"; "jpeg"; "png"; "gif"; "bmp"; "webp"; "svg"; "ico"] ->
     anyCase e name = false) ->
  getMimeType (base ++ String "." e) = "image/png".
Proof.
  intros Hd Hs H. rewrite (getMimeType_dot base e Hd Hs).
  cbn [mimeTypes mapLookup]. rewrite !eqb_after_dot.
  rewrite !ToLower_anyCase by reflexivity.
  rewrite !H by (cbn [In]; tauto). reflexivity.
Qed.

(** A file name whose last element has no dot has the type [image/png]. *)
Lemma getMimeType_no_dot (name : string) :
  occurs "." name = false ->
  getMimeType name = "image/png" /\
  forall d, getMimeType (d ++ String "/" name) = "image/png".
Proof.
  intros Hd. destruct (Ext_none name Hd) as [E1 E2]. split.
  - unfold getMimeType. now rewrite E1.
  - intros d. unfold getMimeType. now rewrite E2.
Qed.

(** The capital I with a dot is a capital of [i]: a name whose extension
    is [ico] with the bytes C4 B0 for its first letter has the type of
    [.ico], as it has in Go. *)
Lemma getMimeType_dottedI :
  getMimeType ("x." ++ dottedI ++ "co") = "image/x-icon".
Proof. vm_compute. reflexivity. Qed.

(** * The scan of the embedder up to an image reference *)

Lemma contains_prefix (sub s : string) :
  String.prefix sub s = true -> contains sub s = true.
Proof. destruct s; cbn; intros H; rewrite H; reflexivity. Qed.

Lemma contains_intro (sub b r : string) : contains sub (b ++ sub ++ r) = true.
Proof.
  induction b as [|x b IH]; cbn [append].
  - apply contains_prefix, prefix_app.
  - cbn [contains]. rewrite IH. apply orb_true_r.
Qed.

Lemma imgRegex_needs_open (prev : option ascii) (x : ascii) (s : string) :
  (forall r, s <> String "[" r) -> matchHere imgRegex prev (String x s) = None.
Proof.
  intros H. destruct (matchHere imgRegex prev (String x s)) as [m|] eqn:E;
    [ | reflexivity].
  apply imgRegex_elim in E as (t & u & rest & _ & _ & E & _).
  unfold ImageSpan in E. cbn [append] in E. rewrite LinkSpan_app in E.
  injection E as _ E. now elim (H _ E).
Qed.

(** No match of the image pattern starts in a text without [![], when what
    follows it does not begin with an opening bracket. *)
Lemma no_image_start (pre s2 : string) :
  contains "![" pre = false ->
  (forall r, s2 <> String "[" r) ->
  forall a x b p, pre = a ++ String x b ->
    matchHere imgRegex p (String x b ++ s2) = None.
Proof.
  intros Hc Hs a x b p E.
  destruct (Ascii.eqb_spec x "!") as [-> | Hx];
    [ | now apply imgRegex_needs_bang].
  cbn [append]. apply imgRegex_needs_open. intros r Er.
  destruct b as [|y b]; cbn [append] in Er; [now elim (Hs r) | ].
  injection Er as -> _.
  rewrite E in Hc.
  change (a ++ String "!" (String "[" b)) with (a ++ "![" ++ b) in Hc.
  now rewrite contains_intro in Hc.
Qed.

(** In particular no image reference starts in a text without [![]. *)
Lemma noImageStart_plain (pre s : string) :
  contains "![" pre = false -> (forall r, s <> String "[" r) ->
  noImageStart pre s = true.
Proof.
  intros Hc Hs.
  assert (H : forall a b, pre = a ++ b -> noImageStart b s = true).
  { intros a b. revert a. induction b as [|x b IH]; intros a E; [reflexivity | ].
    cbn [noImageStart].
    rewrite (no_image_start pre s Hc Hs a x b None E).
    apply (IH (a ++ String x EmptyString)).
    rewrite append_assoc. exact E. }
  now apply (H EmptyString).
Qed.

(** The text before an image reference, when the embedder finds that
    reference next. *)
Lemma noImageStart_before (pre alt p rest : string) :
  contains "![" pre = false \/
  noImageStart pre (ImageSpan alt p ++ rest) = true ->
  noImageStart pre (ImageSpan alt p ++ rest) = true.
Proof.
  intros [H|H]; [ | exact H].
  apply noImageStart_plain; [exact H | ].
  unfold ImageSpan. cbn [append]. discriminate.
Qed.

Lemma noImageStart_matchHere (pre s : string) :
  noImageStart pre s = true ->
  forall a x b p, pre = a ++ String x b ->
                  matchHere imgRegex p (String x b ++ s) = None.
Proof.
  induction pre as [|y pre IH]; intros H a x b p E.
  - destruct a; discriminate.
  - cbn [noImageStart] in H.
    destruct (matchHere imgRegex None (String y pre ++ s)) eqn:M;
      [discriminate | ].
    destruct a as [|z a]; cbn [append] in E; injection E as -> E.
    + subst pre. rewrite (imgRegex_contextFree p None). exact M.
    + now apply (IH H a x b p).
Qed.

(** The embedder on the next image reference it finds. *)
Lemma embedImages_reached (Join : string -> string -> string)
    (pre t u rest baseDir : string) (w : os.World) :
  noImageStart pre (ImageSpan t u ++ rest) = true -> okText t -> okTarget u ->
  embedImages Join (pre ++ ImageSpan t u ++ rest) baseDir w =
  let '(r, w1) := imgFunc Join baseDir (ImageSpan t u) w in
  let '((out, err), w2) := embedImages Join rest baseDir w1 in
  ((pre ++ r ++ out, err), w2).
Proof.
  intros Hpre Ht Hu.
  rewrite (embedImages_skip_none Join pre _ baseDir w
             (noImageStart_matchHere pre _ Hpre)).
  rewrite (embedImages_step Join baseDir t u rest w Ht Hu).
  destruct (imgFunc Join baseDir (ImageSpan t u) w) as [r w1].
  now destruct (embedImages Join rest baseDir w1) as [[out err] w2].
Qed.

(** * The claims *)

(** Claim C1.  The link rewriter is claimed to rewrite every local [.md]
    link target.  At the input [See [a](a.md)[b](b.md)] the code rewrites
    the first link and leaves the second, which directly follows it, as it
    was: the match of the first pattern begins with the character before
    the bracket, and that character is the last one of the link before. *)
Theorem C1_link_after_link_is_kept :
  rewriteMarkdownLinks "See [a](a.md)[b](b.md)" = "See [a](a.html)[b](b.md)".
Proof. vm_compute. reflexivity. Qed.

(** Claim C6.  The link rewriter is claimed to leave every link whose
    target begins with [http://], [https://] or [#] as it is.  At the input
    [[Doc](http://host/a[b](c.md)] the link stands at the start of the text,
    where the first pattern, which begins with the character before the
    bracket, cannot match it; the first pass goes on into the link, finds
    [a[b](c.md)] inside its target and rewrites that.  After one blank the
    first pass matches the same link and returns it as it is. *)
Theorem C6_link_at_start_is_entered :
  okText "Doc" /\ okTarget "http://host/a[b](c.md" /\
  HasPrefix "http://host/a[b](c.md" "http://" = true /\
  rewriteMarkdownLinks (LinkSpan "Doc" "http://host/a[b](c.md") =
    "[Doc](http://host/a[b](c.html)" /\
  rewriteMarkdownLinks (String " " (LinkSpan "Doc" "http://host/a[b](c.md")) =
    String " " (LinkSpan "Doc" "http://host/a[b](c.md").
Proof.
  split; [reflexivity | ]. split; [split; [discriminate | reflexivity] | ].
  split; [reflexivity | ]. split; vm_compute; reflexivity.
Qed.

(** Claim C5.  A link with nothing before it is rewritten: the input
    [[Guide](./setup.md)] gives [[Guide](./setup.html)]; so does every link
    that is the whole text, whose target ends with [.md] and does not begin
    with [http://], [https://] or [#].  The second pass rewrites such a
    link at the start of the text or of a line, whatever follows it, and
    goes on after it.  When the link has no opening bracket but its own,
    the link rewriter rewrites it at the start of a text whatever follows,
    and at the start of a later line. *)
Theorem C5_first_link_rewritten :
  rewriteMarkdownLinks "[Guide](./setup.md)" = "[Guide](./setup.html)" /\
  forall (t v : string),
    okText t -> occurs ")" v = false ->
    HasPrefix (v ++ ".md") "http://" = false ->
    HasPrefix (v ++ ".md") "https://" = false ->
    HasPrefix (v ++ ".md") "#" = false ->
    rewriteMarkdownLinks (LinkSpan t (v ++ ".md")) = LinkSpan t (v ++ ".html") /\
    (forall (prev : option ascii) (pre rest : string),
       occurs "[" pre = false -> atLineStart (lastOr prev pre) = true ->
       startLinkPassFrom prev (pre ++ LinkSpan t (v ++ ".md") ++ rest) =
       pre ++ LinkSpan t (v ++ ".html") ++
       startLinkPassFrom (Some ")"%char) rest) /\
    (occurs "[" t = false -> occurs "[" v = false ->
     (forall rest, exists rest',
        rewriteMarkdownLinks (LinkSpan t (v ++ ".md") ++ rest) =
        LinkSpan t (v ++ ".html") ++ rest') /\
     (forall pre rest,
        occurs "[" pre = false ->
        rewriteMarkdownLinks
          (pre ++ String "010" (LinkSpan t (v ++ ".md")) ++ rest) =
        pre ++ String "010" (LinkSpan t (v ++ ".html")) ++
        startLinkPassFrom (Some ")"%char) (linkPass rest))).
Proof.
  split; [vm_compute; reflexivity | ].
  intros t v Ht Hv H1 H2 H3.
  assert (Hs : skipLink (v ++ ".md") = false) by (now apply skipLink_false).
  pose proof (okTarget_md v Hv) as Hu.
  pose proof (rewriteTarget_md v Hs) as Hr.
  split; [now apply rewriteMarkdownLinks_sole_md | ]. split.
  - intros prev pre rest Hpre Hl.
    rewrite (startLinkPassFrom_first prev pre t _ rest Hpre Hl Ht Hu).
    now rewrite Hr.
  - intros Hbt Hbv.
    assert (Hbu : occurs "[" (v ++ ".md") = false)
      by (rewrite occurs_app, Hbv; reflexivity).
    split.
    + intros rest.
      destruct (rewriteMarkdownLinks_head_link t _ rest Ht Hu Hbt Hbu)
        as [rest' E].
      exists rest'. now rewrite E, Hr.
    + intros pre rest Hpre.
      rewrite (rewriteMarkdownLinks_first_link pre "010" t _ rest Hpre
                 ltac:(discriminate) ltac:(discriminate) Ht Hu Hbt Hbu).
      now rewrite Hr.
Qed.

(** Claim C8.  The document is the template with the title after
    [<title>], the font name with every space replaced by a plus sign after
    [family=] in the link to the Google Fonts style sheet, the font name in
    the style sheet, and the fragment between [<body>] and [</body>], each
    as it is given; it begins with the document type and ends with
    [</html>]. *)
Theorem C8_document_assembled (body fontFamily title : string) :
  createHTMLDocument body fontFamily title =
    tmplToTitle ++ title ++ tmplToFontURL ++ spacesToPlus fontFamily ++
    tmplToFontFamily ++ fontFamily ++ fmt.Sprintf tmplToBody [] ++ body ++
    tmplTail /\
  String.length (spacesToPlus fontFamily) = String.length fontFamily /\
  occurs " " (spacesToPlus fontFamily) = false /\
  HasPrefix tmplToTitle "<!DOCTYPE html>" = true /\
  HasSuffix tmplToTitle "<title>" = true /\
  HasPrefix tmplToFontURL "</title>" = true /\
  HasSuffix tmplToFontURL
    ("<link href=" ++ dq ++ "https://fonts.googleapis.com/css2?family=") = true /\
  HasPrefix tmplToFontFamily
    (":wght@300;400;600;700&display=swap" ++ dq ++ " rel=" ++ dq ++
     "stylesheet" ++ dq ++ ">") = true /\
  HasSuffix (fmt.Sprintf tmplToBody []) ("<body>" ++ String "010" EmptyString)
    = true /\
  tmplTail = String "010" ("</body>" ++ String "010" "</html>").
Proof.
  split; [ | split; [ | split]].
  - rewrite createHTMLDocument_parts. now rewrite ReplaceAll_spaces.
  - induction fontFamily as [|c s IH]; cbn; [reflexivity | now rewrite IH].
  - induction fontFamily as [|c s IH]; cbn; [reflexivity | ].
    rewrite IH. now destruct (Ascii.eqb_spec c " "); [ | destruct (Ascii.eqb_spec c " ")].
  - repeat split; vm_compute; reflexivity.
Qed.

Section EmbedderClaims.

Variable Join : string -> string -> string.


(** Claim C4.  An image reference whose file can be read is copied with
    the target [data:<mime>;base64,<b64>], nothing is printed, and the
    embedder goes on with the text after the reference.  [<b64>] is the
    standard base64 encoding of the bytes of the file and decodes to these
    bytes.  [<mime>] is the entry of the table for the extension of the
    target, the text after the last dot of its last element, whatever the
    case of its letters; it is [image/png] when the extension is none of the
    table and when the last element has no dot.  The reference is the next
    one the embedder finds: the text [pre] before it has no [![] or, more
    generally, no image reference starts in it; since the embedder goes on
    with the text after the reference in the same way, this is every
    reference it finds.  The case of letters is that of [strings.ToLower],
    for which the capital I with a dot, U+0130, is a capital of [i]. *)
Theorem C4_readable_image_embedded
    (pre alt p rest dir data : string) (w : os.World) :
  okText alt -> okTarget p ->
  HasPrefix p "http://" = false -> HasPrefix p "https://" = false ->
  HasPrefix p "data:" = false ->
  os.files w (Join dir p) = inl data ->
  contains "![" pre = false \/
  noImageStart pre (ImageSpan alt p ++ rest) = true ->
  embedImages Join (pre ++ ImageSpan alt p ++ rest) dir w =
    (let '((out, err), w') := embedImages Join rest dir w in
     ((pre ++
       ImageSpan alt ("data:" ++ getMimeType p ++ ";base64," ++
                      base64.EncodeToString data) ++ out, err), w')) /\
  base64.DecodeString (base64.EncodeToString data) = Some data /\
  (forall base e,
     p = base ++ String "." e -> occurs "." e = false -> occurs "/" e = false ->
     (anyCase e "jpg" = true \/ anyCase e "jpeg" = true ->
      getMimeType p = "image/jpeg") /\
     (anyCase e "png" = true -> getMimeType p = "image/png") /\
     (anyCase e "gif" = true -> getMimeType p = "image/gif") /\
     (anyCase e "bmp" = true -> getMimeType p = "image/bmp") /\
     (anyCase e "webp" = true -> getMimeType p = "image/webp") /\
     (anyCase e "svg" = true -> getMimeType p = "image/svg+xml") /\
     (anyCase e "ico" = true -> getMimeType p = "image/x-icon") /\
     ((forall name,
         In name ["jpg"; "jpeg"; "png"; "gif"; "bmp"; "webp"; "svg"; "ico"] ->
         anyCase e name = false) ->
      getMimeType p = "image/png")) /\
  (forall d name,
     occurs "." name = false -> p = name \/ p = d ++ String "/" name ->
     getMimeType p = "image/png").
Proof.
  intros Ha Hp H1 H2 H3 Hf Hpre. apply noImageStart_before in Hpre.
  split; [ | split; [ | split]].
  - rewrite (embedImages_reached Join pre alt p rest dir w Hpre Ha Hp).
    rewrite (imgFunc_span Join dir alt p w Ha Hp).
    assert (Hs : skipImage p = false) by (now apply skipImage_false).
    now rewrite Hs, Hf.
  - apply DecodeString_EncodeToString.
  - intros base e -> Hd Hs.
    repeat split;
      try (intros A; eapply getMimeType_named;
           [exact Hd | exact Hs | | exact A | ]; reflexivity).
    + intros [A|A]; eapply getMimeType_named;
        [exact Hd | exact Hs | | exact A | | exact Hd | exact Hs | | exact A | ];
        reflexivity.
    + now apply getMimeType_unnamed.
  - intros d name Hd [-> | ->]; now apply getMimeType_no_dot.
Qed.

(** Claim C10, as amended.  At a link or an image reference with an empty
    target none of the three patterns matches, whatever comes before and
    after.  The first pass of the link rewriter, from such a link or from
    the byte before it, the second pass from such a link, and the image
    embedder from such a link or image reference copy it and go on after
    it.  A text in which such a link or image reference is the only place
    with a closing bracket is returned as it is by the link rewriter and by
    the image embedder, which prints no warning.  Nothing is said of a link
    with an empty target that lies inside the match of another link. *)
Theorem C10_empty_target_unmatched
    (t pre post dir : string) (prev : option ascii) (c : ascii)
    (w : os.World) :
  okText t ->
  (matchHere linkRegex prev (String c (LinkSpan t EmptyString ++ post)) = None /\
   matchHere startLinkRegex prev (LinkSpan t EmptyString ++ post) = None /\
   matchHere imgRegex prev (ImageSpan t EmptyString ++ post) = None) /\
  ((exists post',
      linkPass (String c (LinkSpan t EmptyString ++ post)) =
      String c (LinkSpan t EmptyString ++ post')) /\
   (exists post',
      linkPass (LinkSpan t EmptyString ++ post) =
      LinkSpan t EmptyString ++ post') /\
   startLinkPassFrom prev (LinkSpan t EmptyString ++ post) =
     LinkSpan t EmptyString ++ startLinkPassFrom (Some ")"%char) post /\
   embedImages Join (ImageSpan t EmptyString ++ post) dir w =
     (let '((out, err), w') := embedImages Join post dir w in
      ((ImageSpan t EmptyString ++ out, err), w')) /\
   embedImages Join (LinkSpan t EmptyString ++ post) dir w =
     (let '((out, err), w') := embedImages Join post dir w in
      ((LinkSpan t EmptyString ++ out, err), w'))) /\
  (occurs "]" pre = false -> occurs "]" post = false ->
   rewriteMarkdownLinks (pre ++ LinkSpan t EmptyString ++ post) =
     pre ++ LinkSpan t EmptyString ++ post /\
   rewriteMarkdownLinks (pre ++ ImageSpan t EmptyString ++ post) =
     pre ++ ImageSpan t EmptyString ++ post /\
   embedImages Join (pre ++ LinkSpan t EmptyString ++ post) dir w =
     ((pre ++ LinkSpan t EmptyString ++ post, None), w) /\
   embedImages Join (pre ++ ImageSpan t EmptyString ++ post) dir w =
     ((pre ++ ImageSpan t EmptyString ++ post, None), w)).
Proof.
  intros Ht. split; [now apply empty_target_matchHere | ]. split.
  - split; [now apply linkPass_empty_target | ].
    split; [now apply linkPass_empty_target_head | ].
    split; [now apply startLinkPassFrom_empty_target | ].
    now apply embedImages_empty_target.
  - intros Hpre Hpost.
    assert (Ei : pre ++ ImageSpan t EmptyString ++ post =
                 (pre ++ String "!" EmptyString) ++
                 LinkSpan t EmptyString ++ post).
    { now rewrite append_assoc. }
    assert (Hpre' : occurs "]" (pre ++ String "!" EmptyString) = false).
    { rewrite occurs_app, Hpre. reflexivity. }
    destruct (empty_target_find pre t post None Hpre Ht Hpost) as (F1 & F2 & F3).
    destruct (empty_target_find _ t post None Hpre' Ht Hpost) as (G1 & G2 & G3).
    rewrite <- Ei in G1, G2, G3.
    unfold rewriteMarkdownLinks.
    fold (linkPass (pre ++ LinkSpan t EmptyString ++ post)).
    fold (linkPass (pre ++ ImageSpan t EmptyString ++ post)).
    rewrite (linkPass_none _ F1), (linkPass_none _ G1).
    fold (startLinkPass (pre ++ LinkSpan t EmptyString ++ post)).
    fold (startLinkPass (pre ++ ImageSpan t EmptyString ++ post)).
    rewrite (startLinkPass_none _ F2), (startLinkPass_none _ G2).
    rewrite (embedImages_none Join _ dir w F3), (embedImages_none Join _ dir w G3).
    repeat split.
Qed.

End EmbedderClaims.

Section DriverClaims.

Variable render : string -> string.
Variable Dir : string -> string.
Variable Join : string -> string -> string.

(** The run of [main] on an input file with the extension [.md] that can be
    read, when the output file can be written. *)
Lemma main_success (fontFamily title inputFile md : string)
    (more : list string) (w : os.World) :
  HasSuffix inputFile ".md" = true ->
  os.files w inputFile = inl md ->
  os.unwritable w (TrimSuffix inputFile ".md" ++ ".html") = None ->
  let outputFile := TrimSuffix inputFile ".md" ++ ".html" in
  let processed :=
    fst (fst (embedImages Join (rewriteMarkdownLinks md) (Dir inputFile) w)) in
  let w' := snd (main render Dir Join fontFamily title (inputFile :: more) w) in
  fst (main render Dir Join fontFamily title (inputFile :: more) w) = 0%Z /\
  os.files w' outputFile =
    inl (createHTMLDocument (render processed) fontFamily title) /\
  forall path, path <> outputFile -> os.files w' path = os.files w path.
Proof.
  intros Hs Hr Hw outputFile processed w'. subst w'. unfold main.
  rewrite Hs. cbn [negb]. fold outputFile.
  pose proof (convertMarkdownToHTML_read render Dir Join inputFile outputFile
                fontFamily title md w Hr) as Hc.
  pose proof (embedImages_sameFiles Join (rewriteMarkdownLinks md)
                (Dir inputFile) w) as [Hf Hu].
  subst processed.
  destruct (embedImages Join (rewriteMarkdownLinks md) (Dir inputFile) w)
    as [[processed err] w1].
  cbn [fst snd] in *. rewrite Hc. unfold os.WriteFile.
  rewrite Hu. fold outputFile in Hw. rewrite Hw.
  cbn [fst snd os.Printf os.files]. rewrite String.eqb_refl.
  repeat split. intros path Hp.
  destruct (String.eqb_spec path outputFile); [contradiction | ].
  now rewrite Hf.
Qed.

(** Claim C3.  An image reference whose file cannot be read is copied as
    it is, a warning with the path and the cause is printed, and the
    embedder goes on with the text after the reference.  The reference is
    the next one the embedder finds: the text [pre] before it has no [![]
    or, more generally, no image reference starts in it; since the embedder
    goes on with the text after the reference in the same way, this is
    every reference it finds.  And whatever the images of the document, a run on
    an input that can be read, with an output that can be written, ends
    with exit status 0 and has written the output file. *)
Theorem C3_unreadable_image_kept
    (pre alt p rest dir msg : string) (w : os.World) :
  okText alt -> okTarget p ->
  HasPrefix p "http://" = false -> HasPrefix p "https://" = false ->
  HasPrefix p "data:" = false ->
  os.files w (Join dir p) = inr msg ->
  contains "![" pre = false \/
  noImageStart pre (ImageSpan alt p ++ rest) = true ->
  embedImages Join (pre ++ ImageSpan alt p ++ rest) dir w =
    (let warned :=
       os.mkWorld (os.files w) (os.unwritable w)
         (os.stdout w ++
          ["Warning: Could not read image " ++ p ++ ": " ++ msg ++
           String "010" EmptyString]) in
     let '((out, err), w') := embedImages Join rest dir warned in
     ((pre ++ ImageSpan alt p ++ out, err), w')) /\
  forall (fontFamily title inputFile md : string) (more : list string)
         (w0 : os.World),
    HasSuffix inputFile ".md" = true ->
    os.files w0 inputFile = inl md ->
    os.unwritable w0 (TrimSuffix inputFile ".md" ++ ".html") = None ->
    fst (main render Dir Join fontFamily title (inputFile :: more) w0) = 0%Z /\
    os.files (snd (main render Dir Join fontFamily title (inputFile :: more) w0))
      (TrimSuffix inputFile ".md" ++ ".html") =
    inl (createHTMLDocument
           (render (fst (fst (embedImages Join (rewriteMarkdownLinks md)
                                (Dir inputFile) w0))))
           fontFamily title).
Proof.
  intros Ha Hp H1 H2 H3 Hf Hpre. apply noImageStart_before in Hpre. split.
  - rewrite (embedImages_reached Join pre alt p rest dir w Hpre Ha Hp).
    rewrite (imgFunc_span Join dir alt p w Ha Hp).
    assert (Hs : skipImage p = false) by (now apply skipImage_false).
    rewrite Hs, Hf. reflexivity.
  - intros fontFamily title inputFile md more w0 Hs Hr Hw.
    destruct (main_success fontFamily title inputFile md more w0 Hs Hr Hw)
      as (E1 & E2 & _).
    now split.
Qed.

(** A run changes no file but the output file. *)
Lemma convertMarkdownToHTML_files
    (inputFile outputFile fontFamily title : string) (w : os.World)
    (path : string) :
  path <> outputFile ->
  os.files (snd (convertMarkdownToHTML render Dir Join inputFile outputFile
                   fontFamily title w)) path = os.files w path.
Proof.
  intros Hp. unfold convertMarkdownToHTML, os.ReadFile.
  destruct (os.files w inputFile) as [md|msg]; [ | reflexivity].
  pose proof (embedImages_sameFiles Join (rewriteMarkdownLinks md)
                (Dir inputFile) w) as [Hf Hu].
  pose proof (embedImages_nil Join (rewriteMarkdownLinks md) (Dir inputFile) w)
    as He.
  destruct (embedImages Join (rewriteMarkdownLinks md) (Dir inputFile) w)
    as [[processed err] w1].
  cbn [fst snd] in *. subst err. unfold os.WriteFile.
  destruct (os.unwritable w1 outputFile); cbn [snd os.files].
  - now rewrite Hf.
  - destruct (String.eqb_spec path outputFile); [contradiction | ].
    now rewrite Hf.
Qed.

(** Claim C7.  With an input file whose name does not end with [.md] the
    run prints the error line about the extension and ends with exit status
    1, and the files are as before.  With an input file [base.md], the
    conversion is run with the output file [base.html], and no other file
    is changed. *)
Theorem C7_input_extension
    (fontFamily title inputFile : string) (more : list string) (w : os.World) :
  (HasSuffix inputFile ".md" = false ->
   main render Dir Join fontFamily title (inputFile :: more) w =
   (1%Z,
    os.mkWorld (os.files w) (os.unwritable w)
      (os.stdout w ++
       ["Error: Input file must have .md extension" ++ String "010" EmptyString])))
  /\
  (HasSuffix inputFile ".md" = true ->
   exists base,
     inputFile = base ++ ".md" /\
     TrimSuffix inputFile ".md" ++ ".html" = base ++ ".html" /\
     main render Dir Join fontFamily title (inputFile :: more) w =
     match convertMarkdownToHTML render Dir Join inputFile (base ++ ".html")
             fontFamily title w with
     | (Some err, w1) =>
         (1%Z, os.Printf ("Error: %v" ++ String "010" EmptyString) [err] w1)
     | (None, w1) =>
         (0%Z, os.Printf ("Successfully converted %s to %s" ++ String "010" EmptyString)
                 [inputFile; base ++ ".html"] w1)
     end /\
     forall path, path <> base ++ ".html" ->
       os.files (snd (main render Dir Join fontFamily title (inputFile :: more) w))
         path = os.files w path).
Proof.
  split; intros Hs.
  - unfold main. now rewrite Hs.
  - exists (TrimSuffix inputFile ".md").
    split; [now apply HasSuffix_inv | ]. split; [reflexivity | ].
    unfold main. rewrite Hs. cbn [negb]. split; [reflexivity | ].
    intros path Hp.
    pose proof (convertMarkdownToHTML_files inputFile
                  (TrimSuffix inputFile ".md" ++ ".html") fontFamily title w
                  path Hp) as Hc.
    destruct (convertMarkdownToHTML render Dir Join inputFile _ fontFamily title w)
      as [[err|] w1]; exact Hc.
Qed.

(** Claim C9.  The error [embedImages] returns is [nil], and an error of
    [convertMarkdownToHTML] is never the one about processing images: it is
    the one about reading the input file or the one about writing the
    output file. *)
Theorem C9_embedImages_error_nil
    (md dir inputFile outputFile fontFamily title : string) (w : os.World) :
  snd (fst (embedImages Join md dir w)) = None /\
  forall (e : string) (w' : os.World),
    convertMarkdownToHTML render Dir Join inputFile outputFile fontFamily title w
      = (Some e, w') ->
    HasPrefix e "failed to process images" = false /\
    ((exists cause, e = "failed to read input file: " ++ cause) \/
     (exists cause, e = "failed to write output file: " ++ cause)).
Proof.
  split; [apply embedImages_nil | ].
  intros e w'. unfold convertMarkdownToHTML, os.ReadFile.
  destruct (os.files w inputFile) as [md0|msg].
  - pose proof (embedImages_nil Join (rewriteMarkdownLinks md0) (Dir inputFile) w)
      as He.
    destruct (embedImages Join (rewriteMarkdownLinks md0) (Dir inputFile) w)
      as [[processed err] w1].
    cbn [fst snd] in He. subst err.
    destruct (os.WriteFile outputFile _ w1) as [[err|] w2]; [ | discriminate].
    intros H. injection H as <- _. split; [reflexivity | ].
    right. exists err. cbn. now rewrite append_nil_r.
  - intros H. injection H as <- _. split; [reflexivity | ].
    left. exists msg. cbn. now rewrite append_nil_r.
Qed.

End DriverClaims.

(** * The claims at sample inputs *)


(** Claim C10 as it was stated fails at the input [y[a](b[c.md)]()]: the
    link [[c.md)]()] has an empty target and lies inside the target of the
    link [[a](b[c.md)], which the first pass rewrites. *)
Lemma C10_empty_target_inside_link :
  okText "c.md)" /\
  "y[a](b[c.md)]()" = "y[a](b" ++ LinkSpan "c.md)" EmptyString /\
  rewriteMarkdownLinks ("y[a](b" ++ LinkSpan "c.md)" EmptyString) =
    "y[a](b[c.html)]()" /\
  rewriteMarkdownLinks ("y[a](b" ++ LinkSpan "c.md)" EmptyString) <>
    "y[a](b" ++ LinkSpan "c.md)" EmptyString.
Proof.
  split; [reflexivity | ]. split; [reflexivity | ].
  split; [vm_compute; reflexivity | vm_compute; discriminate].
Qed.


Lemma C3_unreadable_image_kept_witness :
  (okText "Chart" /\ okTarget "chart.png" /\
   os.files sampleWorld (sampleJoin "docs" "chart.png")
   = inr "no such file or directory" /\
   contains "![" "Hello! " = false) /\
  fst (embedImages sampleJoin ("Hello! " ++ ImageSpan "Chart" "chart.png" ++ ".")
         "docs" sampleWorld) = ("Hello! ![Chart](chart.png).", None) /\
  os.stdout (snd (embedImages sampleJoin
                    ("Hello! " ++ ImageSpan "Chart" "chart.png" ++ ".")
                    "docs" sampleWorld)) =
    ["Warning: Could not read image chart.png: no such file or directory" ++
     String "010" EmptyString] /\
  fst (main sampleRender sampleDir sampleJoin "Open Sans" EmptyString
         ["docs/guide.md"] sampleWorld) = 0%Z.
Proof.
  assert (H2 : okText "Chart") by reflexivity.
  assert (H3 : okTarget "chart.png") by (split; [discriminate | reflexivity]).
  assert (H4 : os.files sampleWorld (sampleJoin "docs" "chart.png")
               = inr "no such file or directory") by reflexivity.
  assert (H5 : contains "![" "Hello! " = false) by reflexivity.
  split; [now repeat split | ].
  destruct (C3_unreadable_image_kept sampleRender sampleDir sampleJoin
              "Hello! " "Chart" "chart.png" "." "docs"
              "no such file or directory" sampleWorld
              H2 H3 eq_refl eq_refl eq_refl H4 (or_introl H5)) as [E M].
  split; [ | split].
  - rewrite E. vm_compute. reflexivity.
  - rewrite E. vm_compute. reflexivity.
  - exact (proj1 (M "Open Sans" EmptyString "docs/guide.md"
                    "See ![Logo](logo.png) and ![Chart](chart.png)." []
                    sampleWorld eq_refl eq_refl eq_refl)).
Defined.

Lemma C4_readable_image_embedded_witness :
  (okText "Photo" /\ okTarget "Photo.JPG" /\
   os.files sampleGallery (sampleJoin "docs" "Photo.JPG") = inl "JFIF" /\
   noImageStart "![]() " (ImageSpan "Photo" "Photo.JPG" ++ ".") = true /\
   anyCase "JPG" "jpg" = true) /\
  getMimeType "Photo.JPG" = "image/jpeg" /\
  fst (embedImages sampleJoin ("![]() " ++ ImageSpan "Photo" "Photo.JPG" ++ ".")
         "docs" sampleGallery)
  = ("![]() ![Photo](data:image/jpeg;base64,SkZJRg==).", None).
Proof.
  assert (H2 : okText "Photo") by reflexivity.
  assert (H3 : okTarget "Photo.JPG") by (split; [discriminate | reflexivity]).
  assert (H4 : os.files sampleGallery (sampleJoin "docs" "Photo.JPG")
               = inl "JFIF") by reflexivity.
  assert (H5 : noImageStart "![]() " (ImageSpan "Photo" "Photo.JPG" ++ ".")
               = true) by reflexivity.
  assert (H6 : anyCase "JPG" "jpg" = true) by reflexivity.
  split; [now repeat split | ].
  destruct (C4_readable_image_embedded sampleJoin "![]() " "Photo" "Photo.JPG"
              "." "docs" "JFIF" sampleGallery H2 H3 eq_refl eq_refl eq_refl
              H4 (or_intror H5)) as (E & _ & T & _).
  pose proof (proj1 (T "Photo" "JPG" eq_refl eq_refl eq_refl) (or_introl H6))
    as Hm.
  split; [exact Hm | ].
  rewrite E, Hm. vm_compute. reflexivity.
Defined.

Lemma C5_first_link_rewritten_witness :
  (okText "Guide" /\ occurs ")" "./setup" = false) /\
  rewriteMarkdownLinks (LinkSpan "Guide" ("./setup" ++ ".md")) =
  LinkSpan "Guide" ("./setup" ++ ".html").
Proof.
  split; [now split | ].
  exact (proj1 (proj2 C5_first_link_rewritten "Guide" "./setup"
                  eq_refl eq_refl eq_refl eq_refl eq_refl)).
Defined.

Lemma C7_input_extension_witness :
  (HasSuffix "notes.txt" ".md" = false /\ HasSuffix "docs/guide.md" ".md" = true) /\
  fst (main sampleRender sampleDir sampleJoin "Open Sans" EmptyString
         ["notes.txt"] sampleWorld) = 1%Z /\
  exists base, "docs/guide.md" = base ++ ".md".
Proof.
  split; [now split | ]. split.
  - rewrite (proj1 (C7_input_extension sampleRender sampleDir sampleJoin
                      "Open Sans" EmptyString "notes.txt" [] sampleWorld)
               eq_refl).
    reflexivity.
  - destruct (proj2 (C7_input_extension sampleRender sampleDir sampleJoin
                       "Open Sans" EmptyString "docs/guide.md" [] sampleWorld)
                eq_refl) as (base & E & _).
    now exists base.
Defined.

Lemma C9_embedImages_error_nil_witness :
  convertMarkdownToHTML sampleRender sampleDir sampleJoin "missing.md"
    "missing.html" "Open Sans" EmptyString sampleWorld
  = (Some "failed to read input file: no such file or directory", sampleWorld) /\
  HasPrefix "failed to read input file: no such file or directory"
    "failed to process images" = false.
Proof.
  split; [reflexivity | ].
  exact (proj1 (proj2 (C9_embedImages_error_nil sampleRender sampleDir sampleJoin
                         EmptyString "docs" "missing.md" "missing.html"
                         "Open Sans" EmptyString sampleWorld)
                  _ sampleWorld eq_refl)).
Defined.

Lemma C10_empty_target_unmatched_witness :
  (okText "text" /\ occurs "]" "see " = false /\ occurs "]" " here" = false) /\
  rewriteMarkdownLinks ("see " ++ LinkSpan "text" EmptyString ++ " here") =
  "see " ++ LinkSpan "text" EmptyString ++ " here".
Proof.
  split; [now repeat split | ].
  exact (proj1 (proj2 (proj2 (C10_empty_target_unmatched sampleJoin "text"
                                "see " " here" "docs" None " "%char sampleWorld
                                eq_refl)) eq_refl eq_refl)).
Defined.

(** * Further properties of the program *)

(** ** The MIME type of a file name *)

(** Property X1.  Whatever the file name, [getMimeType] returns one of the
    seven MIME types of its table: never an empty type, and never a type
    other than that of an image. *)
Theorem getMimeType_range (filename : string) :
  In (getMimeType filename)
     ["image/jpeg"; "image/png"; "image/gif"; "image/bmp"; "image/webp";
      "image/svg+xml"; "image/x-icon"].
Proof.
  unfold getMimeType. generalize (ToLower (filepath.Ext filename)) as ext.
  intros ext. cbn [mimeTypes mapLookup].
  repeat match goal with
         | |- context [String.eqb ?k ext] => destruct (String.eqb k ext)
         end; cbn; tauto.
Qed.

(** Property X2.  The MIME type of a file name is decided by what follows
    its last dot, read without regard to the case of the letters: it is the
    entry of the table for the lower-cased extension, or [image/png]; what
    comes before the last dot, other dots and directories included, plays
    no part.  The extension is made of ASCII bytes, for which
    [strings.ToLower] changes the letters [A] to [Z] only. *)
Theorem getMimeType_last_extension (base e : string) :
  occurs "." e = false -> occurs "/" e = false -> allChars isASCII e = true ->
  getMimeType (base ++ String "." e) =
    match mapLookup mimeTypes (String "." (ToLower e)) with
    | Some mime => mime
    | None => "image/png"
    end /\
  forall base' e',
    occurs "." e' = false -> occurs "/" e' = false ->
    allChars isASCII e' = true -> ToLower e' = ToLower e ->
    getMimeType (base' ++ String "." e') = getMimeType (base ++ String "." e).
Proof.
  intros Hd Hs _. split; [now apply getMimeType_dot | ].
  intros base' e' Hd' Hs' _ E.
  now rewrite !getMimeType_dot, E.
Qed.

Lemma getMimeType_last_extension_witness :
  (occurs "." "JPG" = false /\ occurs "/" "JPG" = false /\
   allChars isASCII "JPG" = true) /\
  getMimeType "pics/Photo.tar.JPG" = "image/jpeg" /\
  getMimeType "a.b/c.SvG" = getMimeType "pics/x.svg".
Proof.
  split; [now repeat split | ]. split.
  - exact (proj1 (getMimeType_last_extension "pics/Photo.tar" "JPG"
                    eq_refl eq_refl eq_refl)).
  - exact (proj2 (getMimeType_last_extension "pics/x" "svg"
                    eq_refl eq_refl eq_refl)
             "a.b/c" "SvG" eq_refl eq_refl eq_refl eq_refl).
Defined.

(** Property X3.  A file name whose last path element has no dot gets the
    default type [image/png], also when a directory of the path has a dot
    in its name. *)
Theorem getMimeType_no_extension (name : string) :
  occurs "." name = false ->
  getMimeType name = "image/png" /\
  forall dir, getMimeType (dir ++ String "/" name) = "image/png".
Proof.
  intros Hd. destruct (Ext_none name Hd) as [E1 E2]. split.
  - unfold getMimeType. now rewrite E1.
  - intros dir. unfold getMimeType. now rewrite E2.
Qed.

Lemma getMimeType_no_extension_witness :
  occurs "." "logo" = false /\
  getMimeType "logo" = "image/png" /\
  getMimeType "icons.svg/logo" = "image/png".
Proof.
  split; [reflexivity | ].
  destruct (getMimeType_no_extension "logo" eq_refl) as [E1 E2].
  split; [exact E1 | exact (E2 "icons.svg")].
Defined.

(** ** What the three patterns match *)

(** Property X4.  At a position of a text where an ASCII byte stands, the
    first pattern of the link rewriter matches exactly when that byte is
    not [!] and a link [[text](target)] follows it, where the text runs to
    the first closing bracket and the target, which is not empty, to the
    first closing parenthesis; its groups are the byte, the text and the
    target.  The second pattern matches exactly such a link at the start of
    the text or after a line feed; its groups are the text and the
    target. *)
Theorem link_patterns_match (prev : option ascii) (s : string) (m : Match) :
  ((forall c s', s = String c s' -> isASCII c = true) ->
   (matchHere linkRegex prev s = Some m <->
    exists c t u rest,
      c <> "!"%char /\ okText t /\ okTarget u /\
      s = String c (LinkSpan t u ++ rest) /\
      m = mkMatch (String c (LinkSpan t u)) [String c EmptyString; t; u]
            (Some ")"%char) rest)) /\
  (matchHere startLinkRegex prev s = Some m <->
   exists t u rest,
     atLineStart prev = true /\ okText t /\ okTarget u /\
     s = LinkSpan t u ++ rest /\
     m = mkMatch (LinkSpan t u) [t; u] (Some ")"%char) rest).
Proof.
  split; [intros _ | ]; split.
  - apply linkRegex_elim.
  - intros (c & t & u & rest & Hc & Ht & Hu & -> & ->).
    now apply linkRegex_intro.
  - apply startLinkRegex_elim.
  - intros (t & u & rest & Hp & Ht & Hu & -> & ->).
    now apply startLinkRegex_intro.
Qed.

Lemma link_patterns_match_witness :
  isASCII " " = true /\
  matchHere linkRegex None " [a](b.md) and more" =
    Some (mkMatch " [a](b.md)" [" "; "a"; "b.md"] (Some ")"%char) " and more") /\
  matchHere startLinkRegex (Some "a"%char) "[a](b.md)" = None.
Proof.
  split; [reflexivity | ]. split.
  - apply (proj1 (link_patterns_match None " [a](b.md) and more" _)).
    { intros c s' E. injection E as <- _. reflexivity. }
    exists " "%char, "a", "b.md", " and more".
    repeat split; try reflexivity; discriminate.
  - destruct (matchHere startLinkRegex (Some "a"%char) "[a](b.md)") as [m|] eqn:E;
      [ | reflexivity].
    apply (proj2 (link_patterns_match (Some "a"%char) "[a](b.md)" m)) in E.
    destruct E as (t & u & rest & Hp & _). discriminate.
Defined.

(** Property X5.  At a position of a text the pattern of the image embedder
    matches exactly an image reference [![alt](target)], where the
    alternative text runs to the first closing bracket and the target, which
    is not empty, to the first closing parenthesis; its groups are the
    alternative text and the target.  The byte before the position plays no
    part. *)
Theorem image_pattern_match (prev : option ascii) (s : string) (m : Match) :
  matchHere imgRegex prev s = Some m <->
  exists alt p rest,
    okText alt /\ okTarget p /\ s = ImageSpan alt p ++ rest /\
    m = mkMatch (ImageSpan alt p) [alt; p] (Some ")"%char) rest.
Proof.
  split.
  - apply imgRegex_elim.
  - intros (t & u & rest & Ht & Hu & -> & ->). now apply imgRegex_intro.
Qed.

Lemma image_pattern_match_witness :
  matchHere imgRegex (Some "x"%char) "![Logo](logo.png)(more)" =
  Some (mkMatch "![Logo](logo.png)" ["Logo"; "logo.png"] (Some ")"%char) "(more)").
Proof.
  apply (proj2 (image_pattern_match (Some "x"%char) "![Logo](logo.png)(more)" _)).
  exists "Logo", "logo.png", "(more)".
  repeat split; try reflexivity; discriminate.
Defined.

(** Property X6.  The guards [len(parts) < 4] and [len(parts) < 3] at the
    head of the three replacement functions never fire: for every match
    that the replacement loop finds in a text, matching the pattern again on
    the text of the match alone gives the whole match and the same groups. *)
Theorem callback_guards_never_fire (prev : option ascii) (s before : string)
    (m : Match) :
  (find linkRegex prev s = Some (before, m) ->
   FindStringSubmatch linkRegex (m_text m) = m_text m :: m_groups m /\
   Nat.ltb (List.length (FindStringSubmatch linkRegex (m_text m))) 4 = false) /\
  (find startLinkRegex prev s = Some (before, m) ->
   FindStringSubmatch startLinkRegex (m_text m) = m_text m :: m_groups m /\
   Nat.ltb (List.length (FindStringSubmatch startLinkRegex (m_text m))) 3
   = false) /\
  (find imgRegex prev s = Some (before, m) ->
   FindStringSubmatch imgRegex (m_text m) = m_text m :: m_groups m /\
   Nat.ltb (List.length (FindStringSubmatch imgRegex (m_text m))) 3 = false).
Proof.
  split; [ | split]; intros F;
    apply find_matchHere in F as (s' & _ & Hm).
  - apply linkRegex_elim in Hm as (c & t & u & rest & Hc & Ht & Hu & _ & ->).
    cbn [m_text m_groups]. now rewrite (FindStringSubmatch_link c t u Hc Ht Hu).
  - apply startLinkRegex_elim in Hm as (t & u & rest & _ & Ht & Hu & _ & ->).
    cbn [m_text m_groups]. now rewrite (FindStringSubmatch_startLink t u Ht Hu).
  - apply imgRegex_elim in Hm as (t & u & rest & Ht & Hu & _ & ->).
    cbn [m_text m_groups]. now rewrite (FindStringSubmatch_img t u Ht Hu).
Qed.

Lemma callback_guards_never_fire_witness :
  find startLinkRegex None ("intro" ++ String "010" "[a](b.md) tail") =
    Some ("intro" ++ String "010" EmptyString,
          mkMatch "[a](b.md)" ["a"; "b.md"] (Some ")"%char) " tail") /\
  FindStringSubmatch startLinkRegex "[a](b.md)" = ["[a](b.md)"; "a"; "b.md"].
Proof.
  assert (F : find startLinkRegex None ("intro" ++ String "010" "[a](b.md) tail") =
              Some ("intro" ++ String "010" EmptyString,
                    mkMatch "[a](b.md)" ["a"; "b.md"] (Some ")"%char) " tail"))
    by (vm_compute; reflexivity).
  split; [exact F | ].
  exact (proj1 (proj1 (proj2 (callback_guards_never_fire None _ _ _)) F)).
Defined.

(** ** Substrings *)

Lemma contains_tail (sub : string) (c : ascii) (s : string) :
  contains sub (String c s) = false -> contains sub s = false.
Proof. cbn [contains]. intros H. now apply orb_false_iff in H. Qed.

(** ** The link rewriter changes nothing but [.md)] *)

Lemma MdToHtml_refl (s : string) : MdToHtml s s.
Proof. induction s; now constructor. Qed.

Lemma MdToHtml_app (a a' b b' : string) :
  MdToHtml a a' -> MdToHtml b b' -> MdToHtml (a ++ b) (a' ++ b').
Proof.
  intros Ha Hb. induction Ha as [|c s s' _ IH|s s' _ IH].
  - exact Hb.
  - cbn [append]. now constructor.
  - rewrite !append_assoc. now constructor.
Qed.

Lemma MdToHtml_length (s s' : string) :
  MdToHtml s s' -> String.length s <= String.length s'.
Proof.
  induction 1 as [|c s s' _ IH|s s' _ IH]; cbn [String.length append]; lia.
Qed.

Lemma MdToHtml_none (s s' : string) :
  MdToHtml s s' -> contains ".md)" s = false -> s' = s.
Proof.
  induction 1 as [|c s s' _ IH|s s' _ IH]; intros Hc.
  - reflexivity.
  - f_equal. apply IH. now apply contains_tail in Hc.
  - exfalso. change (".md)" ++ s) with (EmptyString ++ ".md)" ++ s) in Hc.
    now rewrite contains_intro in Hc.
Qed.

(** A byte other than a dot is kept. *)
Lemma MdToHtml_from_keep (c : ascii) (s out : string) :
  MdToHtml (String c s) out -> c <> "."%char ->
  exists out', out = String c out' /\ MdToHtml s out'.
Proof.
  intros H Hc. inversion H; subst; [eauto | now elim Hc].
Qed.

(** A byte other than a dot was kept. *)
Lemma MdToHtml_to_keep (c : ascii) (s out : string) :
  MdToHtml s (String c out) -> c <> "."%char ->
  exists s', s = String c s' /\ MdToHtml s' out.
Proof.
  intros H Hc. inversion H; subst; [eauto | now elim Hc].
Qed.

(** Replacing in two rounds is replacing in one: [.html)] has no [.md)], and
    none begins or ends inside it. *)
Lemma MdToHtml_trans (a b : string) :
  MdToHtml a b -> forall c, MdToHtml b c -> MdToHtml a c.
Proof.
  induction 1 as [|x s s' Hs IH|s s' Hs IH]; intros c Hc.
  - exact Hc.
  - inversion Hc as [|x' t t' Ht|t t' Ht]; subst.
    + constructor. now apply IH.
    + specialize (IH ("md)" ++ t')
                    (MdToHtml_keep _ _ _ (MdToHtml_keep _ _ _
                       (MdToHtml_keep _ _ _ Ht)))).
      destruct (MdToHtml_to_keep _ _ _ Hs ltac:(discriminate)) as (s1 & -> & H1).
      destruct (MdToHtml_to_keep _ _ _ H1 ltac:(discriminate)) as (s2 & -> & H2).
      destruct (MdToHtml_to_keep _ _ _ H2 ltac:(discriminate)) as (s3 & -> & H3).
      cbn [append] in IH.
      destruct (MdToHtml_from_keep _ _ _ IH ltac:(discriminate)) as (o1 & E1 & K1).
      injection E1 as <-.
      destruct (MdToHtml_from_keep _ _ _ K1 ltac:(discriminate)) as (o2 & E2 & K2).
      injection E2 as <-.
      destruct (MdToHtml_from_keep _ _ _ K2 ltac:(discriminate)) as (o3 & E3 & K3).
      injection E3 as <-.
      now apply (MdToHtml_md s3 t').
  - cbn [append] in Hc.
    inversion Hc as [|x' t t' Ht|t t' Ht]; subst.
    destruct (MdToHtml_from_keep _ _ _ Ht ltac:(discriminate)) as (o1 & -> & K1).
    destruct (MdToHtml_from_keep _ _ _ K1 ltac:(discriminate)) as (o2 & -> & K2).
    destruct (MdToHtml_from_keep _ _ _ K2 ltac:(discriminate)) as (o3 & -> & K3).
    destruct (MdToHtml_from_keep _ _ _ K3 ltac:(discriminate)) as (o4 & -> & K4).
    destruct (MdToHtml_from_keep _ _ _ K4 ltac:(discriminate)) as (o5 & -> & K5).
    apply (MdToHtml_md s o5). now apply IH.
Qed.

(** A relation that holds between every match and its replacement, and that
    is kept by concatenation, holds between the text and the result of the
    pass. *)
Lemma replaceLoop_related (R : string -> string -> Prop) (re : Regexp)
    (f : string -> string) :
  nonEmptyRe re ->
  (forall s, R s s) ->
  (forall a a' b b', R a a' -> R b b' -> R (a ++ b) (a' ++ b')) ->
  (forall p s m, matchHere re p s = Some m -> R (m_text m) (f (m_text m))) ->
  forall fuel prev s atEnd,
    R s (fst (replaceLoop fuel re (pureRepl f) prev s atEnd tt)).
Proof.
  intros N Hrefl Happ Hf fuel.
  induction fuel as [|fuel IH]; intros prev s atEnd; [apply Hrefl | ].
  rewrite (replaceLoop_step re _ N).
  destruct (find re prev s) as [[before m]|] eqn:F; [ | apply Hrefl].
  pose proof (find_split _ _ _ _ _ F) as Es.
  apply find_matchHere in F as (s' & _ & Hm).
  unfold pureRepl at 1.
  specialize (IH (m_prev m) (m_rest m) true).
  destruct (replaceLoop fuel re (pureRepl f) (m_prev m) (m_rest m) true tt)
    as [out st]. cbn [fst] in *.
  rewrite Es at 1.
  apply Happ; [apply Hrefl | ]. apply Happ; [ | exact IH].
  now apply (Hf _ _ _ Hm).
Qed.

Lemma LinkSpan_end (t v e : string) :
  LinkSpan t (v ++ e) = String "[" (t ++ "](" ++ v) ++ (e ++ ")").
Proof.
  unfold LinkSpan. cbn [append]. f_equal. rewrite !append_assoc.
  reflexivity.
Qed.

Lemma MdToHtml_target (t u : string) :
  MdToHtml (LinkSpan t u) (LinkSpan t (rewriteTarget u)).
Proof.
  destruct (skipLink u) eqn:Hs;
    [rewrite (rewriteTarget_skip u Hs); apply MdToHtml_refl | ].
  destruct (HasSuffix u ".md") eqn:Hm.
  - pose proof (HasSuffix_inv _ _ Hm) as E.
    assert (Er : rewriteTarget u = TrimSuffix u ".md" ++ ".html")
      by (unfold rewriteTarget; now rewrite Hs, Hm).
    rewrite Er. rewrite E at 1. rewrite !LinkSpan_end.
    apply MdToHtml_app; [apply MdToHtml_refl | ].
    apply (MdToHtml_md EmptyString EmptyString). constructor.
  - assert (Er : rewriteTarget u = u)
      by (unfold rewriteTarget; now rewrite Hs, Hm).
    rewrite Er. apply MdToHtml_refl.
Qed.

Lemma linkPass_MdToHtml (s : string) : MdToHtml s (linkPass s).
Proof.
  unfold linkPass, ReplaceAllStringFunc, ReplaceAllStringFuncM, replaceFrom.
  change (fun (m : string) (st : unit) => (linkFunc m, st))
    with (pureRepl linkFunc).
  apply (replaceLoop_related MdToHtml linkRegex linkFunc linkRegex_nonempty
           MdToHtml_refl MdToHtml_app).
  intros p s0 m Hm.
  apply linkRegex_elim in Hm as (c & t & u & rest & Hc & Ht & Hu & _ & ->).
  cbn [m_text]. rewrite (linkFunc_span c t u Hc Ht Hu).
  constructor. apply MdToHtml_target.
Qed.

Lemma startLinkPassFrom_MdToHtml (prev : option ascii) (s : string) :
  MdToHtml s (startLinkPassFrom prev s).
Proof.
  unfold startLinkPassFrom, replaceFrom.
  apply (replaceLoop_related MdToHtml startLinkRegex startLinkFunc
           startLinkRegex_nonempty MdToHtml_refl MdToHtml_app).
  intros p s0 m Hm.
  apply startLinkRegex_elim in Hm as (t & u & rest & _ & Ht & Hu & _ & ->).
  cbn [m_text]. rewrite (startLinkFunc_span t u Ht Hu).
  apply MdToHtml_target.
Qed.

Lemma rewriteMarkdownLinks_MdToHtml (s : string) :
  MdToHtml s (rewriteMarkdownLinks s).
Proof.
  change (rewriteMarkdownLinks s) with (startLinkPassFrom None (linkPass s)).
  apply (MdToHtml_trans _ _ (linkPass_MdToHtml s)).
  apply startLinkPassFrom_MdToHtml.
Qed.

(** Property X7.  Whatever the text, the link rewriter changes nothing in it
    but occurrences of [.md)], each of which it keeps or replaces by
    [.html)]; so the result is never shorter than the text. *)
Theorem rewriteMarkdownLinks_only_md (mdContent : string) :
  MdToHtml mdContent (rewriteMarkdownLinks mdContent) /\
  String.length mdContent <= String.length (rewriteMarkdownLinks mdContent).
Proof.
  pose proof (rewriteMarkdownLinks_MdToHtml mdContent) as H.
  split; [exact H | now apply MdToHtml_length].
Qed.

(** Property X8.  A text in which [.md)] does not occur is returned as it
    is by the link rewriter: the empty text, a text without links, a text
    whose links all lead elsewhere, among them a link to a part of a
    Markdown file, [[x](y.md#top)]. *)
Theorem rewriteMarkdownLinks_without_md (mdContent : string) :
  contains ".md)" mdContent = false ->
  rewriteMarkdownLinks mdContent = mdContent.
Proof.
  intros H.
  now apply (MdToHtml_none _ _ (rewriteMarkdownLinks_MdToHtml mdContent)).
Qed.

Lemma rewriteMarkdownLinks_without_md_witness :
  contains ".md)" "See [docs](guide.html) and [x](y.md#top)." = false /\
  rewriteMarkdownLinks "See [docs](guide.html) and [x](y.md#top)." =
  "See [docs](guide.html) and [x](y.md#top).".
Proof.
  split; [reflexivity | ].
  exact (rewriteMarkdownLinks_without_md
           "See [docs](guide.html) and [x](y.md#top)." eq_refl).
Defined.

(** ** Texts in which every opening bracket follows an exclamation mark *)

Lemma bracketsFollowBang_at (a r : string) (prev : option ascii) :
  bracketsFollowBang prev (a ++ String "[" r) = true ->
  lastOr prev a = Some "!"%char.
Proof.
  revert prev. induction a as [|x a IH]; intros prev H.
  - cbn in H. apply andb_true_iff in H as [H _].
    destruct prev as [p|]; [ | discriminate]. cbn [lastOr].
    apply Ascii.eqb_eq in H. now subst p.
  - cbn [append bracketsFollowBang] in H. apply andb_true_iff in H as [_ H].
    cbn [lastOr]. now apply IH.
Qed.

Lemma bracketsFollowBang_any (s : string) (q : option ascii) :
  bracketsFollowBang None s = true -> bracketsFollowBang q s = true.
Proof.
  destruct s as [|x s]; [reflexivity | ]. cbn [bracketsFollowBang].
  intros H. apply andb_true_iff in H as [H1 H2]. rewrite H2, andb_true_r.
  rewrite orb_false_r in H1. now rewrite H1.
Qed.

Lemma bracketsFollowBang_snoc (s : string) (c : ascii) (q : option ascii) :
  bracketsFollowBang q s = true -> c <> "["%char ->
  bracketsFollowBang q (s ++ String c EmptyString) = true.
Proof.
  revert q. induction s as [|x s IH]; intros q H Hc.
  - cbn. destruct (Ascii.eqb_spec c "["); [contradiction | reflexivity].
  - cbn [append bracketsFollowBang] in *. apply andb_true_iff in H as [H1 H2].
    rewrite H1. now apply IH.
Qed.

Lemma bracketsFollowBang_head (s r : string) :
  bracketsFollowBang None s = true -> s <> String "[" r.
Proof. intros H ->. discriminate. Qed.

Lemma plain_brackets (s : string) (q : option ascii) :
  occurs "[" s = false -> bracketsFollowBang q s = true.
Proof.
  revert q. induction s as [|x s IH]; intros q H; [reflexivity | ].
  cbn [occurs] in H. apply orb_false_iff in H as [H1 H2].
  cbn [bracketsFollowBang]. now rewrite H1, IH.
Qed.

(** The first pattern matches nowhere at an exclamation mark. *)
Lemma linkRegex_needs_other (prev : option ascii) (s : string) :
  matchHere linkRegex prev (String "!" s) = None.
Proof.
  destruct (matchHere linkRegex prev (String "!" s)) as [m|] eqn:Hm;
    [ | reflexivity].
  apply linkRegex_elim in Hm as (c & t & u & rest & Hc & _ & _ & E & _).
  injection E as <- _. now elim Hc.
Qed.

(** No match of the first pattern starts in such a text, when what follows
    it does not begin with an opening bracket. *)
Lemma no_link_start (pre s2 : string) (q : option ascii) :
  bracketsFollowBang q pre = true ->
  (forall r, s2 <> String "[" r) ->
  forall a x b p, pre = a ++ String x b ->
    matchHere linkRegex p (String x b ++ s2) = None.
Proof.
  intros Hb Hs a x b p E. cbn [append].
  destruct b as [|y b].
  - apply linkRegex_needs_bracket. exact Hs.
  - destruct (Ascii.eqb_spec y "[") as [-> | Hy].
    + rewrite E in Hb.
      replace (a ++ String x (String "[" b))
        with ((a ++ String x EmptyString) ++ String "[" b) in Hb
        by (now rewrite append_assoc).
      apply bracketsFollowBang_at in Hb. rewrite lastOr_app in Hb.
      cbn [lastOr] in Hb. injection Hb as ->. apply linkRegex_needs_other.
    + apply linkRegex_needs_bracket. intros r Er. cbn [append] in Er.
      injection Er as Er _. contradiction.
Qed.

(** Nor does a match of the second pattern. *)
Lemma no_startLink_start (pre s2 : string) (prev : option ascii) :
  bracketsFollowBang prev pre = true ->
  forall a x b, pre = a ++ String x b ->
    matchHere startLinkRegex (lastOr prev a) (String x b ++ s2) = None.
Proof.
  intros Hb a x b E.
  destruct (Ascii.eqb_spec x "[") as [-> | Hx];
    [ | now apply startLinkRegex_needs_bracket].
  rewrite E in Hb. apply bracketsFollowBang_at in Hb.
  apply startLinkRegex_needs_line_start. now rewrite Hb.
Qed.

Lemma linkPass_skip_text (pre s2 : string) (q : option ascii) :
  bracketsFollowBang q pre = true ->
  (forall r, s2 <> String "[" r) ->
  linkPass (pre ++ s2) = pre ++ linkPass s2.
Proof.
  intros Hb Hs. apply linkPass_skip_none.
  intros a x b p E. now apply (no_link_start pre s2 q Hb Hs a x b p).
Qed.

Lemma startLinkPassFrom_skip_text (prev : option ascii) (pre s2 : string) :
  bracketsFollowBang prev pre = true ->
  startLinkPassFrom prev (pre ++ s2) =
  pre ++ startLinkPassFrom (lastOr prev pre) s2.
Proof.
  intros Hb. unfold startLinkPassFrom.
  apply (pure_skip_many _ _ startLinkRegex_nonempty).
  intros a x b E.
  now apply (no_startLink_start pre s2 prev Hb).
Qed.

Lemma rewriteMarkdownLinks_skip_text (s : string) :
  bracketsFollowBang None s = true -> rewriteMarkdownLinks s = s.
Proof.
  intros H.
  change (rewriteMarkdownLinks s) with (startLinkPassFrom None (linkPass s)).
  pose proof (linkPass_skip_text s EmptyString None H ltac:(discriminate)) as E1.
  rewrite append_nil_r, linkPass_nil, append_nil_r in E1. rewrite E1.
  pose proof (startLinkPassFrom_skip_text None s EmptyString H) as E2.
  rewrite append_nil_r, startLinkPassFrom_nil, append_nil_r in E2. exact E2.
Qed.

(** Property X9.  A text in which every opening bracket comes directly
    after an exclamation mark, so that its only bracketed spans are image
    references, is returned as it is by the link rewriter: the target of an
    image reference is not rewritten, even when it ends with [.md]. *)
Theorem rewriteMarkdownLinks_bracket_free (mdContent : string) :
  bracketsFollowBang None mdContent = true ->
  rewriteMarkdownLinks mdContent = mdContent.
Proof. apply rewriteMarkdownLinks_skip_text. Qed.

Lemma rewriteMarkdownLinks_bracket_free_witness :
  bracketsFollowBang None "Look! ![diagram](arch.md) and ![x](y.md)" = true /\
  rewriteMarkdownLinks "Look! ![diagram](arch.md) and ![x](y.md)" =
  "Look! ![diagram](arch.md) and ![x](y.md)".
Proof.
  split; [reflexivity | ].
  exact (rewriteMarkdownLinks_bracket_free
           "Look! ![diagram](arch.md) and ![x](y.md)" eq_refl).
Defined.

(** ** The link rewriter on a text whose links stand apart *)

Lemma linksText_head (items : list (string * ascii * string * string))
    (tail r : string) :
  Forall separateLink items -> bracketsFollowBang None tail = true ->
  linksText items tail <> String "[" r.
Proof.
  intros Hi Ht. destruct Hi as [|[[[pre c] t] u] items (Hp & _ & Hc & _) _].
  - now apply bracketsFollowBang_head.
  - cbn [linksText]. destruct pre as [|x pre]; cbn [append].
    + intros E. injection E as E _. contradiction.
    + intros E. injection E as -> _. discriminate.
Qed.

Lemma separateLink_rewrite (item : string * ascii * string * string) :
  separateLink item ->
  separateLink (let '(pre, c, text, target) := item in
                (pre, c, text, rewriteTarget target)).
Proof.
  destruct item as [[[pre c] t] u]. intros (Hp & Hc & Hb & Ht & Hu & Hbt & Hbu).
  repeat split; try assumption.
  - now apply rewriteTarget_ok.
  - now apply rewriteTarget_ok.
  - now apply rewriteTarget_plain.
Qed.

Lemma rewriteItems_ok (items : list (string * ascii * string * string)) :
  Forall separateLink items -> Forall separateLink (rewriteItems items).
Proof.
  intros H. unfold rewriteItems. apply Forall_map.
  apply (Forall_impl _ separateLink_rewrite H).
Qed.

Lemma rewriteItems_idem (items : list (string * ascii * string * string)) :
  rewriteItems (rewriteItems items) = rewriteItems items.
Proof.
  unfold rewriteItems. rewrite map_map. apply map_ext.
  intros [[[pre c] t] u]. now rewrite rewriteTarget_idem.
Qed.

(** The first pass rewrites every link of the text. *)
Lemma linkPass_items (items : list (string * ascii * string * string))
    (tail : string) :
  Forall separateLink items -> bracketsFollowBang None tail = true ->
  linkPass (linksText items tail) = linksText (rewriteItems items) tail.
Proof.
  intros Hi Ht.
  induction Hi as [|[[[pre c] t] u] items (Hp & Hc & Hb & Hl) Hi IH].
  - cbn [linksText rewriteItems map].
    pose proof (linkPass_skip_text tail EmptyString None Ht ltac:(discriminate))
      as E.
    now rewrite append_nil_r, linkPass_nil, append_nil_r in E.
  - cbn [linksText rewriteItems map]. fold (rewriteItems items).
    destruct Hl as (Ht' & Hu & _).
    rewrite (linkPass_skip_text pre _ None Hp).
    + now rewrite (linkPass_step c t u _ Hc Ht' Hu), IH.
    + cbn [append]. intros r E. injection E as E _. contradiction.
Qed.

(** The second pass finds the links rewritten, and leaves them. *)
Lemma startLinkPassFrom_items (items : list (string * ascii * string * string))
    (tail : string) :
  Forall separateLink items -> bracketsFollowBang None tail = true ->
  forall prev,
    startLinkPassFrom prev (linksText (rewriteItems items) tail) =
    linksText (rewriteItems items) tail.
Proof.
  intros Hi Ht.
  induction Hi as [|[[[pre c] t] u] items (Hp & Hc & Hb & Hl) Hi IH];
    intros prev.
  - cbn [linksText rewriteItems map].
    pose proof (startLinkPassFrom_skip_text prev tail EmptyString
                  (bracketsFollowBang_any tail prev Ht)) as E.
    now rewrite append_nil_r, startLinkPassFrom_nil, append_nil_r in E.
  - cbn [linksText rewriteItems map]. fold (rewriteItems items).
    destruct Hl as (Ht' & Hu & Hbt & Hbu).
    replace (pre ++ String c (LinkSpan t (rewriteTarget u)) ++
             linksText (rewriteItems items) tail)
      with ((pre ++ String c EmptyString) ++
            (LinkSpan t (rewriteTarget u) ++ linksText (rewriteItems items) tail))
      by (now rewrite append_assoc).
    rewrite startLinkPassFrom_skip_text
      by (apply bracketsFollowBang_snoc;
          [now apply bracketsFollowBang_any | exact Hb]).
    rewrite lastOr_app. cbn [lastOr].
    rewrite (startLinkPassFrom_done c t u _ Ht' Hu Hbt Hbu).
    now rewrite IH.
Qed.

Lemma rewriteMarkdownLinks_items (items : list (string * ascii * string * string))
    (tail : string) :
  Forall separateLink items -> bracketsFollowBang None tail = true ->
  rewriteMarkdownLinks (linksText items tail) =
  linksText (rewriteItems items) tail.
Proof.
  intros Hi Ht.
  change (rewriteMarkdownLinks (linksText items tail))
    with (startLinkPassFrom None (linkPass (linksText items tail))).
  rewrite (linkPass_items items tail Hi Ht).
  now apply startLinkPassFrom_items.
Qed.

(** The first pass passes over a link at the start of the text. *)
Lemma linkPass_over_link (t u s2 : string) :
  occurs "[" t = false -> occurs "[" u = false ->
  (forall r, s2 <> String "[" r) ->
  linkPass (LinkSpan t u ++ s2) = LinkSpan t u ++ linkPass s2.
Proof.
  intros Hbt Hbu Hs. apply linkPass_skip_many. intros a y b Eb r Er.
  assert (Hall : occurs "[" (t ++ String "]" (String "(" (u ++ ")"))) = false).
  { rewrite occurs_app. cbn. rewrite occurs_app. cbn. now rewrite Hbt, Hbu. }
  assert (Hb : occurs "[" b = false).
  { rewrite LinkSpan_eq in Eb.
    destruct a as [|a0 a]; cbn [append] in Eb.
    - injection Eb as _ <-. exact Hall.
    - injection Eb as _ Eb. rewrite Eb in Hall. apply occurs_suffix in Hall.
      cbn in Hall. now apply orb_false_iff in Hall. }
  destruct b as [|b0 b]; cbn [append] in Er.
  - now elim (Hs r).
  - injection Er as -> _. cbn in Hb. discriminate.
Qed.

Lemma rewriteMarkdownLinks_items_from_start
    (t0 u0 : string) (items : list (string * ascii * string * string))
    (tail : string) :
  plainLink t0 u0 ->
  Forall separateLink items -> bracketsFollowBang None tail = true ->
  rewriteMarkdownLinks (LinkSpan t0 u0 ++ linksText items tail) =
  LinkSpan t0 (rewriteTarget u0) ++ linksText (rewriteItems items) tail.
Proof.
  intros (Ht0 & Hu0 & Hbt & Hbu) Hi Ht.
  change (rewriteMarkdownLinks (LinkSpan t0 u0 ++ linksText items tail))
    with (startLinkPassFrom None
            (linkPass (LinkSpan t0 u0 ++ linksText items tail))).
  rewrite (linkPass_over_link t0 u0 _ Hbt Hbu)
    by (intros r; now apply linksText_head).
  rewrite (linkPass_items items tail Hi Ht).
  rewrite (startLinkPassFrom_step None t0 u0 _ eq_refl Ht0 Hu0).
  now rewrite (startLinkPassFrom_items items tail Hi Ht).
Qed.

(** Property X10.  In a text whose links stand apart, each after at least
    one byte that is neither [!] nor [[], with no opening bracket inside a
    link and none between the links but those of image references, the link
    rewriter rewrites the target of every link, local targets ending with
    [.md] to [.html] and no other, and keeps the rest of the text; the same
    holds when the text begins with one more link; and run on its result,
    the link rewriter changes nothing. *)
Theorem rewriteMarkdownLinks_every_link
    (items : list (string * ascii * string * string)) (tail : string) :
  Forall separateLink items -> bracketsFollowBang None tail = true ->
  rewriteMarkdownLinks (linksText items tail) =
    linksText (rewriteItems items) tail /\
  (forall t0 u0, plainLink t0 u0 ->
     rewriteMarkdownLinks (LinkSpan t0 u0 ++ linksText items tail) =
     LinkSpan t0 (rewriteTarget u0) ++ linksText (rewriteItems items) tail) /\
  rewriteMarkdownLinks (linksText (rewriteItems items) tail) =
    linksText (rewriteItems items) tail.
Proof.
  intros Hi Ht. split; [now apply rewriteMarkdownLinks_items | ].
  split; [intros t0 u0 Hl; now apply rewriteMarkdownLinks_items_from_start | ].
  rewrite (rewriteMarkdownLinks_items _ tail (rewriteItems_ok items Hi) Ht).
  now rewrite rewriteItems_idem.
Qed.

Lemma rewriteMarkdownLinks_every_link_witness :
  (Forall separateLink
     [("See", " "%char, "a", "a.md");
      (" and ![i](p.md),", "010"%char, "b", "https://h/b.md");
      (" or", "("%char, "c", "../c.md")] /\
   bracketsFollowBang None ")." = true /\ plainLink "Start" "start.md") /\
  rewriteMarkdownLinks
    ("See [a](a.md) and ![i](p.md)," ++
     String "010" "[b](https://h/b.md) or([c](../c.md)).") =
    "See [a](a.html) and ![i](p.md)," ++
     String "010" "[b](https://h/b.md) or([c](../c.html))." /\
  rewriteMarkdownLinks
    ("[Start](start.md)See [a](a.md) and ![i](p.md)," ++
     String "010" "[b](https://h/b.md) or([c](../c.md)).") =
    "[Start](start.html)See [a](a.html) and ![i](p.md)," ++
     String "010" "[b](https://h/b.md) or([c](../c.html)).".
Proof.
  assert (Hi : Forall separateLink
                 [("See", " "%char, "a", "a.md");
                  (" and ![i](p.md),", "010"%char, "b", "https://h/b.md");
                  (" or", "("%char, "c", "../c.md")]).
  { repeat constructor; try reflexivity; discriminate. }
  assert (Hs : plainLink "Start" "start.md")
    by (repeat split; try reflexivity; discriminate).
  split; [now repeat split | ].
  destruct (rewriteMarkdownLinks_every_link _ ")." Hi eq_refl) as (E1 & E2 & _).
  split; [exact E1 | exact (E2 "Start" "start.md" Hs)].
Defined.

(** The second pass passes over a link that is not at the start of a line. *)
Lemma startLinkPassFrom_over_link (prev : option ascii) (t u rest : string) :
  atLineStart prev = false ->
  occurs "[" t = false -> occurs "[" u = false ->
  startLinkPassFrom prev (LinkSpan t u ++ rest) =
  LinkSpan t u ++ startLinkPassFrom (Some ")"%char) rest.
Proof.
  intros Hl Hbt Hbu. rewrite LinkSpan_app.
  rewrite (startLinkPassFrom_skip _ _ _
             (startLinkRegex_needs_line_start _ _ Hl)).
  f_equal.
  assert (E : t ++ String "]" (String "(" (u ++ String ")" rest))
              = (t ++ String "]" (String "(" (u ++ ")"))) ++ rest).
  { rewrite !append_assoc. cbn. do 3 f_equal. now rewrite append_assoc. }
  rewrite E, startLinkPassFrom_skip_plain.
  - rewrite !lastOr_app. cbn [lastOr]. rewrite lastOr_app. reflexivity.
  - rewrite occurs_app. cbn. rewrite occurs_app. cbn.
    now rewrite Hbt, Hbu.
Qed.

(** Property X11.  A link that directly follows another link is copied as
    it is, also when its target is local and ends with [.md]: the first
    pattern needs the byte before the opening bracket, which is the closing
    parenthesis the match of the link before has taken, and the second
    pattern needs the start of a line.  The link before it and the links
    after it, which stand apart, have their targets rewritten. *)
Theorem rewriteMarkdownLinks_adjacent_link
    (pre : string) (c : ascii) (t u t2 u2 : string)
    (items : list (string * ascii * string * string)) (tail : string) :
  separateLink (pre, c, t, u) -> plainLink t2 u2 ->
  Forall separateLink items -> bracketsFollowBang None tail = true ->
  rewriteMarkdownLinks
    (pre ++ String c (LinkSpan t u) ++ LinkSpan t2 u2 ++ linksText items tail) =
  pre ++ String c (LinkSpan t (rewriteTarget u)) ++ LinkSpan t2 u2 ++
  linksText (rewriteItems items) tail.
Proof.
  intros (Hp & Hc & Hb & Ht & Hu & Hbt & Hbu) (Ht2 & Hu2 & Hbt2 & Hbu2) Hi Htl.
  change (rewriteMarkdownLinks ?s) with (startLinkPassFrom None (linkPass s)).
  rewrite (linkPass_skip_text pre _ None Hp)
    by (cbn [append]; intros r E; injection E as E _; contradiction).
  change (String c (LinkSpan t u) ++ LinkSpan t2 u2 ++ linksText items tail)
    with (String c (LinkSpan t u) ++ (LinkSpan t2 u2 ++ linksText items tail)).
  rewrite (linkPass_step c t u _ Hc Ht Hu).
  rewrite (linkPass_over_link t2 u2 _ Hbt2 Hbu2)
    by (intros r; now apply linksText_head).
  rewrite (linkPass_items items tail Hi Htl).
  replace (pre ++ String c (LinkSpan t (rewriteTarget u)) ++
           LinkSpan t2 u2 ++ linksText (rewriteItems items) tail)
    with ((pre ++ String c EmptyString) ++
          (LinkSpan t (rewriteTarget u) ++
           LinkSpan t2 u2 ++ linksText (rewriteItems items) tail))
    by (now rewrite append_assoc).
  rewrite startLinkPassFrom_skip_text
    by (apply bracketsFollowBang_snoc; [exact Hp | exact Hb]).
  rewrite lastOr_app. cbn [lastOr].
  rewrite (startLinkPassFrom_done c t u _ Ht Hu Hbt Hbu).
  rewrite (startLinkPassFrom_over_link (Some ")"%char) t2 u2 _ eq_refl
             Hbt2 Hbu2).
  rewrite (startLinkPassFrom_items items tail Hi Htl).
  now rewrite append_assoc.
Qed.

Lemma rewriteMarkdownLinks_adjacent_link_witness :
  (separateLink ("See", " "%char, "a", "a.md") /\ plainLink "b" "b.md" /\
   Forall separateLink [(",", " "%char, "c", "c.md")] /\
   bracketsFollowBang None "." = true) /\
  rewriteMarkdownLinks "See [a](a.md)[b](b.md), [c](c.md)." =
  "See [a](a.html)[b](b.md), [c](c.html).".
Proof.
  assert (H1 : separateLink ("See", " "%char, "a", "a.md"))
    by (repeat split; try reflexivity; discriminate).
  assert (H2 : plainLink "b" "b.md")
    by (repeat split; try reflexivity; discriminate).
  assert (H3 : Forall separateLink [(",", " "%char, "c", "c.md")])
    by (repeat constructor; try reflexivity; discriminate).
  split; [now repeat split | ].
  exact (rewriteMarkdownLinks_adjacent_link "See" " "%char "a" "a.md" "b" "b.md"
           _ "." H1 H2 H3 eq_refl).
Defined.

(** ** The base64 text *)

Lemma encode_alphabet (i : Z) :
  (0 <= i < 64)%Z -> occurs (encode i) encodeStd = true.
Proof.
  intros H.
  assert (A : forallb (fun n : nat => occurs (encode (Z.of_nat n)) encodeStd)
                (seq 0 64) = true) by (vm_compute; reflexivity).
  rewrite forallb_forall in A.
  specialize (A (Z.to_nat i)). rewrite Z2Nat.id in A by lia.
  apply A, in_seq. lia.
Qed.

Lemma land63_range (v : Z) : (0 <= Z.land v 63 < 64)%Z.
Proof.
  change 63%Z with (Z.ones 6). rewrite Z.land_ones by lia.
  apply Z.mod_pos_bound. reflexivity.
Qed.

Lemma allChars_occurs (P : ascii -> bool) (c : ascii) (s : string) :
  allChars P s = true -> P c = false -> occurs c s = false.
Proof.
  intros H Hc. induction s as [|a s IH]; [reflexivity | ].
  cbn in H. apply andb_true_iff in H as [H1 H2]. cbn.
  rewrite (IH H2), orb_false_r.
  destruct (Ascii.eqb_spec a c) as [-> | _]; [congruence | reflexivity].
Qed.

Lemma EncodeToString_chars (data : string) :
  allChars base64Char (EncodeToString data) = true.
Proof.
  induction data as [| | |a b c s IH] using string_ind3;
    cbn [EncodeToString allChars]; unfold base64Char;
    rewrite ?encode_alphabet by (first [apply sextet_range | apply land63_range]);
    cbn [orb andb]; try reflexivity.
  exact IH.
Qed.

Lemma EncodeToString_length (data : string) :
  String.length (EncodeToString data) = 4 * ((String.length data + 2) / 3).
Proof.
  induction data as [| | |a b c s IH] using string_ind3;
    try reflexivity.
  cbn [EncodeToString String.length]. rewrite IH.
  replace (S (S (S (String.length s))) + 2) with
    (String.length s + 2 + 1 * 3) by lia.
  rewrite Nat.div_add by lia. lia.
Qed.

(** Property X12.  The base64 text of the bytes of a file has four
    characters for every three bytes, the last group filled up, and is made
    of the characters of the standard alphabet and of the padding [=]; so it
    has no closing parenthesis, which would end the target of the image
    reference it is written into. *)
Theorem EncodeToString_shape (data : string) :
  String.length (EncodeToString data) = 4 * ((String.length data + 2) / 3) /\
  allChars base64Char (EncodeToString data) = true /\
  occurs ")" (EncodeToString data) = false.
Proof.
  split; [apply EncodeToString_length | ].
  split; [apply EncodeToString_chars | ].
  apply (allChars_occurs base64Char _ _ (EncodeToString_chars data)).
  reflexivity.
Qed.

Lemma getMimeType_no_paren (p : string) : occurs ")" (getMimeType p) = false.
Proof.
  unfold getMimeType. generalize (ToLower (filepath.Ext p)) as ext.
  intros ext. cbn [mimeTypes mapLookup].
  repeat match goal with
         | |- context [String.eqb ?k ext] => destruct (String.eqb k ext)
         end; reflexivity.
Qed.

(** The data URI of an embedded file is a target the pattern accepts and
    the embedder skips. *)
Lemma dataURI_ok (p data : string) :
  let uri := "data:" ++ getMimeType p ++ ";base64," ++ EncodeToString data in
  okTarget uri /\ skipImage uri = true.
Proof.
  cbv zeta. split; [split; [discriminate | ] | ].
  - change ("data:" ++ getMimeType p ++ ";base64," ++ EncodeToString data)
      with ("data:" ++ (getMimeType p ++ ";base64," ++ EncodeToString data)).
    rewrite !occurs_app, getMimeType_no_paren.
    rewrite (allChars_occurs base64Char ")"%char _ (EncodeToString_chars data)
               eq_refl).
    reflexivity.
  - unfold skipImage, HasPrefix.
    rewrite (prefix_app "data:"
               (getMimeType p ++ ";base64," ++ EncodeToString data)).
    apply orb_true_r.
Qed.

(** ** The image embedder on whole texts *)

(** A loop whose replacement function returns its argument returns the
    text. *)
Lemma replaceLoop_keeps {St : Type} (P : St -> Prop) (re : Regexp)
    (repl : string -> St -> string * St) :
  nonEmptyRe re ->
  (forall m st, P st -> fst (repl m st) = m /\ P (snd (repl m st))) ->
  forall fuel prev s atEnd st,
    P st -> fst (replaceLoop fuel re repl prev s atEnd st) = s.
Proof.
  intros N H fuel. induction fuel as [|fuel IH]; intros prev s atEnd st Hst;
    [reflexivity | ].
  rewrite (replaceLoop_step re repl N).
  destruct (find re prev s) as [[before m]|] eqn:F; [ | reflexivity].
  destruct (H (m_text m) st Hst) as [E1 E2].
  destruct (repl (m_text m) st) as [r st1]. cbn [fst snd] in E1, E2. subst r.
  specialize (IH (m_prev m) (m_rest m) true st1 E2).
  destruct (replaceLoop fuel re repl (m_prev m) (m_rest m) true st1) as [out st2].
  cbn [fst] in *. subst out. symmetry. now apply (find_split re prev).
Qed.

(** A relation that holds between every match and its replacement, whatever
    the state, and that is kept by concatenation, holds between the text and
    the result of the loop. *)
Lemma replaceLoop_related_state {St : Type} (P : St -> Prop)
    (R : string -> string -> Prop) (re : Regexp)
    (repl : string -> St -> string * St) :
  nonEmptyRe re ->
  (forall s, R s s) ->
  (forall a a' b b', R a a' -> R b b' -> R (a ++ b) (a' ++ b')) ->
  (forall p s m st, matchHere re p s = Some m -> P st ->
     R (m_text m) (fst (repl (m_text m) st)) /\ P (snd (repl (m_text m) st))) ->
  forall fuel prev s atEnd st,
    P st -> R s (fst (replaceLoop fuel re repl prev s atEnd st)).
Proof.
  intros N Hrefl Happ Hf fuel.
  induction fuel as [|fuel IH]; intros prev s atEnd st Hst; [apply Hrefl | ].
  rewrite (replaceLoop_step re _ N).
  destruct (find re prev s) as [[before m]|] eqn:F; [ | apply Hrefl].
  pose proof (find_split _ _ _ _ _ F) as Es.
  apply find_matchHere in F as (s' & _ & Hm).
  destruct (Hf _ _ _ st Hm Hst) as [H1 H2].
  destruct (repl (m_text m) st) as [r st1]. cbn [fst snd] in H1, H2.
  specialize (IH (m_prev m) (m_rest m) true st1 H2).
  destruct (replaceLoop fuel re repl (m_prev m) (m_rest m) true st1)
    as [out st2]. cbn [fst] in *.
  rewrite Es at 1.
  apply Happ; [apply Hrefl | ]. now apply Happ.
Qed.

(** The image pattern matches nowhere at an exclamation mark that no
    opening bracket follows. *)
Lemma plain_no_image (s : string) :
  occurs "[" s = false -> contains "![" s = false.
Proof.
  induction s as [|x s IH]; intros H; [reflexivity | ].
  cbn [occurs] in H. apply orb_false_iff in H as [H1 H2].
  cbn [contains]. rewrite (IH H2), orb_false_r.
  cbn [String.prefix].
  destruct (Ascii.ascii_dec "!" x) as [<- | ]; [ | reflexivity].
  destruct s as [|y s]; [reflexivity | ].
  cbn [occurs] in H2. apply orb_false_iff in H2 as [H2 _].
  cbn [String.prefix].
  destruct (Ascii.ascii_dec "[" y) as [<- | ]; [discriminate | reflexivity].
Qed.

Lemma Sprintf_warning (p msg : string) :
  fmt.Sprintf ("Warning: Could not read image %s: %v" ++ String "010" EmptyString)
    [p; msg] = warningLine p msg.
Proof. reflexivity. Qed.

Section EmbedderFacts.

Variable Join : string -> string -> string.

Lemma embedImages_skip_text (pre s2 baseDir : string) (w : os.World) :
  contains "![" pre = false ->
  (forall r, s2 <> String "[" r) ->
  embedImages Join (pre ++ s2) baseDir w =
  let '((out, err), w') := embedImages Join s2 baseDir w in
  ((pre ++ out, err), w').
Proof.
  intros Hc Hs. apply embedImages_skip_none.
  intros a x b p E. now apply (no_image_start pre s2 Hc Hs a x b p).
Qed.

Lemma embedImages_plain (s baseDir : string) (w : os.World) :
  contains "![" s = false -> embedImages Join s baseDir w = ((s, None), w).
Proof.
  intros Hc.
  pose proof (embedImages_skip_text s EmptyString baseDir w Hc
                ltac:(discriminate)) as H.
  rewrite append_nil_r in H. rewrite H.
  now rewrite (embedImages_none Join EmptyString baseDir w eq_refl),
    append_nil_r.
Qed.

(** Property X13.  A text in which [![] does not occur is returned as it
    is by the image embedder, whatever the files are, with the error [nil]
    and nothing printed: the empty text, a text with links only, a text
    with exclamation marks that do not begin an image reference. *)
Theorem embedImages_without_image (mdContent baseDir : string) (w : os.World) :
  contains "![" mdContent = false ->
  embedImages Join mdContent baseDir w = ((mdContent, None), w).
Proof. apply embedImages_plain. Qed.

(** The replacement function on an image reference. *)
Lemma imgFunc_embedTarget (baseDir t u : string) (w : os.World) :
  okText t -> okTarget u ->
  imgFunc Join baseDir (ImageSpan t u) w =
  (ImageSpan t (embedTarget Join baseDir u w),
   os.mkWorld (os.files w) (os.unwritable w)
     (os.stdout w ++ embedWarning Join baseDir u w)).
Proof.
  intros Ht Hu. rewrite (imgFunc_span Join baseDir t u w Ht Hu).
  unfold embedTarget, embedWarning.
  destruct (skipImage u);
    [destruct w; cbn; now rewrite app_nil_r | ].
  destruct (os.files w (Join baseDir u));
    [destruct w; cbn; now rewrite app_nil_r | ].
  unfold os.Printf. now rewrite Sprintf_warning.
Qed.

(** Property X14.  In a text made of image references, each with an
    alternative text without closing bracket and a target that is not empty
    and has no closing parenthesis, and of stretches between them in which
    [![] does not occur, the image embedder deals with every reference, in
    their order, also with one that directly follows another: a target it skips and a target whose file cannot be read are
    kept, every other target becomes the data URI of its file; one warning
    is printed for each file that cannot be read, in the order of the
    references; the rest of the text is kept and no file is changed. *)
Theorem embedImages_every_image (items : list (string * string * string))
    (tail baseDir : string) (w : os.World) :
  Forall separateImage items ->
  contains "![" tail = false ->
  embedImages Join (imagesText items tail) baseDir w =
  ((imagesText
      (map (fun '(pre, alt, p) => (pre, alt, embedTarget Join baseDir p w)) items)
      tail, None),
   os.mkWorld (os.files w) (os.unwritable w)
     (os.stdout w ++
      flat_map (fun '(_, _, p) => embedWarning Join baseDir p w) items)).
Proof.
  intros Hi Ht. revert w.
  induction Hi as [|[[pre alt] p] items (Hp & Ha & Hu) Hi IH]; intros w.
  - cbn [imagesText map flat_map]. rewrite (embedImages_plain _ _ _ Ht).
    destruct w; cbn. now rewrite app_nil_r.
  - cbn [imagesText map flat_map].
    rewrite (embedImages_skip_text pre _ baseDir w Hp)
      by (unfold ImageSpan; cbn [append]; discriminate).
    rewrite (embedImages_step Join baseDir alt p _ w Ha Hu).
    rewrite (imgFunc_embedTarget baseDir alt p w Ha Hu).
    rewrite IH. cbn [os.files os.unwritable os.stdout].
    set (w1 := os.mkWorld (os.files w) (os.unwritable w)
                 (os.stdout w ++ embedWarning Join baseDir p w)).
    assert (Em : map (fun '(pre, alt, p) =>
                        (pre, alt, embedTarget Join baseDir p w1)) items =
                 map (fun '(pre, alt, p) =>
                        (pre, alt, embedTarget Join baseDir p w)) items).
    { apply map_ext. intros [[pre' alt'] p']. reflexivity. }
    assert (Ef : flat_map (fun '(_, _, p) => embedWarning Join baseDir p w1)
                   items =
                 flat_map (fun '(_, _, p) => embedWarning Join baseDir p w)
                   items).
    { apply flat_map_ext. intros [[pre' alt'] p']. reflexivity. }
    rewrite Em, Ef, <- app_assoc. reflexivity.
Qed.

Lemma Embedded_refl (baseDir : string) (w : os.World) (s : string) :
  Embedded Join baseDir w s s.
Proof. induction s; now constructor. Qed.

Lemma Embedded_app (baseDir : string) (w : os.World) (a a' b b' : string) :
  Embedded Join baseDir w a a' -> Embedded Join baseDir w b b' ->
  Embedded Join baseDir w (a ++ b) (a' ++ b').
Proof.
  intros Ha Hb. induction Ha as [|c s s' _ IH|alt p s s' Ht Hu _ IH].
  - exact Hb.
  - cbn [append]. now constructor.
  - rewrite !append_assoc. now constructor.
Qed.

(** Property X15.  Whatever the text, the image embedder changes nothing in
    it but targets of image references, each of which it keeps or replaces
    by the data URI of the file it names. *)
Theorem embedImages_only_targets (mdContent baseDir : string) (w : os.World) :
  Embedded Join baseDir w mdContent
    (fst (fst (embedImages Join mdContent baseDir w))).
Proof.
  unfold embedImages, ReplaceAllStringFuncM, replaceFrom.
  pose proof (replaceLoop_related_state
                (fun st => os.files st = os.files w)
                (Embedded Join baseDir w) imgRegex (imgFunc Join baseDir)
                imgRegex_nonempty (Embedded_refl baseDir w)
                (Embedded_app baseDir w)) as H.
  specialize (fun K => H K (S (String.length mdContent)) None mdContent false w eq_refl).
  destruct (replaceLoop _ _ _ _ _ _ _) as [r w1]. cbn [fst] in *.
  apply H. clear H.
  intros p s m st Hm Hst.
  apply imgRegex_elim in Hm as (t & u & rest & Ht & Hu & _ & ->).
  cbn [m_text]. rewrite (imgFunc_embedTarget baseDir t u st Ht Hu).
  cbn [fst snd os.files]. split; [ | exact Hst].
  assert (E : embedTarget Join baseDir u st = embedTarget Join baseDir u w)
    by (unfold embedTarget; now rewrite Hst).
  rewrite E.
  pose proof (Embedded_image Join baseDir w t u EmptyString EmptyString Ht Hu
                (Embedded_nil Join baseDir w)) as K.
  now rewrite !append_nil_r in K.
Qed.

Lemma imgFunc_keeps (baseDir : string) (w : os.World) :
  (forall p, skipImage p = false ->
             exists msg, os.files w (Join baseDir p) = inr msg) ->
  forall m st,
    os.files st = os.files w ->
    fst (imgFunc Join baseDir m st) = m /\
    os.files (snd (imgFunc Join baseDir m st)) = os.files w.
Proof.
  intros H m st E. unfold imgFunc.
  destruct (Nat.ltb _ 3); [now split | ].
  destruct (skipImage _) eqn:Hs; [now split | ].
  unfold os.ReadFile. rewrite E.
  destruct (H _ Hs) as [msg Hm]. rewrite Hm. now split.
Qed.

(** Property X16.  When no file under the base directory can be read, the
    image embedder returns the text as it is, whatever the text, and no
    error. *)
Theorem embedImages_nothing_readable (mdContent baseDir : string)
    (w : os.World) :
  (forall p, skipImage p = false ->
             exists msg, os.files w (Join baseDir p) = inr msg) ->
  fst (embedImages Join mdContent baseDir w) = (mdContent, None).
Proof.
  intros H. unfold embedImages, ReplaceAllStringFuncM, replaceFrom.
  pose proof (replaceLoop_keeps (fun st => os.files st = os.files w) imgRegex
                (imgFunc Join baseDir) imgRegex_nonempty
                (imgFunc_keeps baseDir w H)
                (S (String.length mdContent)) None mdContent false w eq_refl)
    as K.
  destruct (replaceLoop _ _ _ _ _ _ _) as [r w1]. cbn [fst] in *. now subst r.
Qed.

(** Property X17.  The data URI written for an embedded file has no closing
    parenthesis, so the image reference written is again an image reference
    with this target; the image embedder copies it as it is, whatever the
    files are, and prints nothing, when it comes to it in another run. *)
Theorem embedded_reference_stable
    (pre alt p data rest baseDir : string) (w : os.World) :
  contains "![" pre = false -> okText alt ->
  let uri := "data:" ++ getMimeType p ++ ";base64," ++ EncodeToString data in
  okTarget uri /\
  embedImages Join (pre ++ ImageSpan alt uri ++ rest) baseDir w =
    (let '((out, err), w') := embedImages Join rest baseDir w in
     ((pre ++ ImageSpan alt uri ++ out, err), w')).
Proof.
  intros Hpre Ha uri. destruct (dataURI_ok p data) as [Hu Hs]. fold uri in Hu, Hs.
  split; [exact Hu | ].
  rewrite (embedImages_skip_text pre _ baseDir w Hpre)
    by (unfold ImageSpan; cbn [append]; discriminate).
  rewrite (embedImages_step Join baseDir alt uri rest w Ha Hu).
  rewrite (imgFunc_span Join baseDir alt uri w Ha Hu), Hs.
  now destruct (embedImages Join rest baseDir w) as [[out err] w'].
Qed.

Lemma imgFunc_warned (baseDir m : string) (w0 w : os.World) :
  (sameFiles w0 w /\
   exists lines, os.stdout w = (os.stdout w0 ++ lines)%list /\
                 warningsOf Join baseDir w0 lines) ->
  let w' := snd (imgFunc Join baseDir m w) in
  sameFiles w0 w' /\
  exists lines, os.stdout w' = (os.stdout w0 ++ lines)%list /\
                warningsOf Join baseDir w0 lines.
Proof.
  intros [Hs (lines & Hl & Hw)]. cbv zeta. unfold imgFunc.
  destruct (Nat.ltb _ 3); [split; [exact Hs | now exists lines] | ].
  destruct (skipImage _); [split; [exact Hs | now exists lines] | ].
  unfold os.ReadFile.
  destruct (os.files w _) as [data|msg] eqn:Hf;
    [split; [exact Hs | now exists lines] | ].
  cbn [snd]. split; [exact Hs | ].
  exists (lines ++
          [warningLine (nth 2 (FindStringSubmatch imgRegex m) EmptyString) msg])%list.
  split.
  - unfold os.Printf. cbn [os.stdout]. rewrite Sprintf_warning, Hl.
    now rewrite app_assoc.
  - apply Forall_app. split; [exact Hw | ].
    constructor; [ | constructor]. eexists _, msg. split; [reflexivity | ].
    destruct Hs as [Hs _]. now rewrite <- Hs.
Qed.

Lemma embedImages_warned (md baseDir : string) (w : os.World) :
  let w' := snd (embedImages Join md baseDir w) in
  sameFiles w w' /\
  exists lines, os.stdout w' = (os.stdout w ++ lines)%list /\
                warningsOf Join baseDir w lines.
Proof.
  cbv zeta. unfold embedImages, ReplaceAllStringFuncM, replaceFrom.
  pose proof (replaceLoop_invariant
                (fun st => sameFiles w st /\
                   exists lines, os.stdout st = (os.stdout w ++ lines)%list /\
                                 warningsOf Join baseDir w lines)
                imgRegex (imgFunc Join baseDir)
                (fun m st => imgFunc_warned baseDir m w st)
                (S (String.length md)) None md false w) as H.
  destruct (replaceLoop _ _ _ _ _ _ _) as [r w1]. cbn [snd] in *.
  apply H. split; [now split | ].
  exists []. split; [now rewrite app_nil_r | constructor].
Qed.

(** Property X18.  Whatever the text, the image embedder changes no file
    and nothing of what can be written; it only adds lines to what is
    printed, and each line it adds is the warning about a target whose
    file, under the base directory, cannot be read, with the message of the
    failed read. *)
Theorem embedImages_prints_warnings (mdContent baseDir : string)
    (w : os.World) :
  let w' := snd (embedImages Join mdContent baseDir w) in
  os.files w' = os.files w /\ os.unwritable w' = os.unwritable w /\
  exists lines,
    os.stdout w' = (os.stdout w ++ lines)%list /\
    Forall (fun l => exists p msg,
              l = warningLine p msg /\ os.files w (Join baseDir p) = inr msg)
           lines.
Proof.
  destruct (embedImages_warned mdContent baseDir w)
    as [[H1 H2] (lines & H3 & H4)].
  cbv zeta. split; [exact H1 | ]. split; [exact H2 | ].
  exists lines. split; [exact H3 | exact H4].
Qed.

End EmbedderFacts.

Lemma embedImages_without_image_witness :
  contains "![" "Wow! See [a](b.md) (c)!" = false /\
  embedImages sampleJoin "Wow! See [a](b.md) (c)!" "docs" sampleWorld =
  (("Wow! See [a](b.md) (c)!", None), sampleWorld).
Proof.
  split; [reflexivity | ].
  exact (embedImages_without_image sampleJoin "Wow! See [a](b.md) (c)!" "docs"
           sampleWorld eq_refl).
Defined.

Lemma embedImages_every_image_witness :
  (Forall separateImage
     [("See ", "Logo", "logo.png"); (EmptyString, "Chart", "chart.png");
      (" and! ", "Web", "https://h/w.png")] /\
   contains "![" "!" = false) /\
  embedImages sampleJoin
    "See ![Logo](logo.png)![Chart](chart.png) and! ![Web](https://h/w.png)!"
    "docs" sampleWorld =
  (("See ![Logo](data:image/png;base64,UE5HREFUQQ==)![Chart](chart.png) and! ![Web](https://h/w.png)!",
    None),
   os.mkWorld (os.files sampleWorld) (os.unwritable sampleWorld)
     [warningLine "chart.png" "no such file or directory"]).
Proof.
  assert (Hi : Forall separateImage
                 [("See ", "Logo", "logo.png");
                  (EmptyString, "Chart", "chart.png");
                  (" and! ", "Web", "https://h/w.png")]).
  { repeat constructor; try reflexivity; discriminate. }
  split; [now split | ].
  exact (embedImages_every_image sampleJoin _ "!" "docs" sampleWorld Hi eq_refl).
Defined.

Lemma embedImages_nothing_readable_witness :
  (forall p, skipImage p = false ->
             exists msg, os.files sampleEmpty (sampleJoin "docs" p) = inr msg) /\
  fst (embedImages sampleJoin "See ![Logo](logo.png) and ![Chart](chart.png)."
         "docs" sampleEmpty) =
  ("See ![Logo](logo.png) and ![Chart](chart.png).", None).
Proof.
  assert (H : forall p, skipImage p = false ->
                exists msg, os.files sampleEmpty (sampleJoin "docs" p) = inr msg)
    by (intros p _; now exists "no such file or directory").
  split; [exact H | ].
  exact (embedImages_nothing_readable sampleJoin _ "docs" sampleEmpty H).
Defined.

Lemma embedded_reference_stable_witness :
  (contains "![" "See " = false /\ okText "Logo") /\
  embedImages sampleJoin "See ![Logo](data:image/png;base64,UE5HREFUQQ==)."
    "docs" sampleWorld =
  (("See ![Logo](data:image/png;base64,UE5HREFUQQ==).", None), sampleWorld).
Proof.
  split; [now split | ].
  exact (proj2 (embedded_reference_stable sampleJoin "See " "Logo" "logo.png"
                  "PNGDATA" "." "docs" sampleWorld eq_refl eq_refl)).
Defined.

(** ** The runs of [main] *)

Lemma output_not_input (inputFile : string) :
  HasSuffix inputFile ".md" = true ->
  TrimSuffix inputFile ".md" ++ ".html" <> inputFile.
Proof.
  intros H E. pose proof (HasSuffix_inv _ _ H) as E'.
  rewrite E' in E at 2. apply append_inv_head in E. discriminate.
Qed.

Lemma Sprintf_read_error (msg : string) :
  fmt.Sprintf ("Error: %v" ++ String "010" EmptyString)
    [fmt.Sprintf "failed to read input file: %w" [msg]] =
  "Error: failed to read input file: " ++ msg ++ String "010" EmptyString.
Proof. cbn. now rewrite append_nil_r. Qed.

Lemma Sprintf_write_error (msg : string) :
  fmt.Sprintf ("Error: %v" ++ String "010" EmptyString)
    [fmt.Sprintf "failed to write output file: %w" [msg]] =
  "Error: failed to write output file: " ++ msg ++ String "010" EmptyString.
Proof. cbn. now rewrite append_nil_r. Qed.

Lemma Sprintf_success (inputFile outputFile : string) :
  fmt.Sprintf ("Successfully converted %s to %s" ++ String "010" EmptyString)
    [inputFile; outputFile] =
  "Successfully converted " ++ inputFile ++ " to " ++ outputFile ++
  String "010" EmptyString.
Proof. reflexivity. Qed.

Section DriverFacts.

Variable render : string -> string.
Variable Dir : string -> string.
Variable Join : string -> string -> string.

(** The three ends of a run on an input file with the extension [.md]. *)
Lemma main_run (fontFamily title inputFile : string) (more : list string)
    (w : os.World) :
  HasSuffix inputFile ".md" = true ->
  main render Dir Join fontFamily title (inputFile :: more) w =
  match os.files w inputFile with
  | inr msg =>
      (1%Z, os.mkWorld (os.files w) (os.unwritable w)
              (os.stdout w ++
               ["Error: failed to read input file: " ++ msg ++
                String "010" EmptyString]))
  | inl md =>
      let '((processed, _), w1) :=
        embedImages Join (rewriteMarkdownLinks md) (Dir inputFile) w in
      let outputFile := TrimSuffix inputFile ".md" ++ ".html" in
      match os.unwritable w1 outputFile with
      | Some msg =>
          (1%Z, os.mkWorld (os.files w1) (os.unwritable w1)
                  (os.stdout w1 ++
                   ["Error: failed to write output file: " ++ msg ++
                    String "010" EmptyString]))
      | None =>
          (0%Z, os.mkWorld
                  (fun p => if String.eqb p outputFile
                            then inl (createHTMLDocument (render processed)
                                        fontFamily title)
                            else os.files w1 p)
                  (os.unwritable w1)
                  (os.stdout w1 ++
                   ["Successfully converted " ++ inputFile ++ " to " ++
                    outputFile ++ String "010" EmptyString]))
      end
  end.
Proof.
  intros Hs. unfold main. rewrite Hs. cbn [negb].
  destruct (os.files w inputFile) as [md|msg] eqn:Hf.
  - pose proof (convertMarkdownToHTML_read render Dir Join inputFile
                  (TrimSuffix inputFile ".md" ++ ".html") fontFamily title md w Hf)
      as Hc.
    destruct (embedImages Join _ _ w) as [[processed err] w1].
    rewrite Hc. cbv zeta. unfold os.WriteFile.
    destruct (os.unwritable w1 _) as [msg|].
    + unfold os.Printf. cbn [os.files os.unwritable os.stdout].
      now rewrite Sprintf_write_error.
    + unfold os.Printf. cbn [os.files os.unwritable os.stdout].
      now rewrite Sprintf_success.
  - unfold convertMarkdownToHTML, os.ReadFile. rewrite Hf.
    unfold os.Printf. now rewrite Sprintf_read_error.
Qed.

(** Property X20.  Once the flags are parsed, the exit status of [main] is
    0 or 1, and it is 0 exactly when there is an input file, its name ends
    with [.md], it can be read, and the output file, named after it, can be
    written; neither the links nor the images of the document can make the
    run fail, and further arguments play no part. *)
Theorem main_exit_status (fontFamily title : string) (args : list string)
    (w : os.World) :
  let status := fst (main render Dir Join fontFamily title args w) in
  (status = 0%Z \/ status = 1%Z) /\
  (status = 0%Z <->
   exists inputFile more md,
     args = inputFile :: more /\ HasSuffix inputFile ".md" = true /\
     os.files w inputFile = inl md /\
     os.unwritable w (TrimSuffix inputFile ".md" ++ ".html") = None).
Proof.
  cbv zeta. destruct args as [|inputFile more].
  - unfold main. cbn [fst]. split; [now right | ].
    split; [discriminate | intros (i & m & md & E & _); discriminate].
  - destruct (HasSuffix inputFile ".md") eqn:Hs.
    + rewrite (main_run fontFamily title inputFile more w Hs).
      destruct (os.files w inputFile) as [md|msg] eqn:Hf.
      * pose proof (embedImages_sameFiles Join (rewriteMarkdownLinks md)
                      (Dir inputFile) w) as [_ Hu].
        destruct (embedImages Join _ _ w) as [[processed err] w1].
        cbn [snd] in Hu. cbv zeta. rewrite Hu.
        destruct (os.unwritable w _) as [msg|] eqn:Hw; cbn [fst].
        -- split; [now right | ]. split; [discriminate | ].
           intros (i & m & md' & E & _ & _ & Hw'). injection E as <- <-.
           congruence.
        -- split; [now left | ]. split; [ | reflexivity].
           intros _. now exists inputFile, more, md.
      * cbn [fst]. split; [now right | ]. split; [discriminate | ].
        intros (i & m & md' & E & _ & Hf' & _). injection E as <- <-.
        congruence.
    + unfold main. rewrite Hs. cbn [negb fst]. split; [now right | ].
      split; [discriminate | ].
      intros (i & m & md' & E & Hs' & _). injection E as <- <-. congruence.
Qed.

(** Property X21.  When the input file cannot be read, [main] prints the
    line [Error: failed to read input file: ] followed by the message of the
    failed read, and ends with exit status 1; nothing else is printed and
    no file is written. *)
Theorem main_read_failure (fontFamily title inputFile msg : string)
    (more : list string) (w : os.World) :
  HasSuffix inputFile ".md" = true ->
  os.files w inputFile = inr msg ->
  main render Dir Join fontFamily title (inputFile :: more) w =
  (1%Z, os.mkWorld (os.files w) (os.unwritable w)
          (os.stdout w ++
           ["Error: failed to read input file: " ++ msg ++
            String "010" EmptyString])).
Proof.
  intros Hs Hf. rewrite (main_run fontFamily title inputFile more w Hs).
  now rewrite Hf.
Qed.

(** Property X22.  When the input file can be read and the output file
    cannot be written, [main] ends with exit status 1, and the last line it
    prints, after the warnings of the image embedder, is
    [Error: failed to write output file: ] followed by the message of the
    failed write. *)
Theorem main_write_failure (fontFamily title inputFile md msg : string)
    (more : list string) (w : os.World) :
  HasSuffix inputFile ".md" = true ->
  os.files w inputFile = inl md ->
  os.unwritable w (TrimSuffix inputFile ".md" ++ ".html") = Some msg ->
  let w1 := snd (embedImages Join (rewriteMarkdownLinks md) (Dir inputFile) w) in
  let w' := snd (main render Dir Join fontFamily title (inputFile :: more) w) in
  fst (main render Dir Join fontFamily title (inputFile :: more) w) = 1%Z /\
  os.stdout w' =
    (os.stdout w1 ++
     [("Error: failed to write output file: " ++ msg ++
       String "010" EmptyString)%string])%list.
Proof.
  intros Hs Hf Hw. cbv zeta.
  rewrite (main_run fontFamily title inputFile more w Hs), Hf.
  pose proof (embedImages_sameFiles Join (rewriteMarkdownLinks md)
                (Dir inputFile) w) as [Hfs Hu].
  destruct (embedImages Join _ _ w) as [[processed err] w1].
  cbn [snd] in *. cbv zeta. rewrite Hu, Hw. cbn [fst snd os.stdout].
  now split.
Qed.

(** Property X23.  Whatever the arguments and the files, a run of [main]
    leaves the input file as it was: the output file has another name, and
    no other file is written. *)
Theorem main_keeps_input (fontFamily title inputFile : string)
    (more : list string) (w : os.World) :
  os.files (snd (main render Dir Join fontFamily title (inputFile :: more) w))
    inputFile = os.files w inputFile.
Proof.
  destruct (HasSuffix inputFile ".md") eqn:Hs.
  - pose proof (output_not_input inputFile Hs) as Hne.
    unfold main. rewrite Hs. cbn [negb].
    pose proof (convertMarkdownToHTML_files render Dir Join inputFile
                  (TrimSuffix inputFile ".md" ++ ".html") fontFamily title w
                  inputFile (fun E => Hne (eq_sym E))) as Hc.
    destruct (convertMarkdownToHTML render Dir Join inputFile _ fontFamily title w)
      as [[err|] w1]; exact Hc.
  - unfold main. now rewrite Hs.
Qed.

(** Property X24.  A run that succeeds prints the warnings of the image
    embedder, each about a target whose file cannot be read, and then, as
    its last line, [Successfully converted ] with the names of the input
    and the output file; it prints nothing else. *)
Theorem main_success_output (fontFamily title inputFile md : string)
    (more : list string) (w : os.World) :
  HasSuffix inputFile ".md" = true ->
  os.files w inputFile = inl md ->
  os.unwritable w (TrimSuffix inputFile ".md" ++ ".html") = None ->
  let outputFile := TrimSuffix inputFile ".md" ++ ".html" in
  let w' := snd (main render Dir Join fontFamily title (inputFile :: more) w) in
  exists warnings,
    os.stdout w' =
      (os.stdout w ++ warnings ++
       [("Successfully converted " ++ inputFile ++ " to " ++ outputFile ++
         String "010" EmptyString)%string])%list /\
    Forall (fun l => exists p msg,
              l = warningLine p msg /\
              os.files w (Join (Dir inputFile) p) = inr msg) warnings.
Proof.
  intros Hs Hf Hw. cbv zeta.
  rewrite (main_run fontFamily title inputFile more w Hs), Hf.
  destruct (embedImages_warned Join (rewriteMarkdownLinks md) (Dir inputFile) w)
    as [[_ Hu] (lines & Hl & Hq)].
  destruct (embedImages Join _ _ w) as [[processed err] w1].
  cbn [snd] in *. cbv zeta. rewrite Hu, Hw. cbn [snd os.stdout].
  exists lines. split; [ | exact Hq]. now rewrite Hl, <- app_assoc.
Qed.

(** Property X25.  For a document without an opening bracket, so without
    links and image references, neither pass changes the text: the run
    writes, as the output file, the document assembled around the rendering
    of the text as it was read, prints the line on its success and nothing
    else, ends with exit status 0, and leaves every other file as it was. *)
Theorem main_plain_document (fontFamily title inputFile md : string)
    (more : list string) (w : os.World) :
  HasSuffix inputFile ".md" = true ->
  os.files w inputFile = inl md ->
  os.unwritable w (TrimSuffix inputFile ".md" ++ ".html") = None ->
  occurs "[" md = false ->
  let outputFile := TrimSuffix inputFile ".md" ++ ".html" in
  main render Dir Join fontFamily title (inputFile :: more) w =
  (0%Z,
   os.mkWorld
     (fun p => if String.eqb p outputFile
               then inl (createHTMLDocument (render md) fontFamily title)
               else os.files w p)
     (os.unwritable w)
     (os.stdout w ++
      ["Successfully converted " ++ inputFile ++ " to " ++ outputFile ++
       String "010" EmptyString])).
Proof.
  intros Hs Hf Hw Hp. cbv zeta.
  rewrite (main_run fontFamily title inputFile more w Hs), Hf.
  rewrite (rewriteMarkdownLinks_skip_text md (plain_brackets md None Hp)).
  rewrite (embedImages_plain Join md (Dir inputFile) w (plain_no_image md Hp)).
  cbv zeta. now rewrite Hw.
Qed.

End DriverFacts.

Lemma main_read_failure_witness :
  (HasSuffix "missing.md" ".md" = true /\
   os.files sampleWorld "missing.md" = inr "no such file or directory") /\
  main sampleRender sampleDir sampleJoin "Open Sans" EmptyString ["missing.md"]
    sampleWorld =
  (1%Z, os.mkWorld (os.files sampleWorld) (os.unwritable sampleWorld)
          ["Error: failed to read input file: no such file or directory" ++
           String "010" EmptyString]).
Proof.
  split; [now split | ].
  exact (main_read_failure sampleRender sampleDir sampleJoin "Open Sans"
           EmptyString "missing.md" "no such file or directory" [] sampleWorld
           eq_refl eq_refl).
Defined.

Lemma main_write_failure_witness :
  (HasSuffix "docs/guide.md" ".md" = true /\
   os.unwritable sampleLocked "docs/guide.html" = Some "permission denied") /\
  fst (main sampleRender sampleDir sampleJoin "Open Sans" EmptyString
         ["docs/guide.md"] sampleLocked) = 1%Z /\
  os.stdout (snd (main sampleRender sampleDir sampleJoin "Open Sans" EmptyString
                    ["docs/guide.md"] sampleLocked)) =
  [warningLine "chart.png" "no such file or directory";
   "Error: failed to write output file: permission denied" ++
   String "010" EmptyString].
Proof.
  split; [now split | ].
  destruct (main_write_failure sampleRender sampleDir sampleJoin "Open Sans"
              EmptyString "docs/guide.md"
              "See ![Logo](logo.png) and ![Chart](chart.png)."
              "permission denied" [] sampleLocked eq_refl eq_refl eq_refl)
    as [E1 E2].
  split; [exact E1 | ]. rewrite E2. vm_compute. reflexivity.
Defined.

Lemma main_success_output_witness :
  (HasSuffix "docs/guide.md" ".md" = true /\
   os.unwritable sampleWorld "docs/guide.html" = None) /\
  exists warnings,
    os.stdout (snd (main sampleRender sampleDir sampleJoin "Open Sans"
                      EmptyString ["docs/guide.md"] sampleWorld)) =
    (warnings ++
     [("Successfully converted docs/guide.md to docs/guide.html" ++
       String "010" EmptyString)%string])%list.
Proof.
  split; [now split | ].
  destruct (main_success_output sampleRender sampleDir sampleJoin "Open Sans"
              EmptyString "docs/guide.md"
              "See ![Logo](logo.png) and ![Chart](chart.png)."
              [] sampleWorld eq_refl eq_refl eq_refl)
    as (warnings & E & _).
  exists warnings. exact E.
Defined.

Lemma main_plain_document_witness :
  (HasSuffix "notes.md" ".md" = true /\
   os.files samplePlain "notes.md" = inl "Plain text, no links!" /\
   occurs "[" "Plain text, no links!" = false) /\
  main sampleRender sampleDir sampleJoin "Open Sans" "Notes" ["notes.md"]
    samplePlain =
  (0%Z,
   os.mkWorld
     (fun p => if String.eqb p "notes.html"
               then inl (createHTMLDocument "Plain text, no links!" "Open Sans"
                           "Notes")
               else os.files samplePlain p)
     (os.unwritable samplePlain)
     ["Successfully converted notes.md to notes.html" ++ String "010" EmptyString]).
Proof.
  split; [now repeat split | ].
  exact (main_plain_document sampleRender sampleDir sampleJoin "Open Sans"
           "Notes" "notes.md" "Plain text, no links!" [] samplePlain
           eq_refl eq_refl eq_refl eq_refl).
Defined.
